(** * mini-caffe: the inference-time network core (src/net.cpp)

    A shallow embedding of [caffe::Net]: rule evaluation and layer
    filtering, the wiring of layers to blobs with the blob life-time
    table, forward execution with early release of blobs, the copying of
    trained weights by layer name, and the name indices.

    Conventions.
    - A failed [CHECK] and a [LOG(FATAL)] stop the operation; they are the
      [Fatal] results of the [result] type.
    - Indices ([layer_id], [blob_id], ...) are C++ [int]s that the code
      only ever takes from container sizes; they are [nat] here.  Levels
      of the net state are [int32] and are [Z].
    - [std::map<string,int>] is [gmap string nat], [std::set<string>] is
      [gset string], [std::vector] is [list] with stdpp's lookup and
      update. *)

From stdpp Require Import gmap strings list fin_maps pretty sorting.
From Stdlib Require Import ZArith.

#[global] Set Warnings "-clear-no-such-hyp".

(** ** The description format (proto/caffe.pb.h)

    The generated protobuf classes are not part of net.cpp; only the
    fields that net.cpp reads are kept.  An [optional] field is an
    [option]: [has_phase()] is [is_Some]. *)

Inductive Phase := TRAIN | TEST.

#[global] Instance Phase_eq_dec : EqDecision Phase.
Proof. solve_decision. Defined.

Module NetState.
Record t := mk { phase : Phase; level : Z; stage : list string }.
End NetState.
Abbreviation NetState := NetState.t.

Module NetStateRule.
Record t := mk {
  phase : option Phase;
  min_level : option Z;
  max_level : option Z;
  stage : list string;
  not_stage : list string }.
End NetStateRule.
Abbreviation NetStateRule := NetStateRule.t.

Module BlobProto.
(** [shape] is the [dim] list of the proto's shape, [data] the raw
    elements (each a 32-bit pattern, only ever copied, never computed
    on). *)
Record t := mk { shape : list Z; data : list Z }.
End BlobProto.
Abbreviation BlobProto := BlobProto.t.

Module ParamSpec.
Record t := mk { name : string }.
End ParamSpec.
Abbreviation ParamSpec := ParamSpec.t.

Module LayerParameter.
Record t := mk {
  name : string;
  type : string;
  bottom : list string;
  top : list string;
  include : list NetStateRule;
  exclude : list NetStateRule;
  param : list ParamSpec;
  blobs : list BlobProto }.
End LayerParameter.
Abbreviation LayerParameter := LayerParameter.t.

Module NetParameter.
Record t := mk { name : string; state : NetState; layer : list LayerParameter }.
(** [param_filtered->clear_layer()] *)
Definition clear_layer (param : t) : t :=
  {| name := name param; state := state param; layer := [] |}.
(** [param_filtered->add_layer()->CopyFrom(layer_param)] *)
Definition add_layer (layer_param : LayerParameter) (param : t) : t :=
  {| name := name param; state := state param;
     layer := layer param ++ [layer_param] |}.
End NetParameter.
Abbreviation NetParameter := NetParameter.t.

(** ** Fatal errors

    One constructor per [CHECK] / [LOG(FATAL)] site of net.cpp, carrying
    what the message prints. *)

Inductive FatalError :=
| PhaseIsNotTest
    (* Init: CHECK_EQ(in_param.state().phase(), TEST) *)
| IncludeAndExclude (layer_name : string)
    (* FilterNet: "Specify either include rules or exclude rules; not both." *)
| UnknownBottomBlob (blob_name layer_name : string) (bottom_id : nat)
    (* AppendBottom: "Unknown bottom blob ..." *)
| TopProducedByMultipleSources (blob_name : string)
    (* AppendTop: "Top blob ... produced by multiple sources." *)
| FirstLayerIsNotInput
    (* Init: "Network's first layer should be Input Layer." *)
| ForwardStartNegative
    (* ForwardFromTo: CHECK_GE(start, 0) *)
| ForwardEndPastLastLayer
    (* ForwardFromTo: CHECK_LT(end, layers_.size()) *)
| IncompatibleNumberOfBlobs (layer_name : string)
    (* CopyTrainedLayersFrom: "Incompatible number of blobs for layer ..." *)
| ShapeMismatch (param_id : nat) (layer_name : string)
                (source_shape target_shape : list Z)
    (* CopyTrainedLayersFrom: "Cannot copy param ... shape mismatch. ..." *)
| BlobNotAvailable (blob_name : string)
    (* MarkOutputs: "blob (...) is not availiable in Net" *)
| UnknownBlobName (blob_name : string)
    (* blob_by_name: CHECK(has_blob(blob_name)) *)
| UnknownLayerName (layer_name : string)
    (* layer_by_name: CHECK(has_layer(layer_name)) *)
| SubscriptOfEmptyVector.
    (* Init on a description without layers reads layers_[0]: C++ gives
       this no meaning; the model stops here. *)

#[global] Instance FatalError_eq_dec : EqDecision FatalError.
Proof. solve_decision. Defined.

Inductive result (A : Type) :=
| Ok (a : A)
| Fatal (e : FatalError).
Arguments Ok {A} a.
Arguments Fatal {A} e.

Definition bind {A B} (m : result A) (k : A → result B) : result B :=
  match m with
  | Ok a => k a
  | Fatal e => Fatal e
  end.

Notation "'do' x <- m ; k" := (bind m (fun x => k))
  (at level 10, x name, m at level 100, k at level 200).

Definition is_fatal {A} (r : result A) : bool :=
  match r with Ok _ => false | Fatal _ => true end.

(** [for (int i = 0; i < n; ++i) body(i)] over a state, stopping at the
    first fatal error; [ids] is [seq 0 n]. *)
Fixpoint for_each {St} (body : nat → St → result St) (ids : list nat)
    (s : St) : result St :=
  match ids with
  | [] => Ok s
  | i :: rest => do s' <- body i s; for_each body rest s'
  end.

(** The error classes of the specification (its section 7), as a
    reading of the fatal sites above. *)
Inductive ErrorClass :=
| ConfigurationError | GraphError | RangeError | WeightMismatchError
| LookupMiss.

Definition error_class (e : FatalError) : ErrorClass :=
  match e with
  | PhaseIsNotTest | IncludeAndExclude _ => ConfigurationError
  | UnknownBottomBlob _ _ _ | TopProducedByMultipleSources _
  | FirstLayerIsNotInput | SubscriptOfEmptyVector
  | BlobNotAvailable _ => GraphError
  | ForwardStartNegative | ForwardEndPastLastLayer => RangeError
  | IncompatibleNumberOfBlobs _ | ShapeMismatch _ _ _ _ => WeightMismatchError
  | UnknownBlobName _ | UnknownLayerName _ => LookupMiss
  end.

(** ** StateMeetsRule (net.cpp 101-164) *)

(** [for (j = 0; !has_stage && j < state.stage_size(); ++j)
       if (s == state.stage(j)) has_stage = true;] *)
Fixpoint has_stage_loop (s : string) (state_stage : list string) : bool :=
  match state_stage with
  | [] => false
  | sj :: rest => if String.eqb s sj then true else has_stage_loop s rest
  end.

(** The loop over [rule.stage]: [return false] at the first stage the
    state does not contain. *)
Fixpoint stage_loop (rule_stage state_stage : list string) : bool :=
  match rule_stage with
  | [] => true
  | s :: rest =>
      if negb (has_stage_loop s state_stage) then false
      else stage_loop rest state_stage
  end.

(** The loop over [rule.not_stage]: [return false] at the first stage
    the state contains. *)
Fixpoint not_stage_loop (rule_not_stage state_stage : list string) : bool :=
  match rule_not_stage with
  | [] => true
  | s :: rest =>
      if has_stage_loop s state_stage then false
      else not_stage_loop rest state_stage
  end.

Definition phase_differs (rule : NetStateRule) (state : NetState) : bool :=
  match NetStateRule.phase rule with
  | Some p => bool_decide (p ≠ NetState.phase state)
  | None => false
  end.

Definition below_min_level (rule : NetStateRule) (state : NetState) : bool :=
  match NetStateRule.min_level rule with
  | Some lo => (NetState.level state <? lo)%Z
  | None => false
  end.

Definition above_max_level (rule : NetStateRule) (state : NetState) : bool :=
  match NetStateRule.max_level rule with
  | Some hi => (NetState.level state >? hi)%Z
  | None => false
  end.

(** [layer_name] only feeds the log messages. *)
Definition StateMeetsRule (state : NetState) (rule : NetStateRule)
    (layer_name : string) : bool :=
  if phase_differs rule state then false
  else if below_min_level rule state then false
  else if above_max_level rule state then false
  else if negb (stage_loop (NetStateRule.stage rule) (NetState.stage state))
  then false
  else not_stage_loop (NetStateRule.not_stage rule) (NetState.stage state).

(** ** FilterNet (net.cpp 166-193) *)

(** [for (j = 0; layer_included && j < exclude_size(); ++j)
       if (StateMeetsRule(..exclude(j)..)) layer_included = false;] *)
Fixpoint exclude_loop (net_state : NetState) (layer_name : string)
    (rules : list NetStateRule) (layer_included : bool) : bool :=
  match rules with
  | [] => layer_included
  | r :: rest =>
      if layer_included
      then exclude_loop net_state layer_name rest
             (if StateMeetsRule net_state r layer_name then false
              else layer_included)
      else layer_included
  end.

(** [for (j = 0; !layer_included && j < include_size(); ++j)
       if (StateMeetsRule(..include(j)..)) layer_included = true;] *)
Fixpoint include_loop (net_state : NetState) (layer_name : string)
    (rules : list NetStateRule) (layer_included : bool) : bool :=
  match rules with
  | [] => layer_included
  | r :: rest =>
      if negb layer_included
      then include_loop net_state layer_name rest
             (if StateMeetsRule net_state r layer_name then true
              else layer_included)
      else layer_included
  end.

Definition layer_included (net_state : NetState) (layer_param : LayerParameter)
  : bool :=
  let layer_name := LayerParameter.name layer_param in
  let included0 := bool_decide (LayerParameter.include layer_param = []) in
  let included1 :=
    exclude_loop net_state layer_name (LayerParameter.exclude layer_param)
      included0 in
  include_loop net_state layer_name (LayerParameter.include layer_param)
    included1.

(** The body of the loop over [param.layer], on the rest of the layers
    and the description filtered so far. *)
Fixpoint FilterNet_loop (net_state : NetState) (layers : list LayerParameter)
    (param_filtered : NetParameter) : result NetParameter :=
  match layers with
  | [] => Ok param_filtered
  | layer_param :: rest =>
      if negb (bool_decide (LayerParameter.include layer_param = [])
               || bool_decide (LayerParameter.exclude layer_param = []))
      then Fatal (IncludeAndExclude (LayerParameter.name layer_param))
      else
        FilterNet_loop net_state rest
          (if layer_included net_state layer_param
           then NetParameter.add_layer layer_param param_filtered
           else param_filtered)
  end.

Definition FilterNet (param : NetParameter) : result NetParameter :=
  let net_state := NetParameter.state param in
  FilterNet_loop net_state (NetParameter.layer param)
    (NetParameter.clear_layer param).

(** The rule of the specification for one layer, in its words: no rules,
    active; exclusion rules, excluded when any of them is satisfied;
    inclusion rules, active only when any of them is satisfied. *)
Definition spec_active (net_state : NetState) (layer_param : LayerParameter)
  : Prop :=
  let satisfied r :=
    StateMeetsRule net_state r (LayerParameter.name layer_param) = true in
  match LayerParameter.include layer_param, LayerParameter.exclude layer_param with
  | [], [] => True
  | [], exclusion => ¬ Exists satisfied exclusion
  | inclusion, _ => Exists satisfied inclusion
  end.

#[global] Instance spec_active_dec net_state layer_param :
  Decision (spec_active net_state layer_param).
Proof.
  unfold spec_active.
  destruct (LayerParameter.include layer_param),
           (LayerParameter.exclude layer_param); apply _.
Defined.

Definition both_rule_lists (layer_param : LayerParameter) : Prop :=
  LayerParameter.include layer_param ≠ [] ∧
  LayerParameter.exclude layer_param ≠ [].

#[global] Instance both_rule_lists_dec layer_param :
  Decision (both_rule_lists layer_param).
Proof. unfold both_rule_lists. apply _. Defined.

(** ** Blob and Layer (blob.hpp, layer.hpp: not part of net.cpp) *)

Module Blob.
(** Modelled from the spec: the tensor buffer ("shape, raw storage, a
    count of elements") declared in caffe/blob.hpp, of which net.cpp
    only has the calls. *)
Record t := mk { shape_ : list Z; data_ : list Z }.

(** [new Blob]: no shape, no data. *)
Definition empty : t := {| shape_ := []; data_ := [] |}.

(** Modelled from the spec: the "shape equality check" of the tensor
    buffer, Blob::ShapeEquals of blob.cpp. *)
Definition ShapeEquals (b : t) (other : BlobProto) : bool :=
  bool_decide (shape_ b = BlobProto.shape other).

(** Modelled from the spec: "load-from-serialized-form (with an explicit
    reshape-or-not flag)", Blob::FromProto of blob.cpp: the raw data of
    the proto is copied; the shape is the proto's when [reshape] is set
    and stays as it is otherwise. *)
Definition FromProto (proto : BlobProto) (reshape : bool) (b : t) : t :=
  {| shape_ := if reshape then BlobProto.shape proto else shape_ b;
     data_ := BlobProto.data proto |}.
End Blob.
Abbreviation Blob := Blob.t.

#[global] Instance Blob_inhabited : Inhabited Blob := populate Blob.empty.

Module Layer.
(** What net.cpp reads of a layer: its [layer_param()] and its learnable
    [blobs()]. *)
Record t := mk { layer_param : LayerParameter; blobs : list Blob }.
(** [type()] is the tag the registry made the layer from. *)
Definition type (l : t) : string := LayerParameter.type (layer_param l).
Definition with_blobs (bs : list Blob) (l : t) : t :=
  {| layer_param := layer_param l; blobs := bs |}.
End Layer.
Abbreviation Layer := Layer.t.

#[global] Instance Layer_inhabited : Inhabited Layer :=
  populate (Layer.mk (LayerParameter.mk "" "" [] [] [] [] [] []) []).

(** The collaborators net.cpp calls and does not define.  [CreateLayer]
    stands for [LayerRegistry::CreateLayer] followed by the layer's
    [SetUp], which allocates its learnable blobs: net.cpp reads the layer
    only after [SetUp].  [InsertSplits] is util/insert_splits, and
    [ReadNetParamsFromTextFileOrDie] is util/upgrade_proto. *)
Class Collaborators := {
  CreateLayer : LayerParameter → Layer;
  InsertSplits : NetParameter → NetParameter;
  ReadNetParamsFromTextFileOrDie : string → result NetParameter }.

(** ** The net (caffe/net.hpp)

    [bottom_vecs_], [top_vecs_], [net_input_blobs_] and
    [net_output_blobs_] hold [Blob*] into [blobs_] and mirror the id
    vectors; a pointer into [blobs_] is the blob's index, so only the id
    vectors are kept.  [params_] shares the blobs of the layers: an entry
    is the pair (layer, index in the layer's blobs). *)

Module Net.
Record t := mk {
  name_ : string;
  layers_ : list Layer;
  layer_names_ : list string;
  layer_names_index_ : gmap string nat;
  blobs_ : list Blob;
  blob_names_ : list string;
  blob_names_index_ : gmap string nat;
  blob_life_time_ : list nat;
  bottom_id_vecs_ : list (list nat);
  top_id_vecs_ : list (list nat);
  param_id_vecs_ : list (list nat);
  params_ : list (nat * nat);
  param_display_names_ : list string;
  net_input_blob_indices_ : list nat;
  net_output_blob_indices_ : list nat }.

Definition empty : t :=
  mk "" [] [] ∅ [] [] ∅ [] [] [] [] [] [] [] [].

Definition with_name_ v n :=
  mk v (layers_ n) (layer_names_ n) (layer_names_index_ n) (blobs_ n)
    (blob_names_ n) (blob_names_index_ n) (blob_life_time_ n)
    (bottom_id_vecs_ n) (top_id_vecs_ n) (param_id_vecs_ n) (params_ n)
    (param_display_names_ n) (net_input_blob_indices_ n)
    (net_output_blob_indices_ n).
Definition with_layers_ v n :=
  mk (name_ n) v (layer_names_ n) (layer_names_index_ n) (blobs_ n)
    (blob_names_ n) (blob_names_index_ n) (blob_life_time_ n)
    (bottom_id_vecs_ n) (top_id_vecs_ n) (param_id_vecs_ n) (params_ n)
    (param_display_names_ n) (net_input_blob_indices_ n)
    (net_output_blob_indices_ n).
Definition with_layer_names_ v n :=
  mk (name_ n) (layers_ n) v (layer_names_index_ n) (blobs_ n)
    (blob_names_ n) (blob_names_index_ n) (blob_life_time_ n)
    (bottom_id_vecs_ n) (top_id_vecs_ n) (param_id_vecs_ n) (params_ n)
    (param_display_names_ n) (net_input_blob_indices_ n)
    (net_output_blob_indices_ n).
Definition with_layer_names_index_ v n :=
  mk (name_ n) (layers_ n) (layer_names_ n) v (blobs_ n)
    (blob_names_ n) (blob_names_index_ n) (blob_life_time_ n)
    (bottom_id_vecs_ n) (top_id_vecs_ n) (param_id_vecs_ n) (params_ n)
    (param_display_names_ n) (net_input_blob_indices_ n)
    (net_output_blob_indices_ n).
Definition with_blobs_ v n :=
  mk (name_ n) (layers_ n) (layer_names_ n) (layer_names_index_ n) v
    (blob_names_ n) (blob_names_index_ n) (blob_life_time_ n)
    (bottom_id_vecs_ n) (top_id_vecs_ n) (param_id_vecs_ n) (params_ n)
    (param_display_names_ n) (net_input_blob_indices_ n)
    (net_output_blob_indices_ n).
Definition with_blob_names_ v n :=
  mk (name_ n) (layers_ n) (layer_names_ n) (layer_names_index_ n) (blobs_ n)
    v (blob_names_index_ n) (blob_life_time_ n)
    (bottom_id_vecs_ n) (top_id_vecs_ n) (param_id_vecs_ n) (params_ n)
    (param_display_names_ n) (net_input_blob_indices_ n)
    (net_output_blob_indices_ n).
Definition with_blob_names_index_ v n :=
  mk (name_ n) (layers_ n) (layer_names_ n) (layer_names_index_ n) (blobs_ n)
    (blob_names_ n) v (blob_life_time_ n)
    (bottom_id_vecs_ n) (top_id_vecs_ n) (param_id_vecs_ n) (params_ n)
    (param_display_names_ n) (net_input_blob_indices_ n)
    (net_output_blob_indices_ n).
Definition with_blob_life_time_ v n :=
  mk (name_ n) (layers_ n) (layer_names_ n) (layer_names_index_ n) (blobs_ n)
    (blob_names_ n) (blob_names_index_ n) v
    (bottom_id_vecs_ n) (top_id_vecs_ n) (param_id_vecs_ n) (params_ n)
    (param_display_names_ n) (net_input_blob_indices_ n)
    (net_output_blob_indices_ n).
Definition with_bottom_id_vecs_ v n :=
  mk (name_ n) (layers_ n) (layer_names_ n) (layer_names_index_ n) (blobs_ n)
    (blob_names_ n) (blob_names_index_ n) (blob_life_time_ n)
    v (top_id_vecs_ n) (param_id_vecs_ n) (params_ n)
    (param_display_names_ n) (net_input_blob_indices_ n)
    (net_output_blob_indices_ n).
Definition with_top_id_vecs_ v n :=
  mk (name_ n) (layers_ n) (layer_names_ n) (layer_names_index_ n) (blobs_ n)
    (blob_names_ n) (blob_names_index_ n) (blob_life_time_ n)
    (bottom_id_vecs_ n) v (param_id_vecs_ n) (params_ n)
    (param_display_names_ n) (net_input_blob_indices_ n)
    (net_output_blob_indices_ n).
Definition with_param_id_vecs_ v n :=
  mk (name_ n) (layers_ n) (layer_names_ n) (layer_names_index_ n) (blobs_ n)
    (blob_names_ n) (blob_names_index_ n) (blob_life_time_ n)
    (bottom_id_vecs_ n) (top_id_vecs_ n) v (params_ n)
    (param_display_names_ n) (net_input_blob_indices_ n)
    (net_output_blob_indices_ n).
Definition with_params_ v n :=
  mk (name_ n) (layers_ n) (layer_names_ n) (layer_names_index_ n) (blobs_ n)
    (blob_names_ n) (blob_names_index_ n) (blob_life_time_ n)
    (bottom_id_vecs_ n) (top_id_vecs_ n) (param_id_vecs_ n) v
    (param_display_names_ n) (net_input_blob_indices_ n)
    (net_output_blob_indices_ n).
Definition with_param_display_names_ v n :=
  mk (name_ n) (layers_ n) (layer_names_ n) (layer_names_index_ n) (blobs_ n)
    (blob_names_ n) (blob_names_index_ n) (blob_life_time_ n)
    (bottom_id_vecs_ n) (top_id_vecs_ n) (param_id_vecs_ n) (params_ n)
    v (net_input_blob_indices_ n)
    (net_output_blob_indices_ n).
Definition with_net_input_blob_indices_ v n :=
  mk (name_ n) (layers_ n) (layer_names_ n) (layer_names_index_ n) (blobs_ n)
    (blob_names_ n) (blob_names_index_ n) (blob_life_time_ n)
    (bottom_id_vecs_ n) (top_id_vecs_ n) (param_id_vecs_ n) (params_ n)
    (param_display_names_ n) v
    (net_output_blob_indices_ n).
Definition with_net_output_blob_indices_ v n :=
  mk (name_ n) (layers_ n) (layer_names_ n) (layer_names_index_ n) (blobs_ n)
    (blob_names_ n) (blob_names_index_ n) (blob_life_time_ n)
    (bottom_id_vecs_ n) (top_id_vecs_ n) (param_id_vecs_ n) (params_ n)
    (param_display_names_ n) (net_input_blob_indices_ n)
    v.
End Net.
Abbreviation Net := Net.t.

(** [v[i].push_back(x)] on a vector of vectors. *)
Definition push_back_at (i x : nat) (v : list (list nat)) : list (list nat) :=
  alter (λ row, row ++ [x]) i v.

(** [m[k]] of [std::map]: a missing key is inserted with the value 0. *)
Definition map_subscript (m : gmap string nat) (k : string)
  : nat * gmap string nat :=
  match m !! k with
  | Some v => (v, m)
  | None => (0, <[k := 0]> m)
  end.

(** ** Wiring: AppendTop, AppendBottom, AppendParam (net.cpp 195-266)

    [Init] keeps [available_blobs] and [blob_name_to_idx] as locals and
    hands their addresses to the helpers; they travel with the net.  The
    helpers receive [param.layer(layer_id)] as [layer_param].

    A subscript past the end of a vector has no meaning in C++; stdpp's
    [alter] leaves the list alone there.  The invariant [wired] below
    shows that [Init] never does it: every id in [blob_name_to_idx] is
    the index of a blob (lemma [wired_id_in_range]). *)

Record wiring := Wiring {
  net : Net;
  available_blobs : gset string;
  blob_name_to_idx : gmap string nat }.

Definition top_blob_name (layer_param : LayerParameter) (top_id : nat) : string :=
  if bool_decide (top_id < length (LayerParameter.top layer_param))
  then LayerParameter.top layer_param !!! top_id
  else "(automatic)".

(** The test "we are doing in-place computation". *)
Definition in_place (layer_param : LayerParameter) (top_id : nat) : bool :=
  bool_decide (top_id < length (LayerParameter.bottom layer_param))
  && bool_decide (top_blob_name layer_param top_id
                  = LayerParameter.bottom layer_param !!! top_id).

Definition AppendTop (layer_param : LayerParameter) (layer_id top_id : nat)
    (w : wiring) : result wiring :=
  let blob_name := top_blob_name layer_param top_id in
  if in_place layer_param top_id then
    (* In-place computation *)
    let blob_id := (map_subscript (blob_name_to_idx w) blob_name).1 in
    Ok {| net :=
            Net.with_blob_life_time_
              (alter (λ t, t `max` (layer_id + 1)) blob_id
                 (Net.blob_life_time_ (net w)))
              (Net.with_top_id_vecs_
                 (push_back_at layer_id blob_id (Net.top_id_vecs_ (net w)))
                 (net w));
          available_blobs := {[blob_name]} ∪ available_blobs w;
          blob_name_to_idx := (map_subscript (blob_name_to_idx w) blob_name).2 |}
  else if bool_decide (is_Some (blob_name_to_idx w !! blob_name)) then
    Fatal (TopProducedByMultipleSources blob_name)
  else
    (* Normal output. *)
    let blob_id := length (Net.blobs_ (net w)) in
    Ok {| net :=
            Net.with_top_id_vecs_
              (push_back_at layer_id blob_id (Net.top_id_vecs_ (net w)))
              (Net.with_blob_life_time_
                 (Net.blob_life_time_ (net w) ++ [layer_id + 1])
                 (Net.with_blob_names_
                    (Net.blob_names_ (net w) ++ [blob_name])
                    (Net.with_blobs_ (Net.blobs_ (net w) ++ [Blob.empty])
                       (net w))));
          available_blobs := {[blob_name]} ∪ available_blobs w;
          blob_name_to_idx := <[blob_name := blob_id]> (blob_name_to_idx w) |}.

Definition AppendBottom (layer_param : LayerParameter)
    (layer_id bottom_id : nat) (w : wiring) : result wiring :=
  let blob_name := LayerParameter.bottom layer_param !!! bottom_id in
  if bool_decide (blob_name ∉ available_blobs w) then
    Fatal (UnknownBottomBlob blob_name (LayerParameter.name layer_param)
             bottom_id)
  else
    let blob_id := (map_subscript (blob_name_to_idx w) blob_name).1 in
    Ok {| net :=
            Net.with_blob_life_time_
              (alter (λ t, t `max` layer_id) blob_id
                 (Net.blob_life_time_ (net w)))
              (Net.with_bottom_id_vecs_
                 (push_back_at layer_id blob_id (Net.bottom_id_vecs_ (net w)))
                 (net w));
          available_blobs := available_blobs w ∖ {[blob_name]};
          blob_name_to_idx := (map_subscript (blob_name_to_idx w) blob_name).2 |}.

#[global] Instance ParamSpec_inhabited : Inhabited ParamSpec :=
  populate (ParamSpec.mk "").

#[global] Instance BlobProto_inhabited : Inhabited BlobProto :=
  populate (BlobProto.mk [] []).

Definition AppendParam (layer_id param_id : nat) (n : Net) : Net :=
  let layer_param := Layer.layer_param (Net.layers_ n !!! layer_id) in
  let param_size := length (LayerParameter.param layer_param) in
  let param_name :=
    if bool_decide (param_id < param_size)
    then ParamSpec.name (LayerParameter.param layer_param !!! param_id)
    else "" in
  let display_name :=
    if bool_decide (String.length param_name ≠ 0) then param_name
    else LayerParameter.name layer_param +:+ "_" +:+ pretty param_id in
  let net_param_id := length (Net.params_ n) in
  Net.with_param_id_vecs_
    (push_back_at layer_id net_param_id (Net.param_id_vecs_ n))
    (Net.with_params_ (Net.params_ n ++ [(layer_id, param_id)])
       (Net.with_param_display_names_
          (Net.param_display_names_ n ++ [display_name]) n)).

(** ** Init (net.cpp 28-98) *)

(** "Collect Input layer tops as Net inputs": after [AppendTop], the
    last blob is recorded when the layer's type is Input. *)
Definition collect_input (layer_param : LayerParameter) (n : Net) : Net :=
  if bool_decide (LayerParameter.type layer_param = "Input") then
    let blob_id := length (Net.blobs_ n) - 1 in
    Net.with_net_input_blob_indices_ (Net.net_input_blob_indices_ n ++ [blob_id]) n
  else n.

Definition Init_top (layer_param : LayerParameter) (layer_id top_id : nat)
    (w : wiring) : result wiring :=
  do w' <- AppendTop layer_param layer_id top_id w;
  Ok {| net := collect_input layer_param (net w');
        available_blobs := available_blobs w';
        blob_name_to_idx := blob_name_to_idx w' |}.

(** [layers_.push_back(CreateLayer(layer_param));
     layer_names_.push_back(layer_param.name());] *)
Definition push_layer `{Collaborators} (layer_param : LayerParameter)
    (w : wiring) : wiring :=
  {| net :=
       Net.with_layer_names_
         (Net.layer_names_ (net w) ++ [LayerParameter.name layer_param])
         (Net.with_layers_ (Net.layers_ (net w) ++ [CreateLayer layer_param])
            (net w));
     available_blobs := available_blobs w;
     blob_name_to_idx := blob_name_to_idx w |}.

Definition Init_params (layer_id : nat) (w : wiring) : wiring :=
  let num_param_blobs := length (Layer.blobs (Net.layers_ (net w) !!! layer_id)) in
  {| net := foldl (λ n param_id, AppendParam layer_id param_id n) (net w)
              (seq 0 num_param_blobs);
     available_blobs := available_blobs w;
     blob_name_to_idx := blob_name_to_idx w |}.

(** The body of the loop over the layers. *)
Definition Init_layer `{Collaborators} (layer_param : LayerParameter)
    (layer_id : nat) (w : wiring) : result wiring :=
  let w0 := push_layer layer_param w in
  do w1 <- for_each (AppendBottom layer_param layer_id)
             (seq 0 (length (LayerParameter.bottom layer_param))) w0;
  do w2 <- for_each (Init_top layer_param layer_id)
             (seq 0 (length (LayerParameter.top layer_param))) w1;
  Ok (Init_params layer_id w2).

(** The loop over the layers, from [layer_id] on. *)
Fixpoint Init_layers `{Collaborators} (layer_id : nat)
    (layers : list LayerParameter) (w : wiring) : result wiring :=
  match layers with
  | [] => Ok w
  | layer_param :: rest =>
      do w' <- Init_layer layer_param layer_id w;
      Init_layers (S layer_id) rest w'
  end.

(** [std::set<string>] iterates in the order of [std::string]'s [<]. *)
Definition set_in_order (s : gset string) : list string :=
  merge_sort (λ a b : string, Is_true (String.leb a b)) (elements s).

(** "All remaining blobs are considered output blobs." *)
Definition collect_outputs (w : wiring) : Net :=
  let ids :=
    (foldl (λ acc blob_name,
              let ix := map_subscript acc.2 blob_name in
              (acc.1 ++ [ix.1], ix.2))
       ([], blob_name_to_idx w)
       (set_in_order (available_blobs w))).1 in
  Net.with_net_output_blob_indices_
    (Net.net_output_blob_indices_ (net w) ++ ids) (net w).

(** "hold input data": the tops of layer 0 live as long as the net. *)
Definition hold_inputs (n : Net) : Net :=
  Net.with_blob_life_time_
    (foldl (λ life blob_id, <[blob_id := length (Net.layers_ n)]> life)
       (Net.blob_life_time_ n) (Net.top_id_vecs_ n !!! 0))
    n.

(** [for (id = 0; id < names.size(); ++id) index[names[id]] = id;] *)
Fixpoint index_names (id : nat) (names : list string) (index : gmap string nat)
  : gmap string nat :=
  match names with
  | [] => index
  | name :: rest => index_names (S id) rest (<[name := id]> index)
  end.

Definition build_indices (n : Net) : Net :=
  Net.with_layer_names_index_
    (index_names 0 (Net.layer_names_ n) (Net.layer_names_index_ n))
    (Net.with_blob_names_index_
       (index_names 0 (Net.blob_names_ n) (Net.blob_names_index_ n)) n).

(** The vectors [resize]d to the number of layers, and the name. *)
Definition Init_start (param : NetParameter) : wiring :=
  let n := length (NetParameter.layer param) in
  {| net :=
       Net.with_param_id_vecs_ (replicate n [])
         (Net.with_top_id_vecs_ (replicate n [])
            (Net.with_bottom_id_vecs_ (replicate n [])
               (Net.with_name_ (NetParameter.name param) Net.empty)));
     available_blobs := ∅;
     blob_name_to_idx := ∅ |}.

(** What follows the loop over the layers. *)
Definition Init_finish (w : wiring) : result Net :=
  match Net.layers_ (net w) with
  | [] => Fatal SubscriptOfEmptyVector
  | first_layer :: _ =>
      if bool_decide (Layer.type first_layer ≠ "Input")
      then Fatal FirstLayerIsNotInput
      else Ok (build_indices (hold_inputs (collect_outputs w)))
  end.

(** The wiring of a filtered description with its splits inserted. *)
Definition Init_wire `{Collaborators} (param : NetParameter) : result wiring :=
  Init_layers 0 (NetParameter.layer param) (Init_start param).

Definition Init `{Collaborators} (in_param : NetParameter) : result Net :=
  if bool_decide (NetState.phase (NetParameter.state in_param) ≠ TEST)
  then Fatal PhaseIsNotTest
  else
    do filtered_param <- FilterNet in_param;
    let param := InsertSplits filtered_param in
    do w <- Init_wire param;
    Init_finish w.


(** ** ForwardFromTo (net.cpp 281-305)

    The layers' [Forward] and the blobs' [Release] are calls into
    layer.hpp and blob.hpp: a forward pass is the sequence of these calls
    it makes.  The profiler scopes are left out. *)

Inductive call :=
| LayerForward (layer_id : nat)
| BlobRelease (blob_idx : nat).

#[global] Instance call_eq_dec : EqDecision call.
Proof. solve_decision. Defined.

(** Conversions of the integer types: [int] to [size_t] in the
    comparison of [CHECK_LT], [size_t] to [int] in the argument of
    [ForwardFrom]. *)
Definition to_size_t (z : Z) : Z := (z mod 2 ^ 64)%Z.
Definition to_int (z : Z) : Z := ((z + 2 ^ 31) mod 2 ^ 32 - 2 ^ 31)%Z.

(** "try to free bottom blobs" *)
Fixpoint release_loop (n : Net) (i : nat) (bottom_ids : list nat) : list call :=
  match bottom_ids with
  | [] => []
  | blob_idx :: rest =>
      if bool_decide (Net.blob_life_time_ n !!! blob_idx ≤ i)
      then BlobRelease blob_idx :: release_loop n i rest
      else release_loop n i rest
  end.

Fixpoint forward_loop (n : Net) (ids : list nat) : list call :=
  match ids with
  | [] => []
  | i :: rest =>
      LayerForward i :: release_loop n i (Net.bottom_id_vecs_ n !!! i)
        ++ forward_loop n rest
  end.

Definition ForwardFromTo (n : Net) (start end_ : Z) : result (list call) :=
  if bool_decide (start < 0)%Z then Fatal ForwardStartNegative
  else if bool_decide (¬ (to_size_t end_ < Z.of_nat (length (Net.layers_ n)))%Z)
  then Fatal ForwardEndPastLastLayer
  else Ok (forward_loop n
             (seq (Z.to_nat start) (Z.to_nat (end_ - start + 1)))).

Definition ForwardFrom (n : Net) (start : Z) : result (list call) :=
  ForwardFromTo n start
    (to_int (to_size_t (Z.of_nat (length (Net.layers_ n)) - 1))).

Definition ForwardTo (n : Net) (end_ : Z) : result (list call) :=
  ForwardFromTo n 0 end_.

(** ** MarkOutputs (net.cpp 348-357) *)

Fixpoint MarkOutputs (outs : list string) (n : Net) : result Net :=
  match outs with
  | [] => Ok n
  | name :: rest =>
      match Net.blob_names_index_ n !! name with
      | None => Fatal (BlobNotAvailable name)
      | Some blob_id =>
          MarkOutputs rest
            (Net.with_blob_life_time_
               (<[blob_id := length (Net.layers_ n)]> (Net.blob_life_time_ n)) n)
      end
  end.

(** ** CopyTrainedLayersFrom (net.cpp 313-346)

    The load writes into the blobs of the net as it goes, so a fatal
    error leaves the net as it was written so far: the result is the
    outcome together with that net. *)

Inductive outcome :=
| Completed
| Aborted (e : FatalError).

(** [while (target_layer_id != layer_names_.size() &&
            layer_names_[target_layer_id] != source_layer_name)
       ++target_layer_id;]
    on the names from [target_layer_id] on. *)
Fixpoint find_target_layer (names_from : list string)
    (source_layer_name : string) (target_layer_id : nat) : nat :=
  match names_from with
  | [] => target_layer_id
  | layer_name :: rest =>
      if negb (String.eqb layer_name source_layer_name)
      then find_target_layer rest source_layer_name (S target_layer_id)
      else target_layer_id
  end.

(** The loop over [j], on the indices still to do. *)
Fixpoint copy_blobs (source_layer : LayerParameter) (js : list nat)
    (target_blobs : list Blob) : outcome * list Blob :=
  match js with
  | [] => (Completed, target_blobs)
  | j :: rest =>
      let source_proto := LayerParameter.blobs source_layer !!! j in
      let target := target_blobs !!! j in
      if negb (Blob.ShapeEquals target source_proto) then
        let source_blob := Blob.FromProto source_proto true Blob.empty in
        (Aborted (ShapeMismatch j (LayerParameter.name source_layer)
                    (Blob.shape_ source_blob) (Blob.shape_ target)),
         target_blobs)
      else
        copy_blobs source_layer rest
          (<[j := Blob.FromProto source_proto false target]> target_blobs)
  end.

(** The body of the loop over the source layers. *)
Definition copy_layer (source_layer : LayerParameter) (n : Net)
  : outcome * Net :=
  let source_layer_name := LayerParameter.name source_layer in
  let target_layer_id :=
    find_target_layer (Net.layer_names_ n) source_layer_name 0 in
  if bool_decide (target_layer_id = length (Net.layer_names_ n)) then
    (Completed, n)
  else
    let target_layer := Net.layers_ n !!! target_layer_id in
    let target_blobs := Layer.blobs target_layer in
    if bool_decide (length target_blobs
                    ≠ length (LayerParameter.blobs source_layer))
    then (Aborted (IncompatibleNumberOfBlobs source_layer_name), n)
    else
      let copied :=
        copy_blobs source_layer (seq 0 (length target_blobs)) target_blobs in
      (copied.1,
       Net.with_layers_
         (<[target_layer_id := Layer.with_blobs copied.2 target_layer]>
            (Net.layers_ n)) n).

Fixpoint CopyTrainedLayersFrom_loop (source_layers : list LayerParameter)
    (n : Net) : outcome * Net :=
  match source_layers with
  | [] => (Completed, n)
  | source_layer :: rest =>
      match copy_layer source_layer n with
      | (Completed, n') => CopyTrainedLayersFrom_loop rest n'
      | (Aborted e, n') => (Aborted e, n')
      end
  end.

Definition CopyTrainedLayersFrom (n : Net) (param : NetParameter)
  : outcome * Net :=
  CopyTrainedLayersFrom_loop (NetParameter.layer param) n.

(** ** The name index (net.cpp 375-395)

    A [shared_ptr] into [blobs_] or [layers_] is the index of the
    element. *)

Definition has_blob (n : Net) (blob_name : string) : bool :=
  bool_decide (is_Some (Net.blob_names_index_ n !! blob_name)).

Definition blob_by_name (n : Net) (blob_name : string) : result nat :=
  if negb (has_blob n blob_name) then Fatal (UnknownBlobName blob_name)
  else Ok (default 0 (Net.blob_names_index_ n !! blob_name)).

Definition has_layer (n : Net) (layer_name : string) : bool :=
  bool_decide (is_Some (Net.layer_names_index_ n !! layer_name)).

Definition layer_by_name (n : Net) (layer_name : string) : result nat :=
  if negb (has_layer n layer_name) then Fatal (UnknownLayerName layer_name)
  else Ok (default 0 (Net.layer_names_index_ n !! layer_name)).

(** ** Notions used to state the properties *)

(** The output names a layer produces not in place: those that differ
    from the input name at the same position. *)
Fixpoint not_in_place (tops bottoms : list string) : list string :=
  match tops, bottoms with
  | [], _ => []
  | t :: ts, [] => t :: not_in_place ts []
  | t :: ts, b :: bs =>
      if decide (t = b) then not_in_place ts bs else t :: not_in_place ts bs
  end.

Definition produced_not_in_place (layers : list LayerParameter) : list string :=
  layers ≫= (λ lp, not_in_place (LayerParameter.top lp) (LayerParameter.bottom lp)).

(** The life-time table lets blob [blob_id] live up to index [t]. *)
Definition lives (life : list nat) (blob_id t : nat) : Prop :=
  ∃ t', life !! blob_id = Some t' ∧ t ≤ t'.

(** A row of blob ids stands for the given names, and each of its blobs
    lives up to [t]. *)
Definition row_ok (idx : gmap string nat) (life : list nat) (t : nat)
    (row : list nat) (names : list string) : Prop :=
  Forall2 (λ blob_id name, idx !! name = Some blob_id ∧ lives life blob_id t)
    row names.

(** Blob [blob_id] is an output of a layer before layer [i]. *)
Definition made_before (top_id_vecs : list (list nat)) (i blob_id : nat)
  : Prop :=
  ∃ k trow, k < i ∧ top_id_vecs !! k = Some trow ∧ blob_id ∈ trow.

(** A layer of which only the first [kb] inputs and [kt] outputs have
    been wired. *)
Definition partial_layer (lp : LayerParameter) (kb kt : nat) : LayerParameter :=
  {| LayerParameter.name := LayerParameter.name lp;
     LayerParameter.type := LayerParameter.type lp;
     LayerParameter.bottom := take kb (LayerParameter.bottom lp);
     LayerParameter.top := take kt (LayerParameter.top lp);
     LayerParameter.include := LayerParameter.include lp;
     LayerParameter.exclude := LayerParameter.exclude lp;
     LayerParameter.param := LayerParameter.param lp;
     LayerParameter.blobs := LayerParameter.blobs lp |}.

(** The invariant of the wiring loop: the state after the layers [ls]
    (the last of them possibly partial) out of [total] have been wired. *)
Record wired (total : nat) (ls : list LayerParameter) (w : wiring) : Prop := {
  wired_blobs :
    length (Net.blobs_ (net w)) = length (Net.blob_names_ (net w));
  wired_life :
    length (Net.blob_life_time_ (net w)) = length (Net.blob_names_ (net w));
  wired_idx : ∀ name id,
    blob_name_to_idx w !! name = Some id ↔
    Net.blob_names_ (net w) !! id = Some name;
  wired_avail : available_blobs w ⊆ dom (blob_name_to_idx w);
  wired_layers : length (Net.layers_ (net w)) = length ls;
  wired_layer_names : Net.layer_names_ (net w) = LayerParameter.name <$> ls;
  wired_total : length ls ≤ total;
  wired_bvecs : length (Net.bottom_id_vecs_ (net w)) = total;
  wired_tvecs : length (Net.top_id_vecs_ (net w)) = total;
  wired_names : Net.blob_names_ (net w) = produced_not_in_place ls;
  wired_rows : ∀ i lp, ls !! i = Some lp →
    ∃ brow trow,
      Net.bottom_id_vecs_ (net w) !! i = Some brow ∧
      Net.top_id_vecs_ (net w) !! i = Some trow ∧
      row_ok (blob_name_to_idx w) (Net.blob_life_time_ (net w)) i
        brow (LayerParameter.bottom lp) ∧
      row_ok (blob_name_to_idx w) (Net.blob_life_time_ (net w)) (i + 1)
        trow (LayerParameter.top lp) ∧
      Forall (made_before (Net.top_id_vecs_ (net w)) i) brow;
  wired_made : ∀ name id, blob_name_to_idx w !! name = Some id →
    made_before (Net.top_id_vecs_ (net w)) (length ls) id;
  wired_rest : ∀ i, length ls ≤ i → i < total →
    Net.bottom_id_vecs_ (net w) !! i = Some [] ∧
    Net.top_id_vecs_ (net w) !! i = Some [];
  wired_no_index :
    Net.blob_names_index_ (net w) = ∅ ∧ Net.layer_names_index_ (net w) = ∅ }.

(** Two nets that agree on everything the wiring invariant reads. *)
Definition same_wiring (n n' : Net) : Prop :=
  Net.layers_ n' = Net.layers_ n ∧
  Net.layer_names_ n' = Net.layer_names_ n ∧
  Net.blobs_ n' = Net.blobs_ n ∧
  Net.blob_names_ n' = Net.blob_names_ n ∧
  Net.blob_life_time_ n' = Net.blob_life_time_ n ∧
  Net.bottom_id_vecs_ n' = Net.bottom_id_vecs_ n ∧
  Net.top_id_vecs_ n' = Net.top_id_vecs_ n ∧
  Net.blob_names_index_ n' = Net.blob_names_index_ n ∧
  Net.layer_names_index_ n' = Net.layer_names_index_ n.

(** What holds of a net assembled from the layers [ls], also after
    outputs have been marked. *)
Record assembled (ls : list LayerParameter) (n : Net) : Prop := {
  asm_nonempty : ls ≠ [];
  asm_layers : length (Net.layers_ n) = length ls;
  asm_layer_names : Net.layer_names_ n = LayerParameter.name <$> ls;
  asm_bvecs : length (Net.bottom_id_vecs_ n) = length ls;
  asm_tvecs : length (Net.top_id_vecs_ n) = length ls;
  asm_blobs : length (Net.blobs_ n) = length (Net.blob_names_ n);
  asm_names : Net.blob_names_ n = produced_not_in_place ls;
  asm_nodup : NoDup (Net.blob_names_ n);
  asm_rows : ∀ i lp, ls !! i = Some lp →
    ∃ brow trow,
      Net.bottom_id_vecs_ n !! i = Some brow ∧
      Net.top_id_vecs_ n !! i = Some trow ∧
      Forall2 (λ blob_id name,
                 Net.blob_names_ n !! blob_id = Some name ∧
                 lives (Net.blob_life_time_ n) blob_id i ∧
                 made_before (Net.top_id_vecs_ n) i blob_id)
        brow (LayerParameter.bottom lp) ∧
      Forall2 (λ blob_id name,
                 Net.blob_names_ n !! blob_id = Some name ∧
                 lives (Net.blob_life_time_ n) blob_id (i + 1))
        trow (LayerParameter.top lp);
  asm_blob_index : ∀ name id,
    Net.blob_names_index_ n !! name = Some id ↔
    Net.blob_names_ n !! id = Some name;
  asm_layer_index : ∀ name,
    is_Some (Net.layer_names_index_ n !! name) ↔ name ∈ Net.layer_names_ n }.

(** A name that has been bound and then taken by a consumer: it is out
    of the available set and still in the name-to-id map. *)
Definition consumed (name : string) (w : wiring) : Prop :=
  (name ∉ available_blobs w) ∧ name ∈ dom (blob_name_to_idx w).

(** The blob counts of the layers of a net. *)
Definition blob_counts (n : Net) : list nat :=
  (λ l, length (Layer.blobs l)) <$> Net.layers_ n.

(** The blob the weight loader leaves in a target whose shape matched:
    the shape of the target, the data of the source. *)
Definition loaded (target : Blob) (source : BlobProto) : Blob :=
  {| Blob.shape_ := Blob.shape_ target; Blob.data_ := BlobProto.data source |}.

(** The target blobs after the first [j] pairs have been loaded. *)
Definition loaded_prefix (j : nat) (targets : list Blob)
    (sources : list BlobProto) : list Blob :=
  zip_with loaded (take j targets) (take j sources) ++ drop j targets.

(** ** Sample descriptions and nets *)

(** Collaborators for the samples: a layer's learnable blobs are those
    its description carries, no split is needed, a file holds the
    description named after it. *)
Definition plain_layer (lp : LayerParameter) : Layer :=
  {| Layer.layer_param := lp;
     Layer.blobs :=
       (λ p, Blob.FromProto p true Blob.empty) <$> LayerParameter.blobs lp |}.

Definition sample_layer (name type : string) (bottoms tops : list string)
    (blobs : list BlobProto) : LayerParameter :=
  {| LayerParameter.name := name; LayerParameter.type := type;
     LayerParameter.bottom := bottoms; LayerParameter.top := tops;
     LayerParameter.include := []; LayerParameter.exclude := [];
     LayerParameter.param := []; LayerParameter.blobs := blobs |}.

Definition sample_param (phase : Phase) (layers : list LayerParameter)
  : NetParameter :=
  {| NetParameter.name := "sample";
     NetParameter.state :=
       {| NetState.phase := phase; NetState.level := 0;
          NetState.stage := ["test"] |};
     NetParameter.layer := layers |}.

(** input -> conv (one weight blob) -> relu in place -> fc (two blobs) *)
Definition sample_layers : list LayerParameter :=
  [ sample_layer "in" "Input" [] ["data"] [];
    sample_layer "conv" "Convolution" ["data"] ["x"]
      [BlobProto.mk [2%Z] [0; 0]%Z];
    sample_layer "relu" "ReLU" ["x"] ["x"] [];
    sample_layer "fc" "InnerProduct" ["x"] ["out"]
      [BlobProto.mk [1%Z] [5%Z]; BlobProto.mk [1%Z] [6%Z]] ].

Definition plain : Collaborators :=
  {| CreateLayer := plain_layer;
     InsertSplits := λ p, p;
     ReadNetParamsFromTextFileOrDie :=
       λ file, Ok (sample_param TRAIN sample_layers) |}.

(** The value of a result that is known to be [Ok]. *)
Definition value_of {A} (default : A) (r : result A) : A :=
  match r with
  | Ok a => a
  | Fatal _ => default
  end.

Definition sample_net : Net :=
  value_of Net.empty (@Init plain (sample_param TEST sample_layers)).

(** The wiring after the first [k] of the given layers. *)
Definition wiring_after (k : nat) (layers : list LayerParameter) : wiring :=
  value_of (Init_start (sample_param TEST layers))
    (@Init_layers plain 0 (take k layers)
       (Init_start (sample_param TEST layers))).

(** Two consumers of "x" without a split between them. *)
Definition twice_consumed_layers : list LayerParameter :=
  [ sample_layer "in" "Input" [] ["x"] [];
    sample_layer "a" "ReLU" ["x"] ["y"] [];
    sample_layer "b" "ReLU" ["x"] ["z"] [] ].

(** Two producers of "x". *)
Definition twice_produced_layers : list LayerParameter :=
  [ sample_layer "in" "Input" [] ["x"] [];
    sample_layer "a" "ReLU" ["x"] ["y"] [];
    sample_layer "b" "ReLU" ["y"] ["x"] [] ].

(** A layer with an inclusion rule that asks for stage "train", one
    with an exclusion rule that asks for it, one with both lists. *)
Definition needs_train : NetStateRule :=
  {| NetStateRule.phase := None; NetStateRule.min_level := None;
     NetStateRule.max_level := None; NetStateRule.stage := ["train"];
     NetStateRule.not_stage := [] |}.

Definition forbids_train : NetStateRule :=
  {| NetStateRule.phase := Some TEST; NetStateRule.min_level := Some 0%Z;
     NetStateRule.max_level := None; NetStateRule.stage := [];
     NetStateRule.not_stage := ["train"] |}.

Definition ruled_layer (name : string) (inclusion exclusion : list NetStateRule)
  : LayerParameter :=
  {| LayerParameter.name := name; LayerParameter.type := "ReLU";
     LayerParameter.bottom := []; LayerParameter.top := [];
     LayerParameter.include := inclusion; LayerParameter.exclude := exclusion;
     LayerParameter.param := []; LayerParameter.blobs := [] |}.

Definition ruled_layers : list LayerParameter :=
  [ ruled_layer "plain" [] [];
    ruled_layer "only-train" [needs_train] [];
    ruled_layer "not-train" [forbids_train] [];
    ruled_layer "unless-train" [] [needs_train];
    ruled_layer "unless-test" [] [forbids_train] ].

(** Foreign weights: new data for "conv", and an "fc" with one blob
    where the target has two. *)
Definition foreign_param : NetParameter :=
  sample_param TEST
    [ sample_layer "conv" "Convolution" [] [] [BlobProto.mk [2%Z] [7; 8]%Z];
      sample_layer "fc" "InnerProduct" [] [] [BlobProto.mk [1%Z] [9%Z]] ].

(** Foreign weights that fit: an unknown layer, then "fc" with both
    blobs; and an "fc" whose second blob has another shape. *)
Definition fitting_fc : LayerParameter :=
  sample_layer "fc" "InnerProduct" [] []
    [BlobProto.mk [1%Z] [9%Z]; BlobProto.mk [1%Z] [10%Z]].

Definition misshapen_fc : LayerParameter :=
  sample_layer "fc" "InnerProduct" [] []
    [BlobProto.mk [1%Z] [9%Z]; BlobProto.mk [3%Z] [1; 2; 3]%Z].

Definition unknown_layer : LayerParameter :=
  sample_layer "elsewhere" "InnerProduct" [] [] [BlobProto.mk [1%Z] [4%Z]].

(** A net with two layers of the same name, the first with one blob
    and the second with two, and foreign weights for that name with one
    blob. *)
Definition twin_layers : list LayerParameter :=
  [ sample_layer "in" "Input" [] ["data"] [];
    sample_layer "fc" "InnerProduct" ["data"] ["y"] [BlobProto.mk [1%Z] [0%Z]];
    sample_layer "fc" "InnerProduct" ["y"] ["z"]
      [BlobProto.mk [1%Z] [0%Z]; BlobProto.mk [1%Z] [0%Z]] ].

Definition twin_net : Net :=
  value_of Net.empty (@Init plain (sample_param TEST twin_layers)).

Definition twin_foreign : NetParameter :=
  sample_param TEST
    [ sample_layer "fc" "InnerProduct" [] [] [BlobProto.mk [1%Z] [3%Z]] ].

(** ** Notions used by the further properties *)

(** The layers a sequence of calls runs, and the blobs it releases, in
    the order of the calls. *)
Definition layer_runs (calls : list call) : list nat :=
  omap (λ c, match c with LayerForward i => Some i | BlobRelease _ => None end)
    calls.

Definition releases (calls : list call) : list nat :=
  omap (λ c, match c with BlobRelease b => Some b | LayerForward _ => None end)
    calls.

(** The life time of blob [b] is past every layer that reads it. *)
Definition outlives_readers (bottom_id_vecs : list (list nat))
    (life : list nat) (b : nat) : Prop :=
  ∀ i row, bottom_id_vecs !! i = Some row → b ∈ row → lives life b (i + 1).

(** The life time of blob [b] is the index of a layer that reads it. *)
Definition ends_at_reader (bottom_id_vecs : list (list nat))
    (life : list nat) (b : nat) : Prop :=
  ∃ i row, bottom_id_vecs !! i = Some row ∧ b ∈ row ∧ life !! b = Some i.

(** A second invariant of the wiring loop, on the life times: a name
    that is available belongs to a blob that outlives its readers; a
    name that has been taken belongs to a blob whose life time is its
    last reader; the life times lie between 1 and [hi]; no layer reads a
    blob twice. *)
Record tracked (hi : nat) (w : wiring) : Prop := {
  tracked_available : ∀ name, name ∈ available_blobs w →
    ∃ b, blob_name_to_idx w !! name = Some b ∧
      outlives_readers (Net.bottom_id_vecs_ (net w))
        (Net.blob_life_time_ (net w)) b;
  tracked_taken : ∀ name b,
    blob_name_to_idx w !! name = Some b →
    name ∉ available_blobs w →
    ends_at_reader (Net.bottom_id_vecs_ (net w))
      (Net.blob_life_time_ (net w)) b;
  tracked_bound : ∀ b t,
    Net.blob_life_time_ (net w) !! b = Some t → 1 ≤ t ≤ hi;
  tracked_NoDup : ∀ i row,
    Net.bottom_id_vecs_ (net w) !! i = Some row → NoDup row;
  tracked_no_outputs : Net.net_output_blob_indices_ (net w) = [] }.

(** What holds of the life times of an assembled net, also after outputs
    have been marked. *)
Record settled (n : Net) : Prop := {
  settled_life : length (Net.blob_life_time_ n) = length (Net.blobs_ n);
  settled_bvecs : length (Net.bottom_id_vecs_ n) = length (Net.layers_ n);
  settled_bound : ∀ b t,
    Net.blob_life_time_ n !! b = Some t → 1 ≤ t ≤ length (Net.layers_ n);
  settled_inputs : ∀ b, b ∈ Net.top_id_vecs_ n !!! 0 →
    Net.blob_life_time_ n !! b = Some (length (Net.layers_ n));
  settled_outputs : ∀ b, b ∈ Net.net_output_blob_indices_ n →
    b < length (Net.blobs_ n) ∧
    outlives_readers (Net.bottom_id_vecs_ n) (Net.blob_life_time_ n) b;
  settled_others : ∀ b,
    b < length (Net.blobs_ n) →
    b ∉ Net.net_output_blob_indices_ n →
    Net.blob_life_time_ n !! b = Some (length (Net.layers_ n)) ∨
    ends_at_reader (Net.bottom_id_vecs_ n) (Net.blob_life_time_ n) b;
  settled_NoDup : ∀ i row, Net.bottom_id_vecs_ n !! i = Some row → NoDup row }.


(** What the weight load reads of a layer of the net and never writes:
    its description and the shapes of its blobs. *)
Definition layer_shapes (l : Layer) : LayerParameter * list (list Z) :=
  (Layer.layer_param l, Blob.shape_ <$> Layer.blobs l).

(** A foreign layer fits the net when the first layer of its name, if
    there is one, has blobs of the shapes of the foreign blobs. *)
Definition fits (n : Net) (source_layer : LayerParameter) : Prop :=
  ∀ t, Net.layer_names_ n !! t = Some (LayerParameter.name source_layer) →
       (∀ j, j < t →
          Net.layer_names_ n !! j ≠ Some (LayerParameter.name source_layer)) →
       Blob.shape_ <$> Layer.blobs (Net.layers_ n !!! t)
       = BlobProto.shape <$> LayerParameter.blobs source_layer.

(** The name [AppendParam] displays the parameter [param_id] of a layer
    under: the name its description gives it, or the name of the layer,
    an underscore and the number. *)
Definition param_display_name (layer_param : LayerParameter) (param_id : nat)
  : string :=
  let param_size := length (LayerParameter.param layer_param) in
  let param_name :=
    if bool_decide (param_id < param_size)
    then ParamSpec.name (LayerParameter.param layer_param !!! param_id)
    else "" in
  if bool_decide (String.length param_name ≠ 0) then param_name
  else LayerParameter.name layer_param +:+ "_" +:+ pretty param_id.

(** The parameter blobs of the layers, layer by layer, each as the pair
    of its layer and its place in the layer. *)
Definition param_refs (layers : list Layer) : list (nat * nat) :=
  mjoin (imap (λ i l, pair i <$> seq 0 (length (Layer.blobs l))) layers).

Definition param_names (layers : list Layer) : list string :=
  mjoin (imap (λ i l, param_display_name (Layer.layer_param l)
                        <$> seq 0 (length (Layer.blobs l))) layers).

(** The invariant of the wiring loop on the table of parameters, between
    two layers. *)
Record registered (total : nat) (n : Net) : Prop := {
  reg_params : Net.params_ n = param_refs (Net.layers_ n);
  reg_names : Net.param_display_names_ n = param_names (Net.layers_ n);
  reg_rows : ∀ i l, Net.layers_ n !! i = Some l →
    Net.param_id_vecs_ n !! i
    = Some (seq (length (param_refs (take i (Net.layers_ n))))
              (length (Layer.blobs l)));
  reg_rest : ∀ i, length (Net.layers_ n) ≤ i → i < total →
    Net.param_id_vecs_ n !! i = Some [] }.

(** Two nets with the same layers and the same table of parameters. *)
Definition same_params (n n' : Net) : Prop :=
  Net.name_ n' = Net.name_ n ∧
  Net.layers_ n' = Net.layers_ n ∧
  Net.params_ n' = Net.params_ n ∧
  Net.param_display_names_ n' = Net.param_display_names_ n ∧
  Net.param_id_vecs_ n' = Net.param_id_vecs_ n.

(** The outputs of the layers of type Input, layer by layer. *)
Definition input_tops (layers : list LayerParameter)
    (top_id_vecs : list (list nat)) : list nat :=
  mjoin (imap (λ i lp, if bool_decide (LayerParameter.type lp = "Input")
                       then top_id_vecs !!! i else []) layers).

(** The inputs recorded while layer [lp] is being wired. *)
Definition inputs_so_far (done : list LayerParameter) (lp : LayerParameter)
    (w : wiring) : Prop :=
  Net.net_input_blob_indices_ (net w)
  = input_tops done (Net.top_id_vecs_ (net w))
    ++ (if bool_decide (LayerParameter.type lp = "Input")
        then Net.top_id_vecs_ (net w) !!! length done else []).

(** A name is left over by the layers when some layer produces it and
    no later layer takes it as an input. *)
Definition left_over (layers : list LayerParameter) (name : string) : Prop :=
  ∃ i lp, layers !! i = Some lp ∧ name ∈ LayerParameter.top lp ∧
    ∀ j lp', i < j → layers !! j = Some lp' →
             name ∉ LayerParameter.bottom lp'.

(** The net of [sample_net] with the blob "x" marked as an output. *)
Definition marked_net : Net :=
  value_of Net.empty (MarkOutputs ["x"] sample_net).

(** Foreign weights for "fc" whose first blob has another shape than
    the target and whose second blob has the shape of the target. *)
Definition late_match_fc : LayerParameter :=
  sample_layer "fc" "InnerProduct" [] []
    [BlobProto.mk [3%Z] [1; 2; 3]%Z; BlobProto.mk [1%Z] [10%Z]].
(** * Properties *)

(** ** Rule evaluation *)

Lemma has_stage_loop_spec s state_stage :
  has_stage_loop s state_stage = true ↔ s ∈ state_stage.
Proof.
  induction state_stage as [|sj rest IH]; simpl.
  - split; [discriminate | by intros ?%elem_of_nil].
  - destruct (String.eqb_spec s sj) as [->|Hne].
    + split; [intros _; left | done].
    + rewrite IH. split; [by right|].
      by intros [?|?]%elem_of_cons.
Qed.

Lemma stage_loop_spec rule_stage state_stage :
  stage_loop rule_stage state_stage = true ↔
  ∀ s, s ∈ rule_stage → s ∈ state_stage.
Proof.
  induction rule_stage as [|s rest IH]; simpl.
  - split; [by intros _ ? ?%elem_of_nil | done].
  - destruct (has_stage_loop s state_stage) eqn:Hs; simpl.
    + apply has_stage_loop_spec in Hs. rewrite IH. split.
      * intros H x [->|?]%elem_of_cons; auto.
      * intros H x Hx. apply H. by right.
    + split; [discriminate|]. intros H.
      assert (s ∈ state_stage) as Hin by (apply H; left).
      apply has_stage_loop_spec in Hin. congruence.
Qed.

Lemma not_stage_loop_spec rule_not_stage state_stage :
  not_stage_loop rule_not_stage state_stage = true ↔
  ∀ s, s ∈ rule_not_stage → s ∉ state_stage.
Proof.
  induction rule_not_stage as [|s rest IH]; simpl.
  - split; [by intros _ ? ?%elem_of_nil | done].
  - destruct (has_stage_loop s state_stage) eqn:Hs.
    + apply has_stage_loop_spec in Hs.
      split; [discriminate|]. intros H. exfalso. apply (H s); [left | done].
    + rewrite IH. split.
      * intros H x [->|?]%elem_of_cons; [|by auto].
        rewrite <- has_stage_loop_spec. congruence.
      * intros H x Hx. apply H. by right.
Qed.

Lemma phase_differs_false rule state :
  phase_differs rule state = false ↔
  ∀ p, NetStateRule.phase rule = Some p → p = NetState.phase state.
Proof.
  unfold phase_differs. destruct (NetStateRule.phase rule) as [p|].
  - rewrite bool_decide_eq_false. split.
    + intros Hnn q [= <-].
      by destruct (decide (p = NetState.phase state)).
    + intros Hp Hne. by apply Hne, Hp.
  - split; [by intros _ ? [=] | done].
Qed.

Lemma below_min_level_false rule state :
  below_min_level rule state = false ↔
  ∀ lo, NetStateRule.min_level rule = Some lo → (lo ≤ NetState.level state)%Z.
Proof.
  unfold below_min_level. destruct (NetStateRule.min_level rule) as [lo|].
  - rewrite Z.ltb_ge. split; [by intros ? ? [= <-] | by intros Hlo; apply Hlo].
  - split; [by intros _ ? [=] | done].
Qed.

Lemma above_max_level_false rule state :
  above_max_level rule state = false ↔
  ∀ hi, NetStateRule.max_level rule = Some hi → (NetState.level state ≤ hi)%Z.
Proof.
  unfold above_max_level. destruct (NetStateRule.max_level rule) as [hi|].
  - rewrite Z.gtb_ltb, Z.ltb_ge.
    split; [by intros ? ? [= <-] | by intros Hhi; apply Hhi].
  - split; [by intros _ ? [=] | done].
Qed.

Lemma StateMeetsRule_true state rule layer_name :
  StateMeetsRule state rule layer_name = true ↔
    (∀ p, NetStateRule.phase rule = Some p → p = NetState.phase state) ∧
    (∀ lo, NetStateRule.min_level rule = Some lo → (lo ≤ NetState.level state)%Z) ∧
    (∀ hi, NetStateRule.max_level rule = Some hi → (NetState.level state ≤ hi)%Z) ∧
    (∀ s, s ∈ NetStateRule.stage rule → s ∈ NetState.stage state) ∧
    (∀ s, s ∈ NetStateRule.not_stage rule → s ∉ NetState.stage state).
Proof.
  rewrite <- phase_differs_false, <- below_min_level_false,
    <- above_max_level_false, <- stage_loop_spec, <- not_stage_loop_spec.
  unfold StateMeetsRule.
  destruct (phase_differs rule state), (below_min_level rule state),
    (above_max_level rule state), (stage_loop _ _); simpl;
    intuition discriminate.
Qed.

(** C5. The rule evaluator answers true exactly when the rule's phase,
    if given, is the state's phase; the state's level is at least the
    rule's min level and at most its max level, for each bound that is
    given; every stage the rule requires is among the state's stages;
    and no stage the rule forbids is among them. *)
Theorem StateMeetsRule_iff (state : NetState) (rule : NetStateRule)
    (layer_name : string) :
  StateMeetsRule state rule layer_name = true ↔
    (∀ p, NetStateRule.phase rule = Some p → p = NetState.phase state) ∧
    (∀ lo, NetStateRule.min_level rule = Some lo → (lo ≤ NetState.level state)%Z) ∧
    (∀ hi, NetStateRule.max_level rule = Some hi → (NetState.level state ≤ hi)%Z) ∧
    (∀ s, s ∈ NetStateRule.stage rule → s ∈ NetState.stage state) ∧
    (∀ s, s ∈ NetStateRule.not_stage rule → s ∉ NetState.stage state).
Proof. apply StateMeetsRule_true. Qed.

(** ** Filtering *)

Lemma exclude_loop_spec net_state layer_name rules included :
  exclude_loop net_state layer_name rules included = true ↔
  included = true ∧
  ¬ Exists (λ r, StateMeetsRule net_state r layer_name = true) rules.
Proof.
  revert included. induction rules as [|r rest IH]; intros included; simpl.
  - rewrite Exists_nil. tauto.
  - rewrite Exists_cons. destruct included; [|intuition discriminate].
    rewrite IH. destruct (StateMeetsRule net_state r layer_name);
      intuition discriminate.
Qed.

Lemma include_loop_spec net_state layer_name rules included :
  include_loop net_state layer_name rules included = true ↔
  included = true ∨
  Exists (λ r, StateMeetsRule net_state r layer_name = true) rules.
Proof.
  revert included. induction rules as [|r rest IH]; intros included; simpl.
  - rewrite Exists_nil. tauto.
  - rewrite Exists_cons. destruct included; simpl; [tauto|].
    rewrite IH. destruct (StateMeetsRule net_state r layer_name);
      intuition discriminate.
Qed.

Lemma layer_included_spec net_state layer_param :
  ¬ both_rule_lists layer_param →
  layer_included net_state layer_param = true ↔
  spec_active net_state layer_param.
Proof.
  unfold both_rule_lists, layer_included, spec_active. intros Hboth.
  rewrite include_loop_spec, exclude_loop_spec.
  destruct (LayerParameter.include layer_param) as [|ri inclusion],
           (LayerParameter.exclude layer_param) as [|re exclusion];
    rewrite ?bool_decide_eq_true; rewrite ?Exists_nil.
  - tauto.
  - intuition congruence.
  - intuition congruence.
  - exfalso. apply Hboth. done.
Qed.

Lemma FilterNet_loop_kept net_state layers param_filtered :
  Forall (λ lp, ¬ both_rule_lists lp) layers →
  FilterNet_loop net_state layers param_filtered =
  Ok {| NetParameter.name := NetParameter.name param_filtered;
        NetParameter.state := NetParameter.state param_filtered;
        NetParameter.layer :=
          NetParameter.layer param_filtered
            ++ filter (spec_active net_state) layers |}.
Proof.
  intros Hall. revert param_filtered.
  induction Hall as [|lp rest Hlp _ IH]; intros param_filtered; simpl.
  - rewrite app_nil_r. by destruct param_filtered.
  - assert (bool_decide (LayerParameter.include lp = [])
            || bool_decide (LayerParameter.exclude lp = []) = true) as ->.
    { unfold both_rule_lists in Hlp. apply orb_true_iff.
      rewrite !bool_decide_eq_true.
      destruct (decide (LayerParameter.include lp = [])); [by left|].
      destruct (decide (LayerParameter.exclude lp = [])); [by right|].
      tauto. }
    simpl. rewrite IH, filter_cons.
    destruct (layer_included net_state lp) eqn:Hinc.
    + apply (layer_included_spec _ _ Hlp) in Hinc.
      rewrite decide_True by done. simpl. by rewrite <- app_assoc.
    + rewrite decide_False; [done|].
      rewrite <- (layer_included_spec _ _ Hlp). congruence.
Qed.

Lemma FilterNet_loop_both net_state layers param_filtered :
  Exists both_rule_lists layers →
  ∃ lp, lp ∈ layers ∧ both_rule_lists lp ∧
    FilterNet_loop net_state layers param_filtered
    = Fatal (IncludeAndExclude (LayerParameter.name lp)).
Proof.
  revert param_filtered.
  induction layers as [|lp rest IH]; intros param_filtered Hex.
  - by apply Exists_nil in Hex.
  - simpl. destruct (decide (both_rule_lists lp)) as [Hlp|Hlp].
    + exists lp. split; [left|]. split; [done|].
      destruct Hlp as [Hi He].
      by rewrite !bool_decide_eq_false_2.
    + assert (bool_decide (LayerParameter.include lp = [])
              || bool_decide (LayerParameter.exclude lp = []) = true) as ->.
      { unfold both_rule_lists in Hlp. apply orb_true_iff.
        rewrite !bool_decide_eq_true.
        destruct (decide (LayerParameter.include lp = [])); [by left|].
        destruct (decide (LayerParameter.exclude lp = [])); [by right|].
        tauto. }
      simpl. apply Exists_cons in Hex as [?|Hex]; [done|].
      destruct (IH (if layer_included net_state lp
                    then NetParameter.add_layer lp param_filtered
                    else param_filtered) Hex) as (lp' & Hin & Hb & Heq).
      exists lp'. split; [by right|]. done.
Qed.

(** C6. Filtering fails with the configuration error when some layer has
    both inclusion and exclusion rules.  Otherwise it returns the
    description with exactly the active layers, in their original order:
    a layer without rules is active, a layer with exclusion rules is
    active unless some exclusion rule is satisfied, a layer with
    inclusion rules is active when some inclusion rule is satisfied. *)
Theorem FilterNet_spec (param : NetParameter) :
  (Exists both_rule_lists (NetParameter.layer param) →
   ∃ lp, lp ∈ NetParameter.layer param ∧ both_rule_lists lp ∧
     FilterNet param = Fatal (IncludeAndExclude (LayerParameter.name lp)) ∧
     error_class (IncludeAndExclude (LayerParameter.name lp))
     = ConfigurationError) ∧
  (¬ Exists both_rule_lists (NetParameter.layer param) →
   FilterNet param =
   Ok {| NetParameter.name := NetParameter.name param;
         NetParameter.state := NetParameter.state param;
         NetParameter.layer :=
           filter (spec_active (NetParameter.state param))
             (NetParameter.layer param) |}).
Proof.
  unfold FilterNet. split.
  - intros Hex.
    destruct (FilterNet_loop_both (NetParameter.state param) _
                (NetParameter.clear_layer param) Hex) as (lp & ? & ? & ?).
    by exists lp.
  - intros Hnone. rewrite FilterNet_loop_kept; [done|].
    by apply not_Exists_Forall; [apply _|].
Qed.

(** ** Loops and the propagation of fatal errors *)

Lemma for_each_app {St} (body : nat → St → result St) ids1 ids2 s :
  for_each body (ids1 ++ ids2) s
  = bind (for_each body ids1 s) (for_each body ids2).
Proof.
  revert s. induction ids1 as [|i ids1 IH]; intros s; simpl; [done|].
  destruct (body i s); simpl; [apply IH | done].
Qed.

(** A loop that passes its first [k] rounds and fails in round [k]
    fails with the error of that round. *)
Lemma for_each_fails_at {St} (body : nat → St → result St) n k s s' e :
  k < n →
  for_each body (seq 0 k) s = Ok s' →
  body k s' = Fatal e →
  for_each body (seq 0 n) s = Fatal e.
Proof.
  intros Hk Hpre Hfail.
  replace n with (k + S (n - S k)) by lia.
  rewrite seq_app, for_each_app, Hpre. simpl. by rewrite Hfail.
Qed.

Section wiring_failures.
Context {collaborators : Collaborators}.

Lemma Init_layers_app layer_id ls1 ls2 w :
  Init_layers layer_id (ls1 ++ ls2) w
  = bind (Init_layers layer_id ls1 w) (Init_layers (layer_id + length ls1) ls2).
Proof.
  revert layer_id w. induction ls1 as [|lp ls1 IH]; intros layer_id w; simpl.
  - by rewrite Nat.add_0_r.
  - destruct (Init_layer lp layer_id w); simpl; [|done].
    rewrite IH. by replace (S layer_id + length ls1)
                     with (layer_id + S (length ls1)) by lia.
Qed.

(** A fatal error in the wiring of one layer is the result of [Init]. *)
Lemma Init_fails_in_layer in_param filtered pre lp post w e :
  NetState.phase (NetParameter.state in_param) = TEST →
  FilterNet in_param = Ok filtered →
  NetParameter.layer (InsertSplits filtered) = pre ++ lp :: post →
  Init_layers 0 pre (Init_start (InsertSplits filtered)) = Ok w →
  Init_layer lp (length pre) w = Fatal e →
  Init in_param = Fatal e.
Proof.
  intros Hphase Hfilter Hlayers Hpre Hfail. unfold Init.
  rewrite bool_decide_eq_false_2 by (intros Hne; by apply Hne).
  rewrite Hfilter. simpl. unfold Init_wire.
  rewrite Hlayers, Init_layers_app, Hpre. simpl. by rewrite Hfail.
Qed.

Lemma AppendBottom_unknown lp layer_id bottom_id w name :
  LayerParameter.bottom lp !! bottom_id = Some name →
  name ∉ available_blobs w →
  AppendBottom lp layer_id bottom_id w
  = Fatal (UnknownBottomBlob name (LayerParameter.name lp) bottom_id).
Proof.
  intros Hname Hna. unfold AppendBottom.
  rewrite (list_lookup_total_correct _ _ _ Hname).
  by rewrite bool_decide_eq_true_2.
Qed.

Lemma top_blob_name_lookup lp top_id name :
  LayerParameter.top lp !! top_id = Some name →
  top_blob_name lp top_id = name.
Proof.
  intros Hname. unfold top_blob_name.
  rewrite bool_decide_eq_true_2 by (by eapply lookup_lt_Some).
  by apply list_lookup_total_correct.
Qed.

Lemma in_place_iff lp top_id name :
  LayerParameter.top lp !! top_id = Some name →
  in_place lp top_id = true ↔ LayerParameter.bottom lp !! top_id = Some name.
Proof.
  intros Hname. unfold in_place.
  rewrite (top_blob_name_lookup _ _ _ Hname), andb_true_iff,
    !bool_decide_eq_true.
  split.
  - intros [Hlt ->]. apply list_lookup_lookup_total_lt. lia.
  - intros Hb. split; [by eapply lookup_lt_Some|].
    by rewrite (list_lookup_total_correct _ _ _ Hb).
Qed.

Lemma AppendTop_duplicate lp layer_id top_id w name :
  LayerParameter.top lp !! top_id = Some name →
  LayerParameter.bottom lp !! top_id ≠ Some name →
  name ∈ dom (blob_name_to_idx w) →
  AppendTop lp layer_id top_id w = Fatal (TopProducedByMultipleSources name).
Proof.
  intros Hname Hnot Hdom. unfold AppendTop.
  destruct (in_place lp top_id) eqn:Hin.
  - by apply (in_place_iff _ _ _ Hname) in Hin.
  - rewrite (top_blob_name_lookup _ _ _ Hname).
    rewrite bool_decide_eq_true_2; [done|]. by apply elem_of_dom.
Qed.

(** C7. Assembly fails with the unknown-bottom-blob error when the
    wiring reaches an input name that is not in the available set at
    that moment, and with the produced-by-multiple-sources error when it
    reaches an output name that is not in place and is already in the
    name-to-id map; both are graph errors. *)
Theorem Init_rejects_unknown_and_duplicate in_param filtered pre lp post w :
  NetState.phase (NetParameter.state in_param) = TEST →
  FilterNet in_param = Ok filtered →
  NetParameter.layer (InsertSplits filtered) = pre ++ lp :: post →
  Init_layers 0 pre (Init_start (InsertSplits filtered)) = Ok w →
  (∀ bottom_id name w1,
     for_each (AppendBottom lp (length pre)) (seq 0 bottom_id)
       (push_layer lp w) = Ok w1 →
     LayerParameter.bottom lp !! bottom_id = Some name →
     name ∉ available_blobs w1 →
     Init in_param
     = Fatal (UnknownBottomBlob name (LayerParameter.name lp) bottom_id) ∧
     error_class (UnknownBottomBlob name (LayerParameter.name lp) bottom_id)
     = GraphError) ∧
  (∀ top_id name w1 w2,
     for_each (AppendBottom lp (length pre))
       (seq 0 (length (LayerParameter.bottom lp))) (push_layer lp w) = Ok w1 →
     for_each (Init_top lp (length pre)) (seq 0 top_id) w1 = Ok w2 →
     LayerParameter.top lp !! top_id = Some name →
     LayerParameter.bottom lp !! top_id ≠ Some name →
     name ∈ dom (blob_name_to_idx w2) →
     Init in_param = Fatal (TopProducedByMultipleSources name) ∧
     error_class (TopProducedByMultipleSources name) = GraphError).
Proof.
  intros Hphase Hfilter Hlayers Hpre. split.
  - intros bottom_id name w1 Hloop Hname Hna. split; [|done].
    eapply Init_fails_in_layer; [done..|].
    unfold Init_layer.
    erewrite for_each_fails_at;
      [done | by eapply lookup_lt_Some | done
      | by apply AppendBottom_unknown].
  - intros top_id name w1 w2 Hbottoms Hloop Hname Hnot Hdom. split; [|done].
    eapply Init_fails_in_layer; [done..|].
    unfold Init_layer. rewrite Hbottoms. simpl.
    erewrite for_each_fails_at;
      [done | by eapply lookup_lt_Some | done |].
    unfold Init_top. by erewrite AppendTop_duplicate.
Qed.

End wiring_failures.

(** ** Consumption of names *)

Lemma for_each_invariant {St} (P : St → Prop) (body : nat → St → result St)
    ids s s' :
  (∀ i s s', i ∈ ids → P s → body i s = Ok s' → P s') →
  P s → for_each body ids s = Ok s' → P s'.
Proof.
  revert s. induction ids as [|i ids IH]; intros s Hstep Hs; simpl.
  - by intros [= <-].
  - destruct (body i s) as [s1|] eqn:Hbody; simpl; [|done].
    apply IH.
    + intros j ? ? Hj. apply Hstep. by right.
    + eapply Hstep; [left | done..].
Qed.

Lemma map_subscript_dom m k : k ∈ dom (map_subscript m k).2.
Proof.
  unfold map_subscript. destruct (m !! k) eqn:Hk; simpl.
  - apply elem_of_dom. eauto.
  - rewrite dom_insert_L. set_solver.
Qed.

Lemma map_subscript_grows m k : dom m ⊆ dom (map_subscript m k).2.
Proof.
  unfold map_subscript. destruct (m !! k); simpl; [done|].
  rewrite dom_insert_L. set_solver.
Qed.

Lemma AppendBottom_inv lp layer_id bottom_id w w' :
  AppendBottom lp layer_id bottom_id w = Ok w' →
  LayerParameter.bottom lp !!! bottom_id ∈ available_blobs w ∧
  available_blobs w'
  = available_blobs w ∖ {[LayerParameter.bottom lp !!! bottom_id]} ∧
  blob_name_to_idx w'
  = (map_subscript (blob_name_to_idx w)
       (LayerParameter.bottom lp !!! bottom_id)).2.
Proof.
  unfold AppendBottom. case_bool_decide as Hav; [done|].
  intros [= <-]. simpl. split; [|done].
  destruct (decide (LayerParameter.bottom lp !!! bottom_id ∈ available_blobs w));
    [done | by exfalso].
Qed.

Lemma AppendTop_inv lp layer_id top_id w w' :
  AppendTop lp layer_id top_id w = Ok w' →
  available_blobs w' = {[top_blob_name lp top_id]} ∪ available_blobs w ∧
  dom (blob_name_to_idx w) ⊆ dom (blob_name_to_idx w').
Proof.
  unfold AppendTop. destruct (in_place lp top_id).
  - intros [= <-]. simpl. split; [done|]. apply map_subscript_grows.
  - case_bool_decide; [done|]. intros [= <-]. simpl. split; [done|].
    rewrite dom_insert_L. set_solver.
Qed.

Lemma AppendBottom_consumes lp layer_id bottom_id w w' :
  AppendBottom lp layer_id bottom_id w = Ok w' →
  consumed (LayerParameter.bottom lp !!! bottom_id) w'.
Proof.
  intros Hstep. apply AppendBottom_inv in Hstep as (_ & Hav & Hidx).
  unfold consumed.
  rewrite Hav, Hidx. split; [set_solver | apply map_subscript_dom].
Qed.

Lemma AppendBottom_keeps_consumed name lp layer_id bottom_id w w' :
  consumed name w →
  AppendBottom lp layer_id bottom_id w = Ok w' →
  consumed name w'.
Proof.
  intros [Hna Hdom] Hstep. apply AppendBottom_inv in Hstep as (_ & Hav & Hidx).
  unfold consumed.
  rewrite Hav, Hidx. split; [set_solver|].
  by apply map_subscript_grows.
Qed.

Lemma Init_top_keeps_consumed name lp layer_id top_id w w' :
  consumed name w →
  top_blob_name lp top_id ≠ name →
  Init_top lp layer_id top_id w = Ok w' →
  consumed name w'.
Proof.
  intros [Hna Hdom] Hne. unfold Init_top.
  destruct (AppendTop lp layer_id top_id w) as [w1|] eqn:Htop; [|done].
  simpl. intros [= <-]. apply AppendTop_inv in Htop as [Hav Hidx].
  unfold consumed. simpl. rewrite Hav. split; [set_solver|].
  by apply Hidx.
Qed.

(** In-place production always succeeds and makes the name available. *)
Lemma AppendTop_in_place_available lp layer_id top_id w :
  in_place lp top_id = true →
  ∃ w', AppendTop lp layer_id top_id w = Ok w' ∧
    top_blob_name lp top_id ∈ available_blobs w'.
Proof.
  intros Hin. unfold AppendTop. rewrite Hin.
  eexists. split; [done|]. simpl. set_solver.
Qed.

Lemma Init_params_keeps_consumed name layer_id w :
  consumed name w → consumed name (Init_params layer_id w).
Proof. done. Qed.

Section consumption.
Context {collaborators : Collaborators}.

Lemma bottoms_keep_consumed name lp layer_id ids w w' :
  consumed name w →
  for_each (AppendBottom lp layer_id) ids w = Ok w' →
  consumed name w'.
Proof.
  intros Hc. apply (for_each_invariant (consumed name)); [|done].
  intros i s s' _. apply AppendBottom_keeps_consumed.
Qed.

Lemma tops_keep_consumed name lp layer_id w w' :
  name ∉ LayerParameter.top lp →
  consumed name w →
  for_each (Init_top lp layer_id) (seq 0 (length (LayerParameter.top lp))) w
  = Ok w' →
  consumed name w'.
Proof.
  intros Hnot Hc. apply (for_each_invariant (consumed name)); [|done].
  intros i s s' Hi Hs. apply Init_top_keeps_consumed; [done|].
  apply elem_of_seq in Hi as [_ Hi]. simpl in Hi.
  destruct (lookup_lt_is_Some_2 (LayerParameter.top lp) i Hi) as [t Ht].
  rewrite (top_blob_name_lookup _ _ _ Ht).
  intros ->. apply Hnot. by eapply list_elem_of_lookup_2.
Qed.

Lemma Init_layer_inv lp layer_id w w' :
  Init_layer lp layer_id w = Ok w' →
  ∃ w1 w2,
    for_each (AppendBottom lp layer_id)
      (seq 0 (length (LayerParameter.bottom lp))) (push_layer lp w) = Ok w1 ∧
    for_each (Init_top lp layer_id)
      (seq 0 (length (LayerParameter.top lp))) w1 = Ok w2 ∧
    w' = Init_params layer_id w2.
Proof.
  unfold Init_layer.
  destruct (for_each (AppendBottom lp layer_id) _ _) as [w1|] eqn:Hb; [|done].
  simpl.
  destruct (for_each (Init_top lp layer_id) _ w1) as [w2|] eqn:Ht; [|done].
  simpl. intros [= <-]. by exists w1, w2.
Qed.

Lemma Init_layer_keeps_consumed name lp layer_id w w' :
  name ∉ LayerParameter.top lp →
  consumed name w →
  Init_layer lp layer_id w = Ok w' →
  consumed name w'.
Proof.
  intros Hnot Hc Hl. apply Init_layer_inv in Hl as (w1 & w2 & Hb & Ht & ->).
  apply Init_params_keeps_consumed.
  eapply tops_keep_consumed; [done| |done].
  eapply bottoms_keep_consumed; [|done]. done.
Qed.

Lemma Init_layer_consumes name lp layer_id w w' :
  name ∈ LayerParameter.bottom lp →
  name ∉ LayerParameter.top lp →
  Init_layer lp layer_id w = Ok w' →
  consumed name w'.
Proof.
  intros Hin Hnot Hl. apply list_elem_of_lookup_1 in Hin as [k Hk].
  apply Init_layer_inv in Hl as (w1 & w2 & Hb & Ht & ->).
  apply Init_params_keeps_consumed.
  eapply tops_keep_consumed; [done| |done].
  assert (k < length (LayerParameter.bottom lp)) as Hlt
    by (by eapply lookup_lt_Some).
  replace (length (LayerParameter.bottom lp))
    with (k + S (length (LayerParameter.bottom lp) - S k)) in Hb by lia.
  rewrite seq_app, for_each_app in Hb. simpl in Hb.
  destruct (for_each (AppendBottom lp layer_id) (seq 0 k) _) as [wa|];
    [|done].
  simpl in Hb.
  destruct (AppendBottom lp layer_id k wa) as [wb|] eqn:Hstep; [|done].
  simpl in Hb. eapply bottoms_keep_consumed; [|done].
  apply AppendBottom_consumes in Hstep.
  by rewrite (list_lookup_total_correct _ _ _ Hk) in Hstep.
Qed.

Lemma Init_layers_keep_consumed name ls layer_id w w' :
  (∀ lp, lp ∈ ls → name ∉ LayerParameter.top lp) →
  consumed name w →
  Init_layers layer_id ls w = Ok w' →
  consumed name w'.
Proof.
  revert layer_id w. induction ls as [|lp ls IH]; intros layer_id w Hnot Hc.
  - by intros [= <-].
  - simpl. destruct (Init_layer lp layer_id w) as [w1|] eqn:Hl; [|done].
    simpl. apply IH.
    + intros ? ?. apply Hnot. by right.
    + eapply Init_layer_keeps_consumed; [|done..]. apply Hnot. left.
Qed.

(** C10. Taking a name as an input removes it from the available set
    and leaves it in the name-to-id map; producing it in place puts it
    back; and when a layer has taken a name and no layer after it has
    produced the name, the next layer that asks for it makes assembly
    fail with the unknown-bottom-blob error, although the map still
    holds the name. *)
Theorem name_consumed_once :
  (∀ lp layer_id bottom_id name w w',
     LayerParameter.bottom lp !! bottom_id = Some name →
     AppendBottom lp layer_id bottom_id w = Ok w' →
     (name ∉ available_blobs w') ∧ name ∈ dom (blob_name_to_idx w')) ∧
  (∀ lp layer_id top_id name w,
     LayerParameter.top lp !! top_id = Some name →
     LayerParameter.bottom lp !! top_id = Some name →
     ∃ w', AppendTop lp layer_id top_id w = Ok w' ∧
       name ∈ available_blobs w') ∧
  (∀ in_param filtered pre lp1 mid lp2 post w bottom_id name w2,
     NetState.phase (NetParameter.state in_param) = TEST →
     FilterNet in_param = Ok filtered →
     NetParameter.layer (InsertSplits filtered)
     = pre ++ lp1 :: mid ++ lp2 :: post →
     name ∈ LayerParameter.bottom lp1 →
     name ∉ LayerParameter.top lp1 →
     (∀ lp, lp ∈ mid → name ∉ LayerParameter.top lp) →
     Init_layers 0 (pre ++ lp1 :: mid) (Init_start (InsertSplits filtered))
     = Ok w →
     for_each (AppendBottom lp2 (length (pre ++ lp1 :: mid))) (seq 0 bottom_id)
       (push_layer lp2 w) = Ok w2 →
     LayerParameter.bottom lp2 !! bottom_id = Some name →
     name ∈ dom (blob_name_to_idx w2) ∧
     Init in_param
     = Fatal (UnknownBottomBlob name (LayerParameter.name lp2) bottom_id) ∧
     error_class (UnknownBottomBlob name (LayerParameter.name lp2) bottom_id)
     = GraphError).
Proof.
  split; [|split].
  - intros lp layer_id bottom_id name w w' Hname Hstep.
    apply AppendBottom_consumes in Hstep.
    by rewrite (list_lookup_total_correct _ _ _ Hname) in Hstep.
  - intros lp layer_id top_id name w Htop Hbottom.
    destruct (AppendTop_in_place_available lp layer_id top_id w)
      as (w' & Hstep & Hav).
    { by apply (in_place_iff _ _ _ Htop). }
    exists w'. by rewrite (top_blob_name_lookup _ _ _ Htop) in Hav.
  - intros in_param filtered pre lp1 mid lp2 post w bottom_id name w2
      Hphase Hfilter Hlayers Hin Hnot Hmid Hpre Hloop Hname.
    assert (consumed name w2) as [Hna Hdom].
    { eapply bottoms_keep_consumed; [|done].
      rewrite Init_layers_app in Hpre.
      destruct (Init_layers 0 pre _) as [w0|]; [|done]. simpl in Hpre.
      destruct (Init_layer lp1 (length pre) w0) as [wa|] eqn:Hl1;
        simpl in Hpre; [|done].
      assert (consumed name w) as Hc.
      { eapply Init_layers_keep_consumed; [done| |done].
        by eapply Init_layer_consumes. }
      exact Hc. }
    split; [done|]. split; [|done].
    eapply (Init_fails_in_layer _ _ (pre ++ lp1 :: mid) lp2 post);
      [done | done | by rewrite Hlayers, <- app_assoc | done |].
    unfold Init_layer.
    erewrite for_each_fails_at;
      [done | by eapply lookup_lt_Some | done
      | by apply AppendBottom_unknown].
Qed.

End consumption.

(** ** The phase of the net state *)


(** ** Loading trained weights *)

Lemma find_target_layer_absent names name start :
  name ∉ names →
  find_target_layer names name start = start + length names.
Proof.
  revert start. induction names as [|n names IH]; intros start Hnot; simpl.
  - lia.
  - destruct (String.eqb_spec n name) as [->|Hne]; simpl.
    + exfalso. apply Hnot. left.
    + rewrite IH; [lia|]. intros ?. apply Hnot. by right.
Qed.

Lemma find_target_layer_first names name start t :
  names !! t = Some name →
  (∀ j, j < t → names !! j ≠ Some name) →
  find_target_layer names name start = start + t.
Proof.
  revert start t. induction names as [|n names IH]; intros start t Ht Hfirst.
  - done.
  - simpl. destruct t as [|t]; simpl in Ht.
    + injection Ht as ->. rewrite String.eqb_refl. simpl. lia.
    + destruct (String.eqb_spec n name) as [->|Hne]; simpl.
      * exfalso. by apply (Hfirst 0); [lia|].
      * rewrite (IH (S start) t); [lia | done |].
        intros j Hj. apply (Hfirst (S j)). lia.
Qed.

Lemma find_target_layer_range names name start :
  find_target_layer names name start ≤ start + length names ∧
  (find_target_layer names name start < start + length names →
   names !! (find_target_layer names name start - start) = Some name).
Proof.
  revert start. induction names as [|n names IH]; intros start; simpl.
  - lia.
  - destruct (String.eqb_spec n name) as [->|Hne]; simpl.
    + split; [lia|]. intros _. by rewrite Nat.sub_diag.
    + destruct (IH (S start)) as [Hle Hlookup]. split; [lia|].
      intros Hlt.
      assert (start < find_target_layer names name (S start)) as Hgt.
      { clear. revert start. induction names as [|m names IHn]; intros start;
          simpl; [lia|].
        destruct (negb (m =? name)%string); [|lia].
        specialize (IHn (S start)). lia. }
      replace (find_target_layer names name (S start) - start)
        with (S (find_target_layer names name (S start) - S start)) by lia.
      simpl. apply Hlookup. lia.
Qed.

Lemma copy_blobs_length source_layer js target_blobs :
  length (copy_blobs source_layer js target_blobs).2 = length target_blobs.
Proof.
  revert target_blobs. induction js as [|j js IH]; intros target_blobs; simpl.
  - done.
  - destruct (Blob.ShapeEquals _ _); simpl; [|done].
    by rewrite IH, length_insert.
Qed.

(** When every pair has equal shapes, the loop over [js] completes and
    leaves, at each index of [js], the target's shape with the source's
    data. *)
Lemma copy_blobs_completed source_layer js target_blobs :
  (∀ j, j ∈ js →
     Blob.ShapeEquals (target_blobs !!! j)
       (LayerParameter.blobs source_layer !!! j) = true) →
  (copy_blobs source_layer js target_blobs).1 = Completed ∧
  ∀ j, (copy_blobs source_layer js target_blobs).2 !! j
       = if decide (j ∈ js)
         then (λ target, loaded target (LayerParameter.blobs source_layer !!! j))
                <$> target_blobs !! j
         else target_blobs !! j.
Proof.
  revert target_blobs. induction js as [|j js IH]; intros target_blobs Heq.
  - split; [done|]. intros j. case_decide as Hj; [|done].
    by apply elem_of_nil in Hj.
  - simpl. rewrite Heq by left. simpl.
    set (target_blobs' :=
           <[j := Blob.FromProto (LayerParameter.blobs source_layer !!! j)
                    false (target_blobs !!! j)]> target_blobs).
    assert (∀ i, Blob.shape_ (target_blobs' !!! i)
                 = Blob.shape_ (target_blobs !!! i)) as Hshape.
    { intros i. unfold target_blobs'.
      destruct (decide (i = j)) as [->|Hne];
        [|by rewrite list_lookup_total_insert_ne].
      destruct (decide (j < length target_blobs)) as [Hlt|Hge].
      - by rewrite list_lookup_total_insert_eq.
      - by rewrite list_insert_ge by lia. }
    destruct (IH target_blobs') as [Hdone Hlookup].
    { intros i Hi. unfold Blob.ShapeEquals. rewrite Hshape.
      apply Heq. by right. }
    split; [done|]. intros i. rewrite Hlookup.
    destruct (decide (i = j)) as [->|Hne].
    + rewrite (decide_True (P := j ∈ j :: js)) by left.
      unfold target_blobs'.
      destruct (decide (j < length target_blobs)) as [Hlt|Hge].
      * rewrite list_lookup_insert_eq by done.
        rewrite (list_lookup_lookup_total_lt target_blobs j Hlt). simpl.
        by case_decide.
      * rewrite list_insert_ge by lia.
        rewrite (lookup_ge_None_2 target_blobs j) by lia. by case_decide.
    + unfold target_blobs'. rewrite list_lookup_insert_ne by done.
      destruct (decide (i ∈ js)) as [Hi|Hi].
      * by rewrite decide_True by (by right).
      * by rewrite decide_False by (by intros [?|?]%elem_of_cons).
Qed.

Lemma copy_blobs_all source_layer target_blobs :
  Forall2 (λ target source, Blob.shape_ target = BlobProto.shape source)
    target_blobs (LayerParameter.blobs source_layer) →
  copy_blobs source_layer (seq 0 (length target_blobs)) target_blobs
  = (Completed,
     zip_with loaded target_blobs (LayerParameter.blobs source_layer)).
Proof.
  intros Hall.
  destruct (copy_blobs_completed source_layer (seq 0 (length target_blobs))
              target_blobs) as [Hdone Hlookup].
  { intros j [_ Hj]%elem_of_seq. simpl in Hj.
    destruct (lookup_lt_is_Some_2 _ _ Hj) as [target Ht].
    destruct (Forall2_lookup_l _ _ _ _ _ Hall Ht) as (source & Hs & Heq).
    rewrite (list_lookup_total_correct _ _ _ Ht),
      (list_lookup_total_correct _ _ _ Hs).
    unfold Blob.ShapeEquals. by apply bool_decide_eq_true. }
  destruct (copy_blobs _ _ _) as [o copied]. simpl in *. subst o. f_equal.
  apply list_eq. intros j. rewrite Hlookup, lookup_zip_with.
  destruct (target_blobs !! j) as [target|] eqn:Ht; simpl.
  - destruct (Forall2_lookup_l _ _ _ _ _ Hall Ht) as (source & Hs & _).
    rewrite Hs. simpl.
    rewrite decide_True
      by (apply elem_of_seq; simpl; split; [lia | by eapply lookup_lt_Some]).
    by rewrite (list_lookup_total_correct _ _ _ Hs).
  - by case_decide.
Qed.

Lemma copy_blobs_app source_layer js1 js2 target_blobs :
  copy_blobs source_layer (js1 ++ js2) target_blobs
  = match copy_blobs source_layer js1 target_blobs with
    | (Completed, blobs) => copy_blobs source_layer js2 blobs
    | (Aborted e, blobs) => (Aborted e, blobs)
    end.
Proof.
  revert target_blobs. induction js1 as [|j js1 IH]; intros target_blobs;
    simpl; [done|].
  destruct (Blob.ShapeEquals _ _); simpl; [apply IH | done].
Qed.

(** As long as the pairs agree in shape, the loop loads them. *)
Lemma copy_blobs_prefix source_layer j target_blobs :
  j ≤ length target_blobs →
  j ≤ length (LayerParameter.blobs source_layer) →
  (∀ i target source, i < j →
     target_blobs !! i = Some target →
     LayerParameter.blobs source_layer !! i = Some source →
     Blob.shape_ target = BlobProto.shape source) →
  copy_blobs source_layer (seq 0 j) target_blobs
  = (Completed,
     loaded_prefix j target_blobs (LayerParameter.blobs source_layer)).
Proof.
  intros Hjt Hjs Hagree.
  destruct (copy_blobs_completed source_layer (seq 0 j) target_blobs)
    as [Hdone Hlookup].
  { intros i [_ Hi]%elem_of_seq. simpl in Hi.
    destruct (lookup_lt_is_Some_2 target_blobs i) as [target Ht]; [lia|].
    destruct (lookup_lt_is_Some_2 (LayerParameter.blobs source_layer) i)
      as [source Hs]; [lia|].
    rewrite (list_lookup_total_correct _ _ _ Ht),
      (list_lookup_total_correct _ _ _ Hs).
    unfold Blob.ShapeEquals. apply bool_decide_eq_true. by eapply Hagree. }
  destruct (copy_blobs _ _ _) as [o copied]. simpl in *. subst o. f_equal.
  apply list_eq. intros i. rewrite Hlookup. unfold loaded_prefix.
  assert (length (zip_with loaded (take j target_blobs)
                    (take j (LayerParameter.blobs source_layer))) = j) as Hlen.
  { rewrite length_zip_with, !length_take. lia. }
  destruct (decide (i < j)) as [Hi|Hi].
  - rewrite decide_True by (apply elem_of_seq; simpl; lia).
    rewrite lookup_app_l by lia.
    rewrite lookup_zip_with, !lookup_take_lt by done.
    destruct (lookup_lt_is_Some_2 (LayerParameter.blobs source_layer) i)
      as [source Hs]; [lia|].
    rewrite Hs, (list_lookup_total_correct _ _ _ Hs).
    by destruct (target_blobs !! i).
  - rewrite decide_False by (rewrite elem_of_seq; simpl; lia).
    rewrite lookup_app_r by lia. rewrite Hlen, lookup_drop.
    f_equal. lia.
Qed.

(** The loop stops at the first pair whose shapes differ, with the
    error that carries the index, the layer name and both shapes; the
    pairs before it have been loaded. *)
Lemma copy_blobs_mismatch source_layer n j target_blobs target source :
  j < n →
  target_blobs !! j = Some target →
  LayerParameter.blobs source_layer !! j = Some source →
  Blob.shape_ target ≠ BlobProto.shape source →
  (∀ i target' source', i < j →
     target_blobs !! i = Some target' →
     LayerParameter.blobs source_layer !! i = Some source' →
     Blob.shape_ target' = BlobProto.shape source') →
  copy_blobs source_layer (seq 0 n) target_blobs
  = (Aborted (ShapeMismatch j (LayerParameter.name source_layer)
                (BlobProto.shape source) (Blob.shape_ target)),
     loaded_prefix j target_blobs (LayerParameter.blobs source_layer)).
Proof.
  intros Hjn Ht Hs Hne Hbefore.
  replace n with (j + S (n - S j)) by lia.
  rewrite seq_app, copy_blobs_app.
  rewrite copy_blobs_prefix;
    [| apply lookup_lt_Some in Ht; lia | apply lookup_lt_Some in Hs; lia
     | done].
  simpl.
  assert (loaded_prefix j target_blobs (LayerParameter.blobs source_layer) !! j
          = Some target) as Hj.
  { unfold loaded_prefix.
    assert (length (zip_with loaded (take j target_blobs)
                      (take j (LayerParameter.blobs source_layer))) = j)
      as Hlen.
    { apply lookup_lt_Some in Ht, Hs.
      rewrite length_zip_with, !length_take. lia. }
    rewrite lookup_app_r by lia.
    rewrite Hlen, lookup_drop. by replace (j + (j - j)) with j by lia. }
  rewrite (list_lookup_total_correct _ _ _ Hj),
    (list_lookup_total_correct _ _ _ Hs).
  unfold Blob.ShapeEquals. by rewrite bool_decide_eq_false_2.
Qed.

(** Before any pair whose shapes differ there is a first one. *)
Lemma first_mismatch (targets : list Blob) (sources : list BlobProto)
    j target source :
  targets !! j = Some target →
  sources !! j = Some source →
  Blob.shape_ target ≠ BlobProto.shape source →
  ∃ j0 target0 source0,
    j0 ≤ j ∧
    targets !! j0 = Some target0 ∧
    sources !! j0 = Some source0 ∧
    Blob.shape_ target0 ≠ BlobProto.shape source0 ∧
    ∀ i target' source', i < j0 →
      targets !! i = Some target' →
      sources !! i = Some source' →
      Blob.shape_ target' = BlobProto.shape source'.
Proof.
  revert target source.
  induction j as [j IH] using lt_wf_ind. intros target source Ht Hs Hne.
  destruct (decide (Exists (λ i, Blob.shape_ (targets !!! i)
                                 ≠ BlobProto.shape (sources !!! i))
                      (seq 0 j))) as [Hex|Hnone].
  - apply Exists_exists in Hex as (i & [_ Hi]%elem_of_seq & Hdiff).
    simpl in Hi.
    destruct (lookup_lt_is_Some_2 targets i) as [ti Hti];
      [apply lookup_lt_Some in Ht; lia|].
    destruct (lookup_lt_is_Some_2 sources i) as [si Hsi];
      [apply lookup_lt_Some in Hs; lia|].
    rewrite (list_lookup_total_correct _ _ _ Hti),
      (list_lookup_total_correct _ _ _ Hsi) in Hdiff.
    destruct (IH i Hi ti si Hti Hsi Hdiff)
      as (j0 & t0 & s0 & ? & ? & ? & ? & ?).
    exists j0, t0, s0. split; [lia|]. done.
  - exists j, target, source. split; [done|]. split; [done|].
    split; [done|]. split; [done|].
    intros i target' source' Hi Ht' Hs'.
    destruct (decide (Blob.shape_ target' = BlobProto.shape source'))
      as [|Hdiff]; [done|].
    exfalso. apply Hnone. apply Exists_exists. exists i.
    split; [apply elem_of_seq; simpl; lia|].
    by rewrite (list_lookup_total_correct _ _ _ Ht'),
      (list_lookup_total_correct _ _ _ Hs').
Qed.

Lemma copy_blobs_error source_layer js target_blobs e :
  (copy_blobs source_layer js target_blobs).1 = Aborted e →
  error_class e = WeightMismatchError.
Proof.
  revert target_blobs. induction js as [|j js IH]; intros target_blobs; simpl.
  - done.
  - destruct (Blob.ShapeEquals _ _); simpl; [apply IH|]. by intros [= <-].
Qed.

Lemma copy_layer_unmatched source_layer n :
  LayerParameter.name source_layer ∉ Net.layer_names_ n →
  copy_layer source_layer n = (Completed, n).
Proof.
  intros Hnot. unfold copy_layer.
  rewrite find_target_layer_absent by done.
  by rewrite bool_decide_eq_true_2.
Qed.

(** What [copy_layer] does once the source layer is matched to the
    first layer of its name and the blob counts agree. *)
Lemma copy_layer_matched source_layer n t target :
  Net.layer_names_ n !! t = Some (LayerParameter.name source_layer) →
  (∀ j, j < t →
     Net.layer_names_ n !! j ≠ Some (LayerParameter.name source_layer)) →
  Net.layers_ n !! t = Some target →
  length (Layer.blobs target) = length (LayerParameter.blobs source_layer) →
  copy_layer source_layer n
  = let copied :=
      copy_blobs source_layer (seq 0 (length (Layer.blobs target)))
        (Layer.blobs target) in
    (copied.1,
     Net.with_layers_
       (<[t := Layer.with_blobs copied.2 target]> (Net.layers_ n)) n).
Proof.
  intros Hname Hfirst Htarget Hcount. unfold copy_layer.
  rewrite (find_target_layer_first _ _ 0 t Hname Hfirst). simpl.
  rewrite bool_decide_eq_false_2
    by (apply lookup_lt_Some in Hname; lia).
  rewrite (list_lookup_total_correct _ _ _ Htarget).
  by rewrite bool_decide_eq_false_2 by (intros Hne; by apply Hne).
Qed.

Lemma copy_layer_count_mismatch source_layer n t :
  Net.layer_names_ n !! t = Some (LayerParameter.name source_layer) →
  (∀ j, j < t →
     Net.layer_names_ n !! j ≠ Some (LayerParameter.name source_layer)) →
  length (Layer.blobs (Net.layers_ n !!! t))
  ≠ length (LayerParameter.blobs source_layer) →
  copy_layer source_layer n
  = (Aborted (IncompatibleNumberOfBlobs (LayerParameter.name source_layer)), n).
Proof.
  intros Hname Hfirst Hcount. unfold copy_layer.
  rewrite (find_target_layer_first _ _ 0 t Hname Hfirst). simpl.
  rewrite bool_decide_eq_false_2
    by (apply lookup_lt_Some in Hname; lia).
  by rewrite bool_decide_eq_true_2.
Qed.

Lemma copy_layer_names source_layer n :
  Net.layer_names_ (copy_layer source_layer n).2 = Net.layer_names_ n.
Proof. unfold copy_layer. by repeat case_bool_decide. Qed.

Lemma copy_layer_error source_layer n e :
  (copy_layer source_layer n).1 = Aborted e →
  error_class e = WeightMismatchError.
Proof.
  unfold copy_layer. repeat case_bool_decide; simpl; [done | | ].
  - by intros [= <-].
  - apply copy_blobs_error.
Qed.

Lemma copy_layer_counts source_layer n :
  blob_counts (copy_layer source_layer n).2 = blob_counts n.
Proof.
  unfold copy_layer. repeat case_bool_decide; simpl; [done..|].
  unfold blob_counts. simpl. rewrite list_fmap_insert. simpl.
  rewrite copy_blobs_length.
  set (t := find_target_layer _ _ _).
  destruct (decide (t < length (Net.layers_ n))) as [Hlt|Hge].
  - apply list_insert_id. rewrite list_lookup_fmap.
    by rewrite (list_lookup_lookup_total_lt _ _ Hlt).
  - apply list_insert_ge. rewrite length_fmap. lia.
Qed.

(** A layer whose name is not the source layer's is left as it is. *)
Lemma copy_layer_frame source_layer n i name :
  Net.layer_names_ n !! i = Some name →
  name ≠ LayerParameter.name source_layer →
  Net.layers_ (copy_layer source_layer n).2 !! i = Net.layers_ n !! i.
Proof.
  intros Hi Hne. unfold copy_layer. repeat case_bool_decide; simpl; [done..|].
  apply list_lookup_insert_ne. intros <-.
  destruct (find_target_layer_range (Net.layer_names_ n)
              (LayerParameter.name source_layer) 0) as [Hle Hlookup].
  simpl in *. rewrite Nat.sub_0_r in Hlookup.
  rewrite Hlookup in Hi by lia. congruence.
Qed.

Lemma CopyTrainedLayersFrom_loop_app sources1 sources2 n :
  CopyTrainedLayersFrom_loop (sources1 ++ sources2) n
  = match CopyTrainedLayersFrom_loop sources1 n with
    | (Completed, n') => CopyTrainedLayersFrom_loop sources2 n'
    | (Aborted e, n') => (Aborted e, n')
    end.
Proof.
  revert n. induction sources1 as [|s sources1 IH]; intros n; simpl; [done|].
  destruct (copy_layer s n) as [[|e] n']; [apply IH | done].
Qed.

(** The load keeps the layer names and the blob counts, stops only
    with a weight-mismatch error, and leaves alone every layer whose
    name is not among the source layers it went through. *)
Lemma CopyTrainedLayersFrom_loop_frame sources n :
  Net.layer_names_ (CopyTrainedLayersFrom_loop sources n).2
  = Net.layer_names_ n ∧
  blob_counts (CopyTrainedLayersFrom_loop sources n).2 = blob_counts n ∧
  (∀ e, (CopyTrainedLayersFrom_loop sources n).1 = Aborted e →
        error_class e = WeightMismatchError) ∧
  (∀ i name,
     Net.layer_names_ n !! i = Some name →
     name ∉ LayerParameter.name <$> sources →
     Net.layers_ (CopyTrainedLayersFrom_loop sources n).2 !! i
     = Net.layers_ n !! i).
Proof.
  revert n. induction sources as [|s sources IH]; intros n; simpl; [done|].
  pose proof (copy_layer_names s n) as Hnames.
  pose proof (copy_layer_counts s n) as Hcounts.
  pose proof (copy_layer_error s n) as Herror.
  pose proof (copy_layer_frame s n) as Hframe.
  destruct (copy_layer s n) as [[|e] n']; simpl in *.
  - destruct (IH n') as (IHn & IHc & IHe & IHf).
    split; [congruence|]. split; [congruence|]. split; [done|].
    intros i name Hi Hnot. rewrite (IHf i name).
    + eapply Hframe; [done|]. intros ->. apply Hnot. left.
    + by rewrite Hnames.
    + intros ?. apply Hnot. by right.
  - split; [done|]. split; [done|]. split; [by intros ? [= <-]; apply Herror|].
    intros i name Hi Hnot. eapply Hframe; [done|].
    intros ->. apply Hnot. left.
Qed.

Lemma blob_counts_lookup_total n1 n2 t :
  blob_counts n1 = blob_counts n2 →
  length (Layer.blobs (Net.layers_ n1 !!! t))
  = length (Layer.blobs (Net.layers_ n2 !!! t)).
Proof.
  intros Heq.
  assert (blob_counts n1 !! t = blob_counts n2 !! t) as Ht by (by rewrite Heq).
  unfold blob_counts in Ht. rewrite !list_lookup_fmap in Ht.
  rewrite !list_lookup_total_alt.
  destruct (Net.layers_ n1 !! t), (Net.layers_ n2 !! t); simpl in *;
    congruence.
Qed.

Lemma loaded_prefix_lookup j targets sources i target source :
  targets !! i = Some target →
  sources !! i = Some source →
  loaded_prefix j targets sources !! i
  = Some (if decide (i < j) then loaded target source else target).
Proof.
  revert j sources i.
  induction targets as [|t targets IH]; intros j sources i Ht Hs; [done|].
  destruct sources as [|s sources]; [done|].
  destruct j as [|j].
  - destruct (decide (i < 0)) as [?|_]; [lia|]. by unfold loaded_prefix.
  - change (loaded_prefix (S j) (t :: targets) (s :: sources))
      with (loaded t s :: loaded_prefix j targets sources).
    destruct i as [|i].
    + injection Ht as ->. injection Hs as ->.
      destruct (decide (0 < S j)) as [_|?]; [done|lia].
    + change ((loaded t s :: loaded_prefix j targets sources) !! S i)
        with (loaded_prefix j targets sources !! i).
      rewrite (IH j sources i Ht Hs).
      destruct (decide (i < j)), (decide (S i < S j)); (done || lia).
Qed.

Lemma zip_with_loaded_lookup targets sources i target source :
  targets !! i = Some target →
  sources !! i = Some source →
  zip_with loaded targets sources !! i = Some (loaded target source).
Proof.
  intros Ht Hs. apply lookup_zip_with_Some. by exists target, source.
Qed.

Lemma CopyTrainedLayersFrom_loop_one source_layer n :
  CopyTrainedLayersFrom_loop [source_layer] n = copy_layer source_layer n.
Proof. simpl. by destruct (copy_layer source_layer n) as [[|e] n']. Qed.

(** C8, as the code has it.  When the load reaches a foreign layer (the
    foreign layers before it have loaded without error): if no layer of
    the net has its name, the layer is skipped without error and the
    net is as it was.  If it is matched (to the first layer of its name,
    with the same number of blobs), then either all pairs of blobs agree
    in shape, and every blob of the target layer gets the data of its
    source and keeps its shape; or the load stops at the first pair
    whose shapes differ, with the error that names the layer and carries
    the shape of the source and of the target of that pair: the pairs
    before it have been copied, that pair and all pairs after it, also
    those whose shapes agree, are as they were, and no blob has changed
    its shape.  In both cases no other layer is written.  A load of more
    layers goes on from the net the layer leaves, or stops where the
    layer stopped. *)
Theorem CopyTrainedLayersFrom_layer (n n1 : Net) (before param : NetParameter)
    (source_layer : LayerParameter) :
  NetParameter.layer param = NetParameter.layer before ++ [source_layer] →
  CopyTrainedLayersFrom n before = (Completed, n1) →
  (LayerParameter.name source_layer ∉ Net.layer_names_ n1 →
   CopyTrainedLayersFrom n param = (Completed, n1)) ∧
  (∀ t target,
     Net.layer_names_ n1 !! t = Some (LayerParameter.name source_layer) →
     (∀ j, j < t →
        Net.layer_names_ n1 !! j ≠ Some (LayerParameter.name source_layer)) →
     Net.layers_ n1 !! t = Some target →
     length (Layer.blobs target) = length (LayerParameter.blobs source_layer) →
     (∀ j target_blob source_blob,
        Layer.blobs target !! j = Some target_blob →
        LayerParameter.blobs source_layer !! j = Some source_blob →
        Blob.shape_ target_blob ≠ BlobProto.shape source_blob →
        ∃ j0 target0 source0 n' written,
          j0 ≤ j ∧
          Layer.blobs target !! j0 = Some target0 ∧
          LayerParameter.blobs source_layer !! j0 = Some source0 ∧
          Blob.shape_ target0 ≠ BlobProto.shape source0 ∧
          CopyTrainedLayersFrom n param
          = (Aborted (ShapeMismatch j0 (LayerParameter.name source_layer)
                        (BlobProto.shape source0) (Blob.shape_ target0)),
             n') ∧
          Net.layers_ n' !! t = Some written ∧
          (∀ i target_i source_i,
             Layer.blobs target !! i = Some target_i →
             LayerParameter.blobs source_layer !! i = Some source_i →
             ∃ blob,
               Layer.blobs written !! i = Some blob ∧
               Blob.shape_ blob = Blob.shape_ target_i ∧
               Blob.data_ blob
               = if decide (i < j0) then BlobProto.data source_i
                 else Blob.data_ target_i) ∧
          (∀ i, i ≠ t → Net.layers_ n' !! i = Net.layers_ n1 !! i)) ∧
     (Forall2 (λ target_blob source_blob,
                 Blob.shape_ target_blob = BlobProto.shape source_blob)
        (Layer.blobs target) (LayerParameter.blobs source_layer) →
      ∃ n2 written,
        CopyTrainedLayersFrom n param = (Completed, n2) ∧
        Net.layers_ n2 !! t = Some written ∧
        length (Layer.blobs written) = length (Layer.blobs target) ∧
        (∀ i target_i source_i,
           Layer.blobs target !! i = Some target_i →
           LayerParameter.blobs source_layer !! i = Some source_i →
           ∃ blob,
             Layer.blobs written !! i = Some blob ∧
             Blob.shape_ blob = Blob.shape_ target_i ∧
             Blob.data_ blob = BlobProto.data source_i) ∧
        (∀ i, i ≠ t → Net.layers_ n2 !! i = Net.layers_ n1 !! i))) ∧
  (∀ whole rest,
     NetParameter.layer whole
     = NetParameter.layer param ++ NetParameter.layer rest →
     CopyTrainedLayersFrom n whole
     = match CopyTrainedLayersFrom n param with
       | (Completed, n2) => CopyTrainedLayersFrom n2 rest
       | (Aborted e, n') => (Aborted e, n')
       end).
Proof.
  intros Hlayers Hbefore.
  assert (CopyTrainedLayersFrom n param = copy_layer source_layer n1) as Hstep.
  { unfold CopyTrainedLayersFrom in *.
    by rewrite Hlayers, CopyTrainedLayersFrom_loop_app, Hbefore,
      CopyTrainedLayersFrom_loop_one. }
  split; [|split].
  - intros Hnot. by rewrite Hstep, copy_layer_unmatched.
  - intros t target Hname Hfirst Htarget Hcount.
    pose proof (copy_layer_matched _ _ _ _ Hname Hfirst Htarget Hcount)
      as Hcopy.
    cbv zeta in Hcopy.
    apply lookup_lt_Some in Htarget as Hlt.
    split.
    + intros j target_blob source_blob Ht Hs Hne.
      destruct (first_mismatch _ _ _ _ _ Ht Hs Hne)
        as (j0 & target0 & source0 & Hle & Ht0 & Hs0 & Hne0 & Hbefore0).
      rewrite (copy_blobs_mismatch _ _ j0 _ _ _
                 (lookup_lt_Some _ _ _ Ht0) Ht0 Hs0 Hne0 Hbefore0) in Hcopy.
      simpl in Hcopy.
      eexists j0, target0, source0, _, _.
      split; [done|]. split; [done|]. split; [done|]. split; [done|].
      split; [by rewrite Hstep, Hcopy|]. simpl.
      split; [by apply list_lookup_insert_eq|]. split.
      * intros i target_i source_i Hti Hsi. simpl.
        rewrite (loaded_prefix_lookup _ _ _ _ _ _ Hti Hsi).
        eexists. split; [done|]. by destruct (decide (i < j0)).
      * intros i Hi. by apply list_lookup_insert_ne.
    + intros Hall. rewrite (copy_blobs_all _ _ Hall) in Hcopy.
      simpl in Hcopy.
      eexists _, _. split; [by rewrite Hstep, Hcopy|]. simpl.
      split; [by apply list_lookup_insert_eq|]. split; [|split].
      * simpl. rewrite length_zip_with. lia.
      * intros i target_i source_i Hti Hsi. simpl.
        rewrite (zip_with_loaded_lookup _ _ _ _ _ Hti Hsi).
        eexists. split; [done|]. done.
      * intros i Hi. by apply list_lookup_insert_ne.
  - intros whole rest Hwhole. unfold CopyTrainedLayersFrom.
    by rewrite Hwhole, CopyTrainedLayersFrom_loop_app.
Qed.

(** C1, as the code has it.  When the foreign description has a layer
    that is matched to a layer of the net (the first of its name) with a
    different number of blobs, the load stops with a weight-mismatch
    error; it is the blob-count error of that layer when the foreign
    layers before it loaded without error.  The layer names are kept,
    and the layers whose name is not among the foreign layers before the
    failing one are as they were: only layers named by those earlier
    foreign layers can have been written. *)
Theorem CopyTrainedLayersFrom_count_mismatch (n : Net) (param : NetParameter)
    (pre : list LayerParameter) (source_layer : LayerParameter)
    (post : list LayerParameter) (t : nat) :
  NetParameter.layer param = pre ++ source_layer :: post →
  Net.layer_names_ n !! t = Some (LayerParameter.name source_layer) →
  (∀ j, j < t →
     Net.layer_names_ n !! j ≠ Some (LayerParameter.name source_layer)) →
  length (Layer.blobs (Net.layers_ n !!! t))
  ≠ length (LayerParameter.blobs source_layer) →
  ∃ e n',
    CopyTrainedLayersFrom n param = (Aborted e, n') ∧
    error_class e = WeightMismatchError ∧
    (∀ n1, CopyTrainedLayersFrom_loop pre n = (Completed, n1) →
           e = IncompatibleNumberOfBlobs (LayerParameter.name source_layer) ∧
           n' = n1) ∧
    Net.layer_names_ n' = Net.layer_names_ n ∧
    (∀ i name,
       Net.layer_names_ n !! i = Some name →
       name ∉ LayerParameter.name <$> pre →
       Net.layers_ n' !! i = Net.layers_ n !! i).
Proof.
  intros Hlayers Hname Hfirst Hcount. unfold CopyTrainedLayersFrom.
  rewrite Hlayers, CopyTrainedLayersFrom_loop_app.
  destruct (CopyTrainedLayersFrom_loop_frame pre n) as (Hn & Hc & He & Hf).
  destruct (CopyTrainedLayersFrom_loop pre n) as [[|e] n1]; simpl in *.
  - rewrite (copy_layer_count_mismatch _ _ t).
    + eexists _, n1. split; [done|]. split; [done|].
      split; [by intros ? [= <-]|]. done.
    + by rewrite Hn.
    + by rewrite Hn.
    + by rewrite (blob_counts_lookup_total n1 n t).
  - exists e, n1. split; [done|]. split; [by apply He|].
    split; [by intros ? [=]|]. done.
Qed.

(** ** The invariant of the wiring *)

Lemma for_each_seq_invariant {St} (P : nat → St → Prop)
    (body : nat → St → result St) n s s' :
  P 0 s →
  (∀ k s s', k < n → P k s → body k s = Ok s' → P (S k) s') →
  for_each body (seq 0 n) s = Ok s' →
  P n s'.
Proof.
  intros H0 Hstep.
  assert (∀ m start s, start + m = n → P start s →
            for_each body (seq start m) s = Ok s' → P n s') as Hgen.
  { induction m as [|m IH]; intros start s0 Hsum Hs; simpl.
    - intros [= <-]. by replace n with start by lia.
    - destruct (body start s0) as [s1|] eqn:Hbody; simpl; [|done].
      apply IH; [lia|]. eapply Hstep; [lia | done..]. }
  by apply (Hgen n 0 s).
Qed.

Lemma lives_alter_mono life b b' t (f : nat → nat) :
  (∀ x, x ≤ f x) → lives life b t → lives (alter f b' life) b t.
Proof.
  intros Hf (t' & Hb & Ht). unfold lives.
  rewrite list_lookup_alter. case_decide as Heq.
  - subst b'. rewrite Hb. simpl. exists (f t'). split; [done|].
    specialize (Hf t'). lia.
  - eauto.
Qed.

Lemma lives_alter_at life b t (f : nat → nat) :
  b < length life → (∀ x, t ≤ f x) → lives (alter f b life) b t.
Proof.
  intros Hb Hf. unfold lives. rewrite list_lookup_alter_eq.
  destruct (lookup_lt_is_Some_2 _ _ Hb) as [t' ->]. simpl. eauto.
Qed.

Lemma lives_app life extra b t : lives life b t → lives (life ++ extra) b t.
Proof.
  intros (t' & Hb & Ht). exists t'. split; [|done].
  by apply lookup_app_l_Some.
Qed.

Lemma lives_app_new life t t' : t ≤ t' → lives (life ++ [t']) (length life) t.
Proof.
  intros Ht. exists t'. split; [|done]. by apply list_lookup_middle.
Qed.

Lemma row_ok_mono idx idx' life life' t row names :
  idx ⊆ idx' →
  (∀ b, lives life b t → lives life' b t) →
  row_ok idx life t row names → row_ok idx' life' t row names.
Proof.
  intros Hidx Hlife Hrow. unfold row_ok in *.
  eapply Forall2_impl; [exact Hrow|].
  intros b name [Hb Hl]. split; [|by apply Hlife].
  by eapply lookup_weaken.
Qed.

Lemma row_ok_snoc idx life t row names b name :
  row_ok idx life t row names →
  idx !! name = Some b → lives life b t →
  row_ok idx life t (row ++ [b]) (names ++ [name]).
Proof.
  intros Hrow Hb Hl. unfold row_ok. apply Forall2_app; [done|].
  by apply Forall2_cons.
Qed.

Lemma made_before_le top_id_vecs i j b :
  i ≤ j → made_before top_id_vecs i b → made_before top_id_vecs j b.
Proof.
  intros Hij (k & trow & Hk & Hrow & Hb). exists k, trow.
  split; [lia|]. done.
Qed.

Lemma made_before_push top_id_vecs i j x b :
  made_before top_id_vecs i b →
  made_before (push_back_at j x top_id_vecs) i b.
Proof.
  intros (k & trow & Hk & Hrow & Hb). unfold push_back_at.
  destruct (decide (j = k)) as [->|Hne].
  - exists k, (trow ++ [x]). split; [done|].
    rewrite list_lookup_alter_eq, Hrow. split; [done|].
    apply elem_of_app. by left.
  - exists k, trow. split; [done|].
    by rewrite list_lookup_alter_ne by done.
Qed.

Lemma Forall2_with_Forall {A B} (P : A → B → Prop) (Q : A → Prop) l k :
  Forall2 P l k → Forall Q l → Forall2 (λ x y, P x y ∧ Q x) l k.
Proof.
  induction 1 as [|x y l k HP _ IH]; intros HQ; [constructor|].
  apply Forall_cons in HQ as [Hx HQ]. constructor; [done|]. by apply IH.
Qed.

Lemma produced_not_in_place_snoc ls lp :
  produced_not_in_place (ls ++ [lp])
  = produced_not_in_place ls
    ++ not_in_place (LayerParameter.top lp) (LayerParameter.bottom lp).
Proof.
  unfold produced_not_in_place. rewrite bind_app. simpl.
  by rewrite app_nil_r.
Qed.

(** One more output: nothing is produced when it is in place, its name
    otherwise. *)
Lemma not_in_place_snoc tops bottoms k name :
  tops !! k = Some name →
  not_in_place (take (S k) tops) bottoms
  = not_in_place (take k tops) bottoms
    ++ (if decide (bottoms !! k = Some name) then [] else [name]).
Proof.
  revert bottoms k. induction tops as [|t tops IH]; intros bottoms k Hk.
  - done.
  - destruct k as [|k]; simpl in Hk.
    + injection Hk as ->. simpl. destruct bottoms as [|b bottoms]; simpl.
      * done.
      * destruct (decide (name = b)) as [->|Hne].
        -- by rewrite decide_True.
        -- by rewrite decide_False by congruence.
    + destruct bottoms as [|b bottoms].
      * change (take (S (S k)) (t :: tops)) with (t :: take (S k) tops).
        change (take (S k) (t :: tops)) with (t :: take k tops).
        cbn [not_in_place]. rewrite (IH [] k Hk). simpl. done.
      * change (take (S (S k)) (t :: tops)) with (t :: take (S k) tops).
        change (take (S k) (t :: tops)) with (t :: take k tops).
        cbn [not_in_place]. rewrite (IH bottoms k Hk). simpl.
        by destruct (decide (t = b)).
Qed.

Lemma partial_layer_full lp :
  partial_layer lp (length (LayerParameter.bottom lp))
    (length (LayerParameter.top lp)) = lp.
Proof. destruct lp. unfold partial_layer. simpl. by rewrite !firstn_all. Qed.

(** One wiring step on the layer in progress. *)
Lemma wired_step total done cur cur' w w' extra :
  wired total (done ++ [cur]) w →
  LayerParameter.name cur' = LayerParameter.name cur →
  Net.layers_ (net w') = Net.layers_ (net w) →
  Net.layer_names_ (net w') = Net.layer_names_ (net w) →
  Net.blob_names_index_ (net w') = Net.blob_names_index_ (net w) →
  Net.layer_names_index_ (net w') = Net.layer_names_index_ (net w) →
  length (Net.blobs_ (net w')) = length (Net.blob_names_ (net w')) →
  length (Net.blob_life_time_ (net w')) = length (Net.blob_names_ (net w')) →
  (∀ name id,
     blob_name_to_idx w' !! name = Some id ↔
     Net.blob_names_ (net w') !! id = Some name) →
  available_blobs w' ⊆ dom (blob_name_to_idx w') →
  blob_name_to_idx w ⊆ blob_name_to_idx w' →
  (∀ b t, lives (Net.blob_life_time_ (net w)) b t →
          lives (Net.blob_life_time_ (net w')) b t) →
  Net.blob_names_ (net w') = Net.blob_names_ (net w) ++ extra →
  not_in_place (LayerParameter.top cur') (LayerParameter.bottom cur')
  = not_in_place (LayerParameter.top cur) (LayerParameter.bottom cur)
    ++ extra →
  length (Net.bottom_id_vecs_ (net w')) = total →
  length (Net.top_id_vecs_ (net w')) = total →
  (∀ i, i ≠ length done →
     Net.bottom_id_vecs_ (net w') !! i = Net.bottom_id_vecs_ (net w) !! i ∧
     Net.top_id_vecs_ (net w') !! i = Net.top_id_vecs_ (net w) !! i) →
  (∃ brow trow,
     Net.bottom_id_vecs_ (net w') !! length done = Some brow ∧
     Net.top_id_vecs_ (net w') !! length done = Some trow ∧
     row_ok (blob_name_to_idx w') (Net.blob_life_time_ (net w'))
       (length done) brow (LayerParameter.bottom cur') ∧
     row_ok (blob_name_to_idx w') (Net.blob_life_time_ (net w'))
       (length done + 1) trow (LayerParameter.top cur') ∧
     Forall (made_before (Net.top_id_vecs_ (net w')) (length done)) brow) →
  (∀ name id, blob_name_to_idx w' !! name = Some id →
     made_before (Net.top_id_vecs_ (net w')) (length done + 1) id) →
  wired total (done ++ [cur']) w'.
Proof.
  intros Hw Hname Hlayers Hlnames Hbi Hli Hblobs Hlife Hidx Havail Hsub Hmono
    Hnames Hextra Hb Ht Hother Hrow Hmade.
  assert (length (done ++ [cur']) = length (done ++ [cur])) as Hlen
    by (by rewrite !length_app).
  constructor.
  - done.
  - done.
  - done.
  - done.
  - rewrite Hlayers, Hlen. apply Hw.
  - rewrite Hlnames, (wired_layer_names _ _ _ Hw), !fmap_app. simpl.
    by rewrite Hname.
  - rewrite Hlen. apply Hw.
  - done.
  - done.
  - rewrite Hnames, (wired_names _ _ _ Hw), !produced_not_in_place_snoc,
      Hextra. by rewrite app_assoc.
  - intros i lp Hi.
    destruct (decide (i = length done)) as [->|Hne].
    + rewrite list_lookup_middle in Hi by done. by injection Hi as <-.
    + assert (i < length done) as Hlt.
      { apply lookup_lt_Some in Hi. rewrite length_app in Hi. simpl in Hi.
        lia. }
      rewrite lookup_app_l in Hi by done.
      destruct (wired_rows _ _ _ Hw i lp)
        as (brow & trow & ? & ? & Hbr & Htr & Hmb).
      { by rewrite lookup_app_l. }
      destruct (Hother i Hne) as [-> ->].
      exists brow, trow. split; [done|]. split; [done|].
      split; [|split].
      * exact (row_ok_mono _ _ _ _ _ _ _ Hsub (λ b, Hmono b _) Hbr).
      * exact (row_ok_mono _ _ _ _ _ _ _ Hsub (λ b, Hmono b _) Htr).
      * eapply Forall_impl; [exact Hmb|].
        intros b (k & r & Hk & Hr & Hin). exists k, r.
        split; [done|]. split; [|done].
        destruct (Hother k) as [_ ->]; [lia | done].
  - intros name id Hid. rewrite length_app. simpl. by eapply Hmade.
  - intros i Hi Hit. rewrite Hlen in Hi.
    assert (i ≠ length done) as Hne
      by (rewrite length_app in Hi; simpl in Hi; lia).
    destruct (Hother i Hne) as [-> ->]. by apply Hw.
  - rewrite Hbi, Hli. apply Hw.
Qed.

Lemma wired_start param :
  wired (length (NetParameter.layer param)) [] (Init_start param).
Proof.
  constructor; simpl; try done.
  - lia.
  - by rewrite length_replicate.
  - by rewrite length_replicate.
  - intros i Hi Hlt. by rewrite !lookup_replicate_2.
Qed.

Section wiring_invariant.
Context {collaborators : Collaborators}.

Lemma wired_push total done lp w :
  wired total done w →
  length done < total →
  wired total (done ++ [partial_layer lp 0 0]) (push_layer lp w).
Proof.
  intros Hw Hlt.
  constructor; simpl; try apply Hw.
  - rewrite !length_app. simpl. by rewrite (wired_layers _ _ _ Hw).
  - rewrite fmap_app. simpl. by rewrite (wired_layer_names _ _ _ Hw).
  - rewrite length_app. simpl. lia.
  - rewrite produced_not_in_place_snoc. simpl. rewrite app_nil_r.
    apply Hw.
  - intros i lp' Hi.
    destruct (decide (i = length done)) as [->|Hne].
    + rewrite list_lookup_middle in Hi by done. injection Hi as <-.
      destruct (wired_rest _ _ _ Hw (length done)) as [Hb Ht]; [lia..|].
      exists [], []. simpl. rewrite !take_0.
      split; [done|]. split; [done|]. repeat split; constructor.
    + assert (i < length done) as Hi'.
      { apply lookup_lt_Some in Hi. rewrite length_app in Hi. simpl in Hi.
        lia. }
      rewrite lookup_app_l in Hi by done.
      by apply (wired_rows _ _ _ Hw).
  - intros name id Hid. rewrite length_app.
    eapply made_before_le; [|exact (wired_made _ _ _ Hw name id Hid)]. lia.
  - intros i Hi Hit. rewrite length_app in Hi. simpl in Hi.
    apply (wired_rest _ _ _ Hw); lia.
Qed.

Lemma wired_current_row total done cur w :
  wired total (done ++ [cur]) w →
  ∃ brow trow,
    Net.bottom_id_vecs_ (net w) !! length done = Some brow ∧
    Net.top_id_vecs_ (net w) !! length done = Some trow ∧
    row_ok (blob_name_to_idx w) (Net.blob_life_time_ (net w)) (length done)
      brow (LayerParameter.bottom cur) ∧
    row_ok (blob_name_to_idx w) (Net.blob_life_time_ (net w))
      (length done + 1) trow (LayerParameter.top cur) ∧
    Forall (made_before (Net.top_id_vecs_ (net w)) (length done)) brow.
Proof.
  intros Hw. apply (wired_rows _ _ _ Hw). by apply list_lookup_middle.
Qed.

Lemma wired_made_current total done cur w name id :
  wired total (done ++ [cur]) w →
  blob_name_to_idx w !! name = Some id →
  made_before (Net.top_id_vecs_ (net w)) (length done + 1) id.
Proof.
  intros Hw Hid. apply (wired_made _ _ _ Hw) in Hid.
  by rewrite length_app in Hid.
Qed.

Lemma wired_id_in_range total ls w name b :
  wired total ls w →
  blob_name_to_idx w !! name = Some b →
  b < length (Net.blob_life_time_ (net w)).
Proof.
  intros Hw Hb. rewrite (wired_life _ _ _ Hw).
  apply (wired_idx _ _ _ Hw) in Hb. by eapply lookup_lt_Some.
Qed.

Lemma push_back_at_other i j x v :
  i ≠ j → push_back_at j x v !! i = v !! i.
Proof. intros Hne. unfold push_back_at. by apply list_lookup_alter_ne. Qed.

Lemma push_back_at_row i x v row :
  v !! i = Some row → push_back_at i x v !! i = Some (row ++ [x]).
Proof.
  intros Hrow. unfold push_back_at. by rewrite list_lookup_alter_eq, Hrow.
Qed.

Lemma wired_bottom total done lp k name w w' :
  wired total (done ++ [partial_layer lp k 0]) w →
  LayerParameter.bottom lp !! k = Some name →
  AppendBottom lp (length done) k w = Ok w' →
  wired total (done ++ [partial_layer lp (S k) 0]) w'.
Proof.
  intros Hw Hname Hstep.
  destruct (wired_current_row _ _ _ _ Hw)
    as (brow & trow & Hb & Ht & Hbr & Htr & Hmb).
  unfold AppendBottom in Hstep.
  rewrite (list_lookup_total_correct _ _ _ Hname) in Hstep.
  case_bool_decide as Hav; [done|].
  assert (name ∈ available_blobs w) as Hin.
  { destruct (decide (name ∈ available_blobs w)); [done | by exfalso]. }
  assert (is_Some (blob_name_to_idx w !! name)) as [b Hidx].
  { apply elem_of_dom. by apply (wired_avail _ _ _ Hw). }
  unfold map_subscript in Hstep. rewrite Hidx in Hstep. simpl in Hstep.
  injection Hstep as <-.
  assert (b < length (Net.blob_life_time_ (net w))) as Hrange
    by (by eapply wired_id_in_range).
  apply (wired_step total done (partial_layer lp k 0) _ w _ []);
    simpl; try done; try apply Hw.
  - rewrite length_alter. apply Hw.
  - pose proof (wired_avail _ _ _ Hw). set_solver.
  - intros b' t. apply lives_alter_mono. lia.
  - by rewrite app_nil_r.
  - unfold push_back_at. rewrite length_alter. apply Hw.
  - intros i Hne. by rewrite push_back_at_other.
  - exists (brow ++ [b]), trow.
    split; [by apply push_back_at_row|]. split; [done|].
    simpl in Hbr, Htr. split; [|split].
    + rewrite (take_S_r _ _ _ Hname). apply row_ok_snoc; [|done|].
      * eapply row_ok_mono; [done| |exact Hbr].
        intros b'. apply lives_alter_mono. lia.
      * apply lives_alter_at; [done|]. lia.
    + eapply row_ok_mono; [done| |exact Htr].
      intros b'. apply lives_alter_mono. lia.
    + apply Forall_app. split; [done|]. apply Forall_singleton.
      destruct (wired_made_current _ _ _ _ _ _ Hw Hidx)
        as (k0 & row & Hk0 & Hrow & Hin0).
      exists k0, row. split; [|done].
      destruct (decide (k0 = length done)) as [->|]; [|lia].
      rewrite take_0 in Htr. apply Forall2_nil_inv_r in Htr.
      rewrite Ht in Hrow. injection Hrow as <-. subst trow.
      by apply elem_of_nil in Hin0.
  - intros name' id Hid. by eapply wired_made_current.
Qed.

Lemma wired_same total ls w w' :
  same_wiring (net w) (net w') →
  available_blobs w' = available_blobs w →
  blob_name_to_idx w' = blob_name_to_idx w →
  wired total ls w → wired total ls w'.
Proof.
  intros (H1 & H2 & H3 & H4 & H5 & H6 & H7 & H8 & H9) Hav Hidx Hw.
  constructor; rewrite ?H1, ?H2, ?H3, ?H4, ?H5, ?H6, ?H7, ?H8, ?H9, ?Hav, ?Hidx;
    apply Hw.
Qed.

Lemma same_wiring_refl n : same_wiring n n.
Proof. by repeat split. Qed.

Lemma same_wiring_trans n1 n2 n3 :
  same_wiring n1 n2 → same_wiring n2 n3 → same_wiring n1 n3.
Proof.
  unfold same_wiring. intros H12 H23. destruct_and!.
  repeat split; congruence.
Qed.

Lemma collect_input_same lp n : same_wiring n (collect_input lp n).
Proof. unfold collect_input. case_bool_decide; by repeat split. Qed.

Lemma AppendParam_same layer_id param_id n :
  same_wiring n (AppendParam layer_id param_id n).
Proof. by repeat split. Qed.

Lemma Init_params_same layer_id w :
  same_wiring (net w) (net (Init_params layer_id w)).
Proof.
  unfold Init_params. simpl.
  generalize (seq 0 (length (Layer.blobs
                               (Net.layers_ (net w) !!! layer_id)))).
  intros ids. generalize (net w).
  induction ids as [|i ids IH]; intros n0; simpl.
  - apply same_wiring_refl.
  - eapply same_wiring_trans; [|apply IH]. apply AppendParam_same.
Qed.

Lemma wired_AppendTop total done lp k name w w' :
  wired total
    (done ++ [partial_layer lp (length (LayerParameter.bottom lp)) k]) w →
  LayerParameter.top lp !! k = Some name →
  AppendTop lp (length done) k w = Ok w' →
  wired total
    (done ++ [partial_layer lp (length (LayerParameter.bottom lp)) (S k)]) w'.
Proof.
  intros Hw Hname Hstep.
  destruct (wired_current_row _ _ _ _ Hw)
    as (brow & trow & Hb & Ht & Hbr & Htr & Hmb).
  simpl in Hbr, Htr. rewrite firstn_all in Hbr.
  unfold AppendTop in Hstep.
  rewrite (top_blob_name_lookup _ _ _ Hname) in Hstep.
  destruct (in_place lp k) eqn:Hin.
  - (* in place *)
    apply (in_place_iff _ _ _ Hname) in Hin.
    destruct (Forall2_lookup_r _ _ _ _ _ Hbr Hin) as (b & Hbk & Hidx & Hlive).
    unfold map_subscript in Hstep. rewrite Hidx in Hstep. simpl in Hstep.
    injection Hstep as <-.
    assert (b < length (Net.blob_life_time_ (net w))) as Hrange
      by (by eapply wired_id_in_range).
    assert (∀ b' t, lives (Net.blob_life_time_ (net w)) b' t →
              lives (alter (λ t0, t0 `max` (length done + 1)) b
                       (Net.blob_life_time_ (net w))) b' t) as Hmono
      by (intros b' t; apply lives_alter_mono; lia).
    apply (wired_step total done
             (partial_layer lp (length (LayerParameter.bottom lp)) k) _ w _ []);
      simpl; try done; try apply Hw.
    + rewrite length_alter. apply Hw.
    + pose proof (wired_avail _ _ _ Hw).
      assert (name ∈ dom (blob_name_to_idx w)) by (apply elem_of_dom; eauto).
      set_solver.
    + by rewrite app_nil_r.
    + rewrite firstn_all, (not_in_place_snoc _ _ _ _ Hname).
      by rewrite decide_True.
    + unfold push_back_at. rewrite length_alter. apply Hw.
    + intros i Hne. by rewrite push_back_at_other.
    + exists brow, (trow ++ [b]).
      split; [done|]. split; [by apply push_back_at_row|]. split; [|split].
      * rewrite firstn_all.
        eapply row_ok_mono; [done|intros ?; apply Hmono|exact Hbr].
      * rewrite (take_S_r _ _ _ Hname). apply row_ok_snoc; [|done|].
        -- eapply row_ok_mono; [done|intros ?; apply Hmono|exact Htr].
        -- apply lives_alter_at; [done|]. lia.
      * eapply Forall_impl; [exact Hmb|].
        intros b'. apply made_before_push.
    + intros name' id Hid. apply made_before_push.
      by eapply wired_made_current.
  - (* a new blob *)
    case_bool_decide as Hdup; [done|]. injection Hstep as <-.
    assert (blob_name_to_idx w !! name = None) as Hfresh.
    { destruct (blob_name_to_idx w !! name) eqn:E; [|done].
      exfalso. apply Hdup. eauto. }
    assert (LayerParameter.bottom lp !! k ≠ Some name) as Hnot.
    { intros Hb'. apply (in_place_iff _ _ _ Hname) in Hb'. congruence. }
    pose proof (wired_blobs _ _ _ Hw) as Hlb.
    pose proof (wired_life _ _ _ Hw) as Hll.
    assert (blob_name_to_idx w
            ⊆ <[name:=length (Net.blobs_ (net w))]> (blob_name_to_idx w))
      as Hsub by (by apply insert_subseteq).
    assert (∀ b' t, lives (Net.blob_life_time_ (net w)) b' t →
              lives (Net.blob_life_time_ (net w) ++ [length done + 1]) b' t)
      as Hmono by (intros b' t; apply lives_app).
    apply (wired_step total done
             (partial_layer lp (length (LayerParameter.bottom lp)) k) _ w _
             [name]);
      simpl; try done; try apply Hw.
    + rewrite !length_app. simpl. lia.
    + rewrite !length_app. simpl. lia.
    + intros name' id. rewrite lookup_insert.
      case_decide as Heq.
      * subst name'. split.
        -- intros [= <-]. rewrite Hlb. by apply list_lookup_middle.
        -- intros Hid.
           destruct (decide (id < length (Net.blob_names_ (net w))))
             as [Hlt|Hge].
           ++ rewrite lookup_app_l in Hid by done.
              apply (wired_idx _ _ _ Hw) in Hid. congruence.
           ++ apply lookup_lt_Some in Hid as Hid'.
              rewrite length_app in Hid'. simpl in Hid'.
              f_equal. lia.
      * rewrite (wired_idx _ _ _ Hw). split.
        -- intros Hid. by apply lookup_app_l_Some.
        -- intros Hid.
           destruct (decide (id < length (Net.blob_names_ (net w))))
             as [Hlt|Hge].
           ++ by rewrite lookup_app_l in Hid.
           ++ apply lookup_lt_Some in Hid as Hid'.
              rewrite length_app in Hid'. simpl in Hid'.
              assert (id = length (Net.blob_names_ (net w))) as -> by lia.
              rewrite list_lookup_middle in Hid by done. congruence.
    + pose proof (wired_avail _ _ _ Hw). rewrite dom_insert_L. set_solver.
    + rewrite firstn_all, (not_in_place_snoc _ _ _ _ Hname).
      by rewrite decide_False.
    + unfold push_back_at. rewrite length_alter. apply Hw.
    + intros i Hne. by rewrite push_back_at_other.
    + exists brow, (trow ++ [length (Net.blobs_ (net w))]).
      split; [done|]. split; [by apply push_back_at_row|]. split; [|split].
      * rewrite firstn_all.
        eapply row_ok_mono; [exact Hsub|intros ?; apply Hmono|exact Hbr].
      * rewrite (take_S_r _ _ _ Hname). apply row_ok_snoc.
        -- eapply row_ok_mono; [exact Hsub|intros ?; apply Hmono|exact Htr].
        -- apply lookup_insert_eq.
        -- rewrite Hlb, <- Hll. by apply lives_app_new.
      * eapply Forall_impl; [exact Hmb|].
        intros b'. apply made_before_push.
    + intros name' id. rewrite lookup_insert. case_decide as Heq.
      * intros [= <-]. exists (length done), (trow ++ [length (Net.blobs_ (net w))]).
        split; [lia|]. split; [by apply push_back_at_row|].
        apply elem_of_app. right. apply list_elem_of_here.
      * intros Hid. apply made_before_push.
        by eapply wired_made_current.
Qed.

Lemma wired_top total done lp k name w w' :
  wired total
    (done ++ [partial_layer lp (length (LayerParameter.bottom lp)) k]) w →
  LayerParameter.top lp !! k = Some name →
  Init_top lp (length done) k w = Ok w' →
  wired total
    (done ++ [partial_layer lp (length (LayerParameter.bottom lp)) (S k)]) w'.
Proof.
  intros Hw Hname. unfold Init_top.
  destruct (AppendTop lp (length done) k w) as [w1|] eqn:Hstep; [|done].
  simpl. intros [= <-].
  eapply wired_same; [apply collect_input_same | done | done |].
  by eapply wired_AppendTop.
Qed.

Lemma wired_Init_layer total done lp w w' :
  wired total done w →
  length done < total →
  Init_layer lp (length done) w = Ok w' →
  wired total (done ++ [lp]) w'.
Proof.
  intros Hw Hlt Hl. apply Init_layer_inv in Hl as (w1 & w2 & Hb & Ht & ->).
  eapply wired_same; [apply Init_params_same | done | done |].
  rewrite <- (partial_layer_full lp).
  revert Ht.
  apply (for_each_seq_invariant
           (λ k s, wired total
                     (done ++ [partial_layer lp
                                 (length (LayerParameter.bottom lp)) k]) s)).
  - revert Hb.
    apply (for_each_seq_invariant
             (λ k s, wired total (done ++ [partial_layer lp k 0]) s)).
    + by apply wired_push.
    + intros k s s' Hk Hs Hstep.
      destruct (lookup_lt_is_Some_2 _ _ Hk) as [name Hname].
      by eapply wired_bottom.
  - intros k s s' Hk Hs Hstep.
    destruct (lookup_lt_is_Some_2 _ _ Hk) as [name Hname].
    by eapply wired_top.
Qed.

Lemma wired_Init_layers total done ls w w' :
  wired total done w →
  length done + length ls ≤ total →
  Init_layers (length done) ls w = Ok w' →
  wired total (done ++ ls) w'.
Proof.
  revert done w. induction ls as [|lp ls IH]; intros done w Hw Hlen; simpl.
  - intros [= <-]. by rewrite app_nil_r.
  - destruct (Init_layer lp (length done) w) as [w1|] eqn:Hl; [|done].
    simpl. intros Hrest. simpl in Hlen.
    rewrite (assoc_L (++) done [lp] ls : done ++ lp :: ls = (done ++ [lp]) ++ ls).
    apply (IH (done ++ [lp]) w1).
    + eapply wired_Init_layer; [done | lia | done].
    + rewrite length_app. simpl. lia.
    + rewrite length_app. simpl.
      by replace (length done + 1) with (S (length done)) by lia.
Qed.

(** The wiring [Init] does satisfies the invariant for all the layers. *)
Lemma Init_wire_wired param w :
  Init_wire param = Ok w →
  wired (length (NetParameter.layer param)) (NetParameter.layer param) w.
Proof.
  intros Hwire.
  apply (wired_Init_layers _ [] (NetParameter.layer param) (Init_start param));
    [apply wired_start | simpl; lia | done].
Qed.

End wiring_invariant.

(** ** Assembled nets *)

Lemma lives_insert life b b' t top :
  lives life b t → t ≤ top → lives (<[b' := top]> life) b t.
Proof.
  intros (t' & Hb & Ht) Htop. unfold lives.
  destruct (decide (b' = b)) as [->|Hne].
  - rewrite list_lookup_insert_eq by (by eapply lookup_lt_Some). eauto.
  - rewrite list_lookup_insert_ne by done. eauto.
Qed.

Lemma lives_hold life ids b t top :
  lives life b t → t ≤ top →
  lives (foldl (λ life blob_id, <[blob_id := top]> life) life ids) b t.
Proof.
  revert life. induction ids as [|b' ids IH]; intros life Hl Htop; simpl.
  - done.
  - apply IH; [|done]. by apply lives_insert.
Qed.

Lemma index_names_dom start names index :
  dom (index_names start names index) = dom index ∪ list_to_set names.
Proof.
  revert start index. induction names as [|name names IH];
    intros start index; simpl.
  - set_solver.
  - rewrite IH, dom_insert_L. set_solver.
Qed.

Lemma index_names_lookup start names index name id :
  NoDup names →
  index_names start names index !! name = Some id ↔
  (∃ j, names !! j = Some name ∧ id = start + j) ∨
  ((name ∉ names) ∧ index !! name = Some id).
Proof.
  intros Hnd. revert start index.
  induction Hnd as [|n names Hn Hnd IH]; intros start index; simpl.
  - split.
    + intros Hid. right. split; [|done]. by intros ?%elem_of_nil.
    + intros [(j & Hj & _)|[_ Hid]]; [done|done].
  - rewrite IH. split.
    + intros [(j & Hj & ->)|[Hnot Hid]].
      * left. exists (S j). split; [done|lia].
      * rewrite lookup_insert in Hid. case_decide as Heq.
        -- subst n. injection Hid as <-. left. exists 0.
           split; [done|lia].
        -- right. split; [|done].
           intros [?|?]%elem_of_cons; [congruence|done].
    + intros [(j & Hj & ->)|[Hnot Hid]].
      * destruct j as [|j]; simpl in Hj.
        -- injection Hj as ->. right. split; [done|].
           rewrite lookup_insert_eq. f_equal. lia.
        -- left. exists j. split; [done|lia].
      * right. split; [by intros ?; apply Hnot; right|].
        rewrite lookup_insert_ne; [done|].
        intros ->. apply Hnot. left.
Qed.

Lemma wired_NoDup total ls w :
  wired total ls w → NoDup (Net.blob_names_ (net w)).
Proof.
  intros Hw. apply NoDup_alt. intros i j name Hi Hj.
  apply (wired_idx _ _ _ Hw) in Hi, Hj. congruence.
Qed.

Lemma assembled_finish ls w n :
  wired (length ls) ls w →
  Init_finish w = Ok n →
  assembled ls n.
Proof.
  intros Hw. unfold Init_finish.
  destruct (Net.layers_ (net w)) as [|first_layer layers] eqn:Hlayers; [done|].
  case_bool_decide; [done|]. intros [= <-].
  pose proof (wired_layers _ _ _ Hw) as Hlen. rewrite Hlayers in Hlen.
  destruct (wired_no_index _ _ _ Hw) as [Hbi Hli].
  constructor; simpl; try apply Hw.
  - intros ->. done.
  - by eapply wired_NoDup.
  - intros i lp Hi.
    destruct (wired_rows _ _ _ Hw i lp Hi)
      as (brow & trow & Hb & Ht & Hbr & Htr & Hmb).
    apply lookup_lt_Some in Hi as Hlt.
    exists brow, trow. split; [done|]. split; [done|].
    pose proof (wired_layers _ _ _ Hw) as Hall.
    split.
    + eapply Forall2_impl;
        [exact (Forall2_with_Forall _ _ _ _ Hbr Hmb)|].
      intros b name [[Hidx Hlive] Hmade].
      split; [by apply (wired_idx _ _ _ Hw)|]. split; [|done].
      apply lives_hold; [done|]. rewrite Hall. lia.
    + eapply Forall2_impl; [exact Htr|].
      intros b name [Hidx Hlive].
      split; [by apply (wired_idx _ _ _ Hw)|].
      apply lives_hold; [done|]. rewrite Hall. lia.
  - intros name id. rewrite Hbi.
    rewrite (index_names_lookup 0 _ ∅ name id) by (by eapply wired_NoDup).
    split.
    + intros [(j & Hj & ->)|[_ Hid]]; [done | by rewrite lookup_empty in Hid].
    + intros Hid. left. by exists id.
  - intros name. rewrite Hli, <- elem_of_dom, index_names_dom.
    rewrite dom_empty_L, elem_of_union, elem_of_list_to_set.
    split; [by intros [?%elem_of_empty|?] | by right].
Qed.

Lemma assembled_MarkOutputs ls outs n n' :
  assembled ls n →
  MarkOutputs outs n = Ok n' →
  assembled ls n'.
Proof.
  revert n. induction outs as [|name outs IH]; intros n Ha; simpl.
  - by intros [= <-].
  - destruct (Net.blob_names_index_ n !! name) as [blob_id|]; [|done].
    apply IH. constructor; simpl; try apply Ha.
    intros i lp Hi.
    destruct (asm_rows _ _ Ha i lp Hi) as (brow & trow & Hb & Ht & Hbr & Htr).
    apply lookup_lt_Some in Hi as Hlt.
    pose proof (asm_layers _ _ Ha) as Hlen.
    exists brow, trow. split; [done|]. split; [done|].
    split.
    + eapply Forall2_impl; [exact Hbr|].
      intros b name' (Hidx & Hlive & Hmade).
      split; [done|]. split; [|done]. apply lives_insert; [done|lia].
    + eapply Forall2_impl; [exact Htr|].
      intros b name' [Hidx Hlive].
      split; [done|]. apply lives_insert; [done|lia].
Qed.

Section assembly.
Context {collaborators : Collaborators}.

Lemma Init_inv in_param n :
  Init in_param = Ok n →
  NetState.phase (NetParameter.state in_param) = TEST ∧
  ∃ filtered w,
    FilterNet in_param = Ok filtered ∧
    Init_wire (InsertSplits filtered) = Ok w ∧
    Init_finish w = Ok n.
Proof.
  unfold Init. case_bool_decide as Hphase; [done|].
  destruct (FilterNet in_param) as [filtered|]; [|done]. simpl.
  destruct (Init_wire (InsertSplits filtered)) as [w|] eqn:Hwire; [|done].
  simpl. intros Hfinish. split.
  - by destruct (decide (NetState.phase (NetParameter.state in_param) = TEST)).
  - by exists filtered, w.
Qed.

Lemma Init_assembled in_param filtered n :
  FilterNet in_param = Ok filtered →
  Init in_param = Ok n →
  assembled (NetParameter.layer (InsertSplits filtered)) n.
Proof.
  intros Hfilter Hinit.
  apply Init_inv in Hinit as (_ & filtered' & w & Hfilter' & Hwire & Hfinish).
  rewrite Hfilter in Hfilter'. injection Hfilter' as <-.
  eapply assembled_finish; [|done]. by apply Init_wire_wired.
Qed.

End assembly.

(** ** In-place outputs and the number of blobs *)

Lemma AppendTop_in_place_no_new_blob lp layer_id top_id w :
  in_place lp top_id = true →
  ∃ w', AppendTop lp layer_id top_id w = Ok w' ∧
    Net.blobs_ (net w') = Net.blobs_ (net w) ∧
    Net.blob_names_ (net w') = Net.blob_names_ (net w).
Proof.
  intros Hin. unfold AppendTop. rewrite Hin. by eexists.
Qed.

(** C4. An output whose name is the input name at the same position
    makes no new blob: [AppendTop] leaves the blob list as it is, and in
    the assembled net the output and the input at that position are the
    same blob id, which bears the name and lives at least up to one past
    the layer's index.  The blob names of the net are exactly the names
    produced not in place, each once, so the number of blobs is the
    number of distinct such names. *)
Theorem in_place_top_reuses_blob {collaborators : Collaborators}
    (in_param filtered : NetParameter) (n : Net) :
  FilterNet in_param = Ok filtered →
  Init in_param = Ok n →
  (∀ lp layer_id top_id name w,
     LayerParameter.top lp !! top_id = Some name →
     LayerParameter.bottom lp !! top_id = Some name →
     ∃ w', AppendTop lp layer_id top_id w = Ok w' ∧
       Net.blobs_ (net w') = Net.blobs_ (net w)) ∧
  (∀ i lp k name,
     NetParameter.layer (InsertSplits filtered) !! i = Some lp →
     LayerParameter.top lp !! k = Some name →
     LayerParameter.bottom lp !! k = Some name →
     ∃ brow trow blob_id,
       Net.bottom_id_vecs_ n !! i = Some brow ∧
       Net.top_id_vecs_ n !! i = Some trow ∧
       brow !! k = Some blob_id ∧
       trow !! k = Some blob_id ∧
       Net.blob_names_ n !! blob_id = Some name ∧
       lives (Net.blob_life_time_ n) blob_id (i + 1)) ∧
  Net.blob_names_ n
  = produced_not_in_place (NetParameter.layer (InsertSplits filtered)) ∧
  NoDup (Net.blob_names_ n) ∧
  length (Net.blobs_ n)
  = size (list_to_set
            (produced_not_in_place
               (NetParameter.layer (InsertSplits filtered))) : gset string).
Proof.
  intros Hfilter Hinit.
  pose proof (Init_assembled _ _ _ Hfilter Hinit) as Ha.
  split; [|split; [|split; [|split]]].
  - intros lp layer_id top_id name w Htop Hbottom.
    destruct (AppendTop_in_place_no_new_blob lp layer_id top_id w)
      as (w' & ? & ? & ?); [by apply (in_place_iff _ _ _ Htop)|].
    by exists w'.
  - intros i lp k name Hi Htop Hbottom.
    destruct (asm_rows _ _ Ha i lp Hi) as (brow & trow & Hb & Ht & Hbr & Htr).
    destruct (Forall2_lookup_r _ _ _ _ _ Hbr Hbottom) as (b & Hbk & Hbn & _).
    destruct (Forall2_lookup_r _ _ _ _ _ Htr Htop) as (b' & Htk & Htn & Hlive).
    assert (b = b') as <-.
    { apply (NoDup_lookup _ _ _ name (asm_nodup _ _ Ha)); done. }
    by exists brow, trow, b.
  - apply Ha.
  - apply Ha.
  - rewrite <- (asm_names _ _ Ha), (asm_blobs _ _ Ha).
    symmetry. apply size_list_to_set, Ha.
Qed.

(** ** Lookup by name *)

(** C2, as the code has it.  For a name that no blob of the assembled
    net bears, [has_blob] answers false and [blob_by_name] stops with the
    failed check "Unknown blob name"; likewise [has_layer] and
    [layer_by_name] for a name that no layer bears.  No reference is
    returned. *)
Theorem lookup_of_unknown_name {collaborators : Collaborators}
    (in_param : NetParameter) (n : Net) :
  Init in_param = Ok n →
  (∀ blob_name, blob_name ∉ Net.blob_names_ n →
     has_blob n blob_name = false ∧
     blob_by_name n blob_name = Fatal (UnknownBlobName blob_name)) ∧
  (∀ layer_name, layer_name ∉ Net.layer_names_ n →
     has_layer n layer_name = false ∧
     layer_by_name n layer_name = Fatal (UnknownLayerName layer_name)).
Proof.
  intros Hinit.
  destruct (Init_inv _ _ Hinit) as (_ & filtered & w & Hfilter & _ & _).
  pose proof (Init_assembled _ _ _ Hfilter Hinit) as Ha.
  split.
  - intros blob_name Hnot.
    assert (has_blob n blob_name = false) as Hhas.
    { unfold has_blob. apply bool_decide_eq_false_2. intros [id Hid].
      apply (asm_blob_index _ _ Ha) in Hid. apply Hnot.
      by eapply list_elem_of_lookup_2. }
    split; [done|]. unfold blob_by_name. by rewrite Hhas.
  - intros layer_name Hnot.
    assert (has_layer n layer_name = false) as Hhas.
    { unfold has_layer. apply bool_decide_eq_false_2.
      by rewrite (asm_layer_index _ _ Ha). }
    split; [done|]. unfold layer_by_name. by rewrite Hhas.
Qed.

(** ** The forward pass *)

Lemma release_loop_filter n i bottom_ids :
  release_loop n i bottom_ids
  = BlobRelease <$> filter (λ b, Net.blob_life_time_ n !!! b ≤ i) bottom_ids.
Proof.
  induction bottom_ids as [|b bottom_ids IH]; simpl; [done|].
  rewrite filter_cons. case_bool_decide.
  - rewrite decide_True by done. simpl. by rewrite IH.
  - by rewrite decide_False by done.
Qed.

Lemma forward_loop_app n ids1 ids2 :
  forward_loop n (ids1 ++ ids2) = forward_loop n ids1 ++ forward_loop n ids2.
Proof.
  induction ids1 as [|i ids1 IH]; simpl; [done|].
  by rewrite IH, <- app_assoc.
Qed.

Lemma app_split_at {A} (l1 l2 before after : list A) x :
  l1 ++ l2 = before ++ x :: after →
  x ∉ l1 →
  ∃ before', before = l1 ++ before' ∧ l2 = before' ++ x :: after.
Proof.
  revert before. induction l1 as [|y l1 IH]; intros before Heq Hnot; simpl in *.
  - by exists before.
  - destruct before as [|z before]; simpl in Heq.
    + injection Heq as -> _. exfalso. apply Hnot. left.
    + injection Heq as -> Heq.
      destruct (IH before Heq) as (before' & -> & ->).
      { intros ?. apply Hnot. by right. }
      by exists before'.
Qed.

(** Whatever is released before layer [j] runs was released after an
    earlier layer that read it, the life time of the blob being over at
    that layer. *)
Lemma forward_loop_released_before n m start before j after :
  forward_loop n (seq start m) = before ++ LayerForward j :: after →
  start ≤ j ∧
  ∀ b, BlobRelease b ∈ before →
    ∃ i, start ≤ i < j ∧
      b ∈ Net.bottom_id_vecs_ n !!! i ∧ Net.blob_life_time_ n !!! b ≤ i.
Proof.
  revert start before. induction m as [|m IH]; intros start before Heq.
  - by destruct before.
  - simpl in Heq. destruct before as [|c before]; simpl in Heq.
    + injection Heq as <- _. split; [lia|]. by intros b ?%elem_of_nil.
    + injection Heq as <- Heq. rewrite release_loop_filter in Heq.
      apply app_split_at in Heq as (before' & -> & Hrest).
      2:{ intros (b' & ? & _)%list_elem_of_fmap. done. }
      destruct (IH _ _ Hrest) as [Hle Hbefore]. split; [lia|].
      intros b [Hhead|[Hrel|Hin]%elem_of_app]%elem_of_cons.
      * done.
      * apply list_elem_of_fmap in Hrel as (b' & [= <-] & Hb).
        apply list_elem_of_filter in Hb as [Hlife Hb].
        exists start. split; [lia|]. done.
      * destruct (Hbefore b Hin) as (i & ? & ? & ?).
        exists i. split; [lia|]. done.
Qed.

(** C3. In a full forward pass over an assembled net (with or without
    marked outputs), the calls that follow the run of layer [i] and
    precede the run of the next layer release every input blob of layer
    [i] whose life time is at most [i]; when a layer runs, none of its
    input blobs has been released earlier in the pass; and each of its
    input blobs is an output of a layer that ran earlier in the pass,
    with no release of the blob from the start of the pass up to the run
    of the reader. *)
Theorem forward_releases_after_last_use {collaborators : Collaborators}
    (in_param : NetParameter) (outs : list string) (n0 n : Net) :
  Init in_param = Ok n0 →
  MarkOutputs outs n0 = Ok n →
  ∃ calls,
    ForwardFromTo n 0 (Z.of_nat (length (Net.layers_ n)) - 1) = Ok calls ∧
    (∀ i bottom_ids b,
       Net.bottom_id_vecs_ n !! i = Some bottom_ids →
       b ∈ bottom_ids →
       Net.blob_life_time_ n !!! b ≤ i →
       ∃ before released after,
         calls = before ++ LayerForward i :: (BlobRelease <$> released) ++ after ∧
         b ∈ released ∧
         (after = [] ∨ ∃ rest, after = LayerForward (S i) :: rest)) ∧
    (∀ before j after bottom_ids b,
       calls = before ++ LayerForward j :: after →
       Net.bottom_id_vecs_ n !! j = Some bottom_ids →
       b ∈ bottom_ids →
       BlobRelease b ∉ before) ∧
    (∀ j bottom_ids b,
       Net.bottom_id_vecs_ n !! j = Some bottom_ids →
       b ∈ bottom_ids →
       ∃ k top_ids before between after,
         k < j ∧
         Net.top_id_vecs_ n !! k = Some top_ids ∧
         b ∈ top_ids ∧
         calls = before ++ LayerForward k :: between ++ LayerForward j :: after ∧
         BlobRelease b ∉ before ++ LayerForward k :: between).
Proof.
  intros Hinit Hmark.
  destruct (Init_inv _ _ Hinit) as (_ & filtered & w & Hfilter & _ & _).
  pose proof (Init_assembled _ _ _ Hfilter Hinit) as Ha0.
  pose proof (assembled_MarkOutputs _ _ _ _ Ha0 Hmark) as Ha.
  set (ls := NetParameter.layer (InsertSplits filtered)) in *.
  pose proof (asm_layers _ _ Ha) as Hlayers.
  pose proof (asm_bvecs _ _ Ha) as Hbvecs.
  assert (0 < length ls) as Hpos.
  { pose proof (asm_nonempty _ _ Ha). destruct ls; [done | simpl; lia]. }
  assert (∀ j bottom_ids b,
            Net.bottom_id_vecs_ n !! j = Some bottom_ids →
            b ∈ bottom_ids →
            lives (Net.blob_life_time_ n) b j ∧
            made_before (Net.top_id_vecs_ n) j b) as Hrows.
  { intros j bottom_ids b Hrow Hb.
    assert (is_Some (ls !! j)) as [lp Hlp].
    { apply lookup_lt_is_Some_2. apply lookup_lt_Some in Hrow. lia. }
    destruct (asm_rows _ _ Ha j lp Hlp) as (brow & trow & Hb' & _ & Hbr & _).
    rewrite Hrow in Hb'. injection Hb' as <-.
    apply list_elem_of_lookup_1 in Hb as [k Hk].
    by destruct (Forall2_lookup_l _ _ _ _ _ Hbr Hk) as (name & _ & _ & ? & ?). }
  assert (∀ before j after bottom_ids b,
            forward_loop n (seq 0 (length ls))
            = before ++ LayerForward j :: after →
            Net.bottom_id_vecs_ n !! j = Some bottom_ids →
            b ∈ bottom_ids →
            BlobRelease b ∉ before) as Hvalid.
  { intros before j after bottom_ids b Hcalls Hrow Hb Hreleased.
    destruct (forward_loop_released_before _ _ _ _ _ _ Hcalls)
      as [_ Hbefore].
    destruct (Hbefore b Hreleased) as (i & [_ Hij] & _ & Hlife).
    destruct (Hrows j bottom_ids b Hrow Hb) as [(t' & Ht' & Hjt) _].
    rewrite (list_lookup_total_correct _ _ _ Ht') in Hlife. lia. }
  exists (forward_loop n (seq 0 (length ls))).
  split; [|split; [|split]].
  - unfold ForwardFromTo. rewrite bool_decide_eq_false_2 by lia.
    rewrite bool_decide_eq_false_2.
    + rewrite Hlayers.
      replace (Z.to_nat (Z.of_nat (length ls) - 1 - 0 + 1)) with (length ls)
        by lia.
      done.
    + intros Hnot. apply Hnot. unfold to_size_t. rewrite Hlayers.
      pose proof (Z.mod_le (Z.of_nat (length ls) - 1) (2 ^ 64)). lia.
  - intros i bottom_ids b Hrow Hb Hlife.
    assert (i < length ls) as Hi
      by (apply lookup_lt_Some in Hrow; lia).
    replace (length ls) with (i + S (length ls - S i)) by lia.
    rewrite seq_app, forward_loop_app. simpl.
    rewrite (list_lookup_total_correct _ _ _ Hrow), release_loop_filter.
    eexists _, _, _. split; [done|]. split.
    + by apply list_elem_of_filter.
    + destruct (length ls - S i); simpl; [by left | right; by eexists].
  - exact Hvalid.
  - intros j bottom_ids b Hrow Hb.
    destruct (Hrows j bottom_ids b Hrow Hb)
      as [_ (k & top_ids & Hkj & Htop & Hin)].
    assert (j < length ls) as Hj
      by (apply lookup_lt_Some in Hrow; lia).
    assert (forward_loop n (seq 0 (length ls))
            = forward_loop n (seq 0 k)
              ++ LayerForward k
                 :: (release_loop n k (Net.bottom_id_vecs_ n !!! k)
                     ++ forward_loop n (seq (S k) (j - S k)))
                 ++ LayerForward j
                 :: (release_loop n j (Net.bottom_id_vecs_ n !!! j)
                     ++ forward_loop n (seq (S j) (length ls - S j))))
      as Hsplit.
    { replace (length ls) with (k + S ((j - S k) + S (length ls - S j)))
        at 1 by lia.
      rewrite seq_app, forward_loop_app. simpl.
      rewrite seq_app, forward_loop_app. simpl.
      replace (S (k + (j - S k))) with j by lia.
      by rewrite <- !app_assoc. }
    eexists k, top_ids, _, _, _.
    split; [done|]. split; [done|]. split; [done|].
    split; [exact Hsplit|].
    eapply (Hvalid _ j); [|done..].
    rewrite Hsplit.
    by rewrite <- (app_assoc (forward_loop n (seq 0 k))).
Qed.

(** ** The properties on the sample nets *)

Example sample_net_assembles :
  @Init plain (sample_param TEST sample_layers) = Ok sample_net.
Proof. vm_compute. reflexivity. Qed.

(** The examples of the specification for rule evaluation: against the
    stages {"test"}, a rule that requires stage "train" is not met and a
    rule that forbids it is. *)
Example requires_train_is_not_met :
  StateMeetsRule (NetParameter.state (sample_param TEST [])) needs_train "l"
  = false.
Proof. reflexivity. Qed.

Example forbids_train_is_met :
  StateMeetsRule (NetParameter.state (sample_param TEST [])) forbids_train "l"
  = true.
Proof. reflexivity. Qed.

Lemma StateMeetsRule_iff_witness :
  StateMeetsRule (NetParameter.state (sample_param TEST [])) forbids_train "l"
  = true ∧
  TEST = NetState.phase (NetParameter.state (sample_param TEST [])).
Proof.
  split; [reflexivity|].
  destruct (StateMeetsRule_iff (NetParameter.state (sample_param TEST []))
              forbids_train "l") as [Hmet _].
  destruct (Hmet eq_refl) as [Hphase _].
  exact (Hphase TEST eq_refl).
Defined.

Lemma FilterNet_spec_witness :
  (∃ lp, lp ∈ [ruled_layer "both" [needs_train] [forbids_train]] ∧
     FilterNet (sample_param TEST
                  [ruled_layer "both" [needs_train] [forbids_train]])
     = Fatal (IncludeAndExclude (LayerParameter.name lp))) ∧
  FilterNet (sample_param TEST ruled_layers)
  = Ok (sample_param TEST
          [ruled_layer "plain" [] [];
           ruled_layer "not-train" [forbids_train] [];
           ruled_layer "unless-train" [] [needs_train]]).
Proof.
  split.
  - destruct (FilterNet_spec
                (sample_param TEST
                   [ruled_layer "both" [needs_train] [forbids_train]]))
      as [Hfails _].
    destruct Hfails as (lp & Hin & _ & Heq & _).
    + apply Exists_cons_hd. split; discriminate.
    + exists lp. split; assumption.
  - destruct (FilterNet_spec (sample_param TEST ruled_layers)) as [_ Hkeeps].
    rewrite Hkeeps.
    + vm_compute. reflexivity.
    + apply (bool_decide_unpack _). vm_compute. exact I.
Defined.

(** The third sample layer asks for "x" after the second took it. *)
Lemma Init_rejects_unknown_and_duplicate_witness :
  (NetState.phase (NetParameter.state (sample_param TEST twice_consumed_layers))
   = TEST ∧
   ("x" ∉ available_blobs
            (@push_layer plain (sample_layer "b" "ReLU" ["x"] ["z"] [])
               (wiring_after 2 twice_consumed_layers))) ∧
   @Init plain (sample_param TEST twice_consumed_layers)
   = Fatal (UnknownBottomBlob "x" "b" 0)) ∧
  ("x" ∈ dom (blob_name_to_idx (wiring_after 2 twice_produced_layers)) ∧
   @Init plain (sample_param TEST twice_produced_layers)
   = Fatal (TopProducedByMultipleSources "x")).
Proof.
  split.
  - assert ("x" ∉ available_blobs
                    (@push_layer plain (sample_layer "b" "ReLU" ["x"] ["z"] [])
                       (wiring_after 2 twice_consumed_layers))) as Hgone.
    { apply (bool_decide_unpack _). vm_compute. exact I. }
    split; [reflexivity|]. split; [exact Hgone|].
    destruct (@Init_rejects_unknown_and_duplicate plain
                (sample_param TEST twice_consumed_layers)
                (sample_param TEST twice_consumed_layers)
                (take 2 twice_consumed_layers)
                (sample_layer "b" "ReLU" ["x"] ["z"] []) []
                (wiring_after 2 twice_consumed_layers))
      as [Hunknown _].
    + reflexivity.
    + vm_compute. reflexivity.
    + reflexivity.
    + vm_compute. reflexivity.
    + destruct (Hunknown 0 "x"
                  (@push_layer plain (sample_layer "b" "ReLU" ["x"] ["z"] [])
                     (wiring_after 2 twice_consumed_layers)))
        as [Hfatal _].
      * reflexivity.
      * reflexivity.
      * exact Hgone.
      * exact Hfatal.
  - assert ("x" ∈ dom (blob_name_to_idx (wiring_after 2 twice_produced_layers)))
      as Hbound.
    { apply (bool_decide_unpack _). vm_compute. exact I. }
    split; [exact Hbound|].
    destruct (@Init_rejects_unknown_and_duplicate plain
                (sample_param TEST twice_produced_layers)
                (sample_param TEST twice_produced_layers)
                (take 2 twice_produced_layers)
                (sample_layer "b" "ReLU" ["y"] ["x"] []) []
                (wiring_after 2 twice_produced_layers))
      as [_ Hduplicate].
    + reflexivity.
    + vm_compute. reflexivity.
    + reflexivity.
    + vm_compute. reflexivity.
    + destruct (Hduplicate 0 "x"
                  (value_of (wiring_after 2 twice_produced_layers)
                     (for_each
                        (AppendBottom (sample_layer "b" "ReLU" ["y"] ["x"] []) 2)
                        [0]
                        (@push_layer plain
                           (sample_layer "b" "ReLU" ["y"] ["x"] [])
                           (wiring_after 2 twice_produced_layers))))
                  (value_of (wiring_after 2 twice_produced_layers)
                     (for_each
                        (AppendBottom (sample_layer "b" "ReLU" ["y"] ["x"] []) 2)
                        [0]
                        (@push_layer plain
                           (sample_layer "b" "ReLU" ["y"] ["x"] [])
                           (wiring_after 2 twice_produced_layers)))))
        as [Hfatal _].
      * vm_compute. reflexivity.
      * reflexivity.
      * reflexivity.
      * discriminate.
      * apply (bool_decide_unpack _). vm_compute. exact I.
      * exact Hfatal.
Defined.

Lemma name_consumed_once_witness :
  "x" ∈ dom (blob_name_to_idx
               (@push_layer plain (sample_layer "b" "ReLU" ["x"] ["z"] [])
                  (wiring_after 2 twice_consumed_layers))) ∧
  @Init plain (sample_param TEST twice_consumed_layers)
  = Fatal (UnknownBottomBlob "x" "b" 0).
Proof.
  destruct (@name_consumed_once plain) as (_ & _ & Hsecond).
  destruct (Hsecond (sample_param TEST twice_consumed_layers)
              (sample_param TEST twice_consumed_layers)
              (take 1 twice_consumed_layers)
              (sample_layer "a" "ReLU" ["x"] ["y"] []) []
              (sample_layer "b" "ReLU" ["x"] ["z"] []) []
              (wiring_after 2 twice_consumed_layers) 0 "x"
              (@push_layer plain (sample_layer "b" "ReLU" ["x"] ["z"] [])
                 (wiring_after 2 twice_consumed_layers)))
    as (Hbound & Hfatal & _).
  - reflexivity.
  - vm_compute. reflexivity.
  - reflexivity.
  - apply (bool_decide_unpack _). vm_compute. exact I.
  - apply (bool_decide_unpack _). vm_compute. exact I.
  - intros lp Hlp. apply elem_of_nil in Hlp. destruct Hlp.
  - vm_compute. reflexivity.
  - reflexivity.
  - reflexivity.
  - split; [exact Hbound | exact Hfatal].
Defined.


Lemma in_place_top_reuses_blob_witness :
  (∃ brow trow blob_id,
     Net.bottom_id_vecs_ sample_net !! 2 = Some brow ∧
     Net.top_id_vecs_ sample_net !! 2 = Some trow ∧
     brow !! 0 = Some blob_id ∧
     trow !! 0 = Some blob_id ∧
     Net.blob_names_ sample_net !! blob_id = Some "x" ∧
     lives (Net.blob_life_time_ sample_net) blob_id (2 + 1)) ∧
  length (Net.blobs_ sample_net)
  = size (list_to_set (produced_not_in_place sample_layers) : gset string).
Proof.
  destruct (@in_place_top_reuses_blob plain (sample_param TEST sample_layers)
              (sample_param TEST sample_layers) sample_net)
    as (_ & Hreuse & _ & _ & Hcount).
  - vm_compute. reflexivity.
  - vm_compute. reflexivity.
  - split; [|exact Hcount].
    apply (Hreuse 2 (sample_layer "relu" "ReLU" ["x"] ["x"] []) 0 "x");
      reflexivity.
Defined.

Lemma lookup_of_unknown_name_witness :
  has_blob sample_net "nonexistent" = false ∧
  blob_by_name sample_net "nonexistent" = Fatal (UnknownBlobName "nonexistent").
Proof.
  destruct (@lookup_of_unknown_name plain (sample_param TEST sample_layers)
              sample_net) as [Hblob _].
  - vm_compute. reflexivity.
  - apply Hblob. apply (bool_decide_unpack _). vm_compute. exact I.
Defined.

(** The claim C2 as the specification has it fails: on the sample net,
    which has no blob "nonexistent" and no layer "nonexistent", the
    lookups by name end in a fatal error, not in a non-fatal
    not-found result. *)
Lemma lookup_by_unknown_name_is_fatal :
  @Init plain (sample_param TEST sample_layers) = Ok sample_net ∧
  ("nonexistent" ∉ Net.blob_names_ sample_net) ∧
  ("nonexistent" ∉ Net.layer_names_ sample_net) ∧
  is_fatal (blob_by_name sample_net "nonexistent") = true ∧
  is_fatal (layer_by_name sample_net "nonexistent") = true.
Proof.
  split; [vm_compute; reflexivity|].
  split; [apply (bool_decide_unpack _); vm_compute; exact I|].
  split; [apply (bool_decide_unpack _); vm_compute; exact I|].
  split; vm_compute; reflexivity.
Qed.

Lemma forward_releases_after_last_use_witness :
  ∃ calls,
    ForwardFromTo sample_net 0 (Z.of_nat (length (Net.layers_ sample_net)) - 1)
    = Ok calls ∧
    (∃ before released after,
       calls = before ++ LayerForward 3 :: (BlobRelease <$> released) ++ after ∧
       1 ∈ released ∧
       (after = [] ∨ ∃ rest, after = LayerForward 4 :: rest)) ∧
    (∀ before after,
       calls = before ++ LayerForward 3 :: after → BlobRelease 1 ∉ before).
Proof.
  destruct (@forward_releases_after_last_use plain
              (sample_param TEST sample_layers) [] sample_net sample_net)
    as (calls & Hcalls & Hreleased & Hvalid & _).
  - vm_compute. reflexivity.
  - reflexivity.
  - exists calls. split; [exact Hcalls|]. split.
    + apply (Hreleased 3 [1] 1).
      * vm_compute. reflexivity.
      * apply list_elem_of_here.
      * vm_compute. lia.
    + intros before after Heq. apply (Hvalid before 3 after [1] 1 Heq).
      * vm_compute. reflexivity.
      * apply list_elem_of_here.
Defined.

Lemma CopyTrainedLayersFrom_layer_witness :
  CopyTrainedLayersFrom sample_net (sample_param TEST [unknown_layer])
  = (Completed, sample_net) ∧
  (∃ n2 written,
     CopyTrainedLayersFrom sample_net
       (sample_param TEST [unknown_layer; fitting_fc])
     = (Completed, n2) ∧
     Net.layers_ n2 !! 3 = Some written ∧
     ∃ blob,
       Layer.blobs written !! 1 = Some blob ∧
       Blob.shape_ blob = [1%Z] ∧
       Blob.data_ blob = [10%Z]) ∧
  (∃ j0 n' written,
     j0 ≤ 1 ∧
     (CopyTrainedLayersFrom sample_net (sample_param TEST [late_match_fc])).1
     = Aborted (ShapeMismatch j0 "fc"
                  (BlobProto.shape
                     (LayerParameter.blobs late_match_fc !!! j0))
                  (Blob.shape_
                     (Layer.blobs (Net.layers_ sample_net !!! 3) !!! j0))) ∧
     (CopyTrainedLayersFrom sample_net (sample_param TEST [late_match_fc])).2
     = n' ∧
     Net.layers_ n' !! 3 = Some written ∧
     ∃ blob,
       Layer.blobs written !! 1 = Some blob ∧
       Blob.shape_ blob = [1%Z] ∧
       Blob.data_ blob = if decide (1 < j0) then [10%Z] else [6%Z]).
Proof.
  split; [|split].
  - destruct (CopyTrainedLayersFrom_layer sample_net sample_net
                (sample_param TEST []) (sample_param TEST [unknown_layer])
                unknown_layer) as (Hskip & _ & _).
    + reflexivity.
    + reflexivity.
    + apply Hskip. apply (bool_decide_unpack _). vm_compute. exact I.
  - destruct (CopyTrainedLayersFrom_layer sample_net sample_net
                (sample_param TEST [unknown_layer])
                (sample_param TEST [unknown_layer; fitting_fc])
                fitting_fc) as (_ & Hmatched & _).
    + reflexivity.
    + vm_compute. reflexivity.
    + destruct (Hmatched 3
                  (plain_layer
                     (sample_layer "fc" "InnerProduct" ["x"] ["out"]
                        [BlobProto.mk [1%Z] [5%Z];
                         BlobProto.mk [1%Z] [6%Z]])))
        as [_ Hcopy].
      * vm_compute. reflexivity.
      * intros j Hj. apply (bool_decide_unpack _).
        destruct j as [|[|[|j]]]; [vm_compute; exact I..|lia].
      * vm_compute. reflexivity.
      * reflexivity.
      * destruct Hcopy as (n2 & written & Hload & Hwritten & _ & Hblobs & _).
        { repeat constructor. }
        exists n2, written. split; [exact Hload|]. split; [exact Hwritten|].
        destruct (Hblobs 1 {| Blob.shape_ := [1%Z]; Blob.data_ := [6%Z] |}
                    (BlobProto.mk [1%Z] [10%Z]))
          as (blob & Hblob & Hshape & Hdata); [reflexivity..|].
        exists blob. split; [exact Hblob|]. split; [exact Hshape|exact Hdata].
  - destruct (CopyTrainedLayersFrom_layer sample_net sample_net
                (sample_param TEST []) (sample_param TEST [late_match_fc])
                late_match_fc) as (_ & Hmatched & _).
    + reflexivity.
    + reflexivity.
    + destruct (Hmatched 3
                  (plain_layer
                     (sample_layer "fc" "InnerProduct" ["x"] ["out"]
                        [BlobProto.mk [1%Z] [5%Z];
                         BlobProto.mk [1%Z] [6%Z]])))
        as [Hmismatch _].
      * vm_compute. reflexivity.
      * intros j Hj. apply (bool_decide_unpack _).
        destruct j as [|[|[|j]]]; [vm_compute; exact I..|lia].
      * vm_compute. reflexivity.
      * reflexivity.
      * destruct (Hmismatch 0 {| Blob.shape_ := [1%Z]; Blob.data_ := [5%Z] |}
                    (BlobProto.mk [3%Z] [1; 2; 3]%Z))
          as (j0 & target0 & source0 & n' & written & Hle & Ht0 & Hs0 & _
              & Hload & Hwritten & Hblobs & _).
        { reflexivity. }
        { reflexivity. }
        { discriminate. }
        exists j0, n', written. split; [lia|].
        rewrite Hload. simpl.
        rewrite (list_lookup_total_correct _ _ _ Hs0).
        assert (Layer.blobs (Net.layers_ sample_net !!! 3) !! j0 = Some target0)
          as Ht0' by exact Ht0.
        rewrite (list_lookup_total_correct _ _ _ Ht0').
        split; [reflexivity|]. split; [reflexivity|].
        split; [exact Hwritten|].
        destruct (Hblobs 1 {| Blob.shape_ := [1%Z]; Blob.data_ := [6%Z] |}
                    (BlobProto.mk [1%Z] [10%Z]))
          as (blob & Hblob & Hshape & Hdata); [reflexivity..|].
        exists blob. split; [exact Hblob|]. split; [exact Hshape|exact Hdata].
Defined.

(** The claim as the specification words it, pair by pair, does not
    hold: the second blob of the foreign "fc" has the shape of its
    target, and the load leaves the target with its data, since it has
    stopped at the first pair; and a foreign "fc" with one blob of the
    shape of its target is not copied either, since the load stops at
    the blob count, with an error that carries no shape. *)
Lemma load_leaves_matching_pair_after_mismatch :
  (Layer.blobs <$> Net.layers_ sample_net !! 3
   = Some [ {| Blob.shape_ := [1%Z]; Blob.data_ := [5%Z] |};
            {| Blob.shape_ := [1%Z]; Blob.data_ := [6%Z] |} ] ∧
   LayerParameter.blobs late_match_fc !! 1 = Some (BlobProto.mk [1%Z] [10%Z]) ∧
   (CopyTrainedLayersFrom sample_net (sample_param TEST [late_match_fc])).1
   = Aborted (ShapeMismatch 0 "fc" [3%Z] [1%Z]) ∧
   Layer.blobs
     <$> Net.layers_
           (CopyTrainedLayersFrom sample_net
              (sample_param TEST [late_match_fc])).2 !! 3
   = Some [ {| Blob.shape_ := [1%Z]; Blob.data_ := [5%Z] |};
            {| Blob.shape_ := [1%Z]; Blob.data_ := [6%Z] |} ]) ∧
  (NetParameter.layer foreign_param !! 1
   = Some (sample_layer "fc" "InnerProduct" [] [] [BlobProto.mk [1%Z] [9%Z]]) ∧
   (CopyTrainedLayersFrom sample_net foreign_param).1
   = Aborted (IncompatibleNumberOfBlobs "fc") ∧
   Layer.blobs
     <$> Net.layers_ (CopyTrainedLayersFrom sample_net foreign_param).2 !! 3
   = Some [ {| Blob.shape_ := [1%Z]; Blob.data_ := [5%Z] |};
            {| Blob.shape_ := [1%Z]; Blob.data_ := [6%Z] |} ]).
Proof.
  split.
  - split; [vm_compute; reflexivity|].
    split; [vm_compute; reflexivity|].
    split; vm_compute; reflexivity.
  - split; [vm_compute; reflexivity|].
    split; vm_compute; reflexivity.
Qed.

Lemma CopyTrainedLayersFrom_count_mismatch_witness :
  ∃ e n',
    CopyTrainedLayersFrom sample_net foreign_param = (Aborted e, n') ∧
    error_class e = WeightMismatchError ∧
    Net.layer_names_ n' = Net.layer_names_ sample_net ∧
    Net.layers_ n' !! 0 = Net.layers_ sample_net !! 0 ∧
    Net.layers_ n' !! 2 = Net.layers_ sample_net !! 2 ∧
    Net.layers_ n' !! 3 = Net.layers_ sample_net !! 3.
Proof.
  destruct (CopyTrainedLayersFrom_count_mismatch sample_net foreign_param
              [sample_layer "conv" "Convolution" [] []
                 [BlobProto.mk [2%Z] [7; 8]%Z]]
              (sample_layer "fc" "InnerProduct" [] [] [BlobProto.mk [1%Z] [9%Z]])
              [] 3)
    as (e & n' & Hload & Hclass & _ & Hnames & Hframe).
  - reflexivity.
  - vm_compute. reflexivity.
  - intros j Hj. apply (bool_decide_unpack _).
    destruct j as [|[|[|j]]]; [vm_compute; exact I..|lia].
  - vm_compute. lia.
  - exists e, n'. split; [exact Hload|]. split; [exact Hclass|].
    split; [exact Hnames|].
    split; [|split].
    + apply (Hframe 0 "in"); [vm_compute; reflexivity|].
      apply (bool_decide_unpack _). vm_compute. exact I.
    + apply (Hframe 2 "relu"); [vm_compute; reflexivity|].
      apply (bool_decide_unpack _). vm_compute. exact I.
    + apply (Hframe 3 "fc"); [vm_compute; reflexivity|].
      apply (bool_decide_unpack _). vm_compute. exact I.
Defined.

(** The claim C1 as the specification has it fails: the foreign "fc"
    has one blob where the net's "fc" has two, the load stops with the
    blob-count error, and by then the layer "conv", which is not the
    mismatching one, has been overwritten with the foreign data.  And
    in a net with two layers named "fc", the foreign "fc" is checked
    against the first only: the second has another blob count and the
    load completes. *)
Lemma load_writes_before_count_mismatch :
  ((CopyTrainedLayersFrom sample_net foreign_param).1
   = Aborted (IncompatibleNumberOfBlobs "fc") ∧
   Net.layer_names_ sample_net !! 1 = Some "conv" ∧
   Layer.blobs <$> Net.layers_ sample_net !! 1
   = Some [ {| Blob.shape_ := [2%Z]; Blob.data_ := [0; 0]%Z |} ] ∧
   Layer.blobs
     <$> Net.layers_ (CopyTrainedLayersFrom sample_net foreign_param).2 !! 1
   = Some [ {| Blob.shape_ := [2%Z]; Blob.data_ := [7; 8]%Z |} ]) ∧
  (@Init plain (sample_param TEST twin_layers) = Ok twin_net ∧
   Net.layer_names_ twin_net !! 2 = Some "fc" ∧
   (length ∘ Layer.blobs) <$> Net.layers_ twin_net !! 2 = Some 2 ∧
   (CopyTrainedLayersFrom twin_net twin_foreign).1 = Completed).
Proof.
  split.
  - split; [vm_compute; reflexivity|].
    split; [vm_compute; reflexivity|].
    split; vm_compute; reflexivity.
  - split; [vm_compute; reflexivity|].
    split; [vm_compute; reflexivity|].
    split; vm_compute; reflexivity.
Qed.

Example misshapen_fc_aborts :
  (CopyTrainedLayersFrom_loop [misshapen_fc] sample_net).1
  = Aborted (ShapeMismatch 1 "fc" [3%Z] [1%Z]).
Proof. vm_compute. reflexivity. Qed.

Example sample_forward_pass :
  ForwardFrom sample_net 0
  = Ok [LayerForward 0; LayerForward 1; LayerForward 2; LayerForward 3;
        BlobRelease 1].
Proof. vm_compute. reflexivity. Qed.

(** * Further properties *)

(** ** Ranges of the forward pass *)

Lemma layer_runs_app calls1 calls2 :
  layer_runs (calls1 ++ calls2) = layer_runs calls1 ++ layer_runs calls2.
Proof. apply omap_app. Qed.

Lemma releases_app calls1 calls2 :
  releases (calls1 ++ calls2) = releases calls1 ++ releases calls2.
Proof. apply omap_app. Qed.

Lemma layer_runs_release_loop n i bottom_ids :
  layer_runs (release_loop n i bottom_ids) = [].
Proof.
  induction bottom_ids as [|b bottom_ids IH]; simpl; [done|].
  by case_bool_decide.
Qed.

Lemma releases_cons_release b calls :
  releases (BlobRelease b :: calls) = b :: releases calls.
Proof. done. Qed.

Lemma releases_release_loop n i bottom_ids :
  releases (release_loop n i bottom_ids)
  = filter (λ b, Net.blob_life_time_ n !!! b ≤ i) bottom_ids.
Proof.
  induction bottom_ids as [|b bottom_ids IH]; simpl; [done|].
  rewrite filter_cons. case_bool_decide.
  - rewrite decide_True by done. by rewrite releases_cons_release, IH.
  - by rewrite decide_False by done.
Qed.

Lemma layer_runs_forward_loop n ids : layer_runs (forward_loop n ids) = ids.
Proof.
  induction ids as [|i ids IH]; [done|].
  change (forward_loop n (i :: ids))
    with ([LayerForward i]
          ++ release_loop n i (Net.bottom_id_vecs_ n !!! i)
          ++ forward_loop n ids).
  rewrite !layer_runs_app, layer_runs_release_loop, IH. done.
Qed.

Lemma releases_forward_loop_cons n i ids :
  releases (forward_loop n (i :: ids))
  = filter (λ b, Net.blob_life_time_ n !!! b ≤ i) (Net.bottom_id_vecs_ n !!! i)
    ++ releases (forward_loop n ids).
Proof.
  change (forward_loop n (i :: ids))
    with ([LayerForward i]
          ++ release_loop n i (Net.bottom_id_vecs_ n !!! i)
          ++ forward_loop n ids).
  by rewrite !releases_app, releases_release_loop.
Qed.

Lemma elem_of_releases calls b : b ∈ releases calls ↔ BlobRelease b ∈ calls.
Proof.
  unfold releases. rewrite list_elem_of_omap. split.
  - intros ([i|b'] & Hin & Heq); [done|]. by injection Heq as ->.
  - intros Hin. by exists (BlobRelease b).
Qed.

(** A blob released by the loop is an input of one of the layers run,
    and its life time is over at that layer. *)
Lemma releases_forward_loop_inv n ids b :
  b ∈ releases (forward_loop n ids) →
  ∃ i row, i ∈ ids ∧ Net.bottom_id_vecs_ n !! i = Some row ∧ b ∈ row ∧
    Net.blob_life_time_ n !!! b ≤ i.
Proof.
  induction ids as [|i ids IH]; [by intros ?%elem_of_nil|].
  rewrite releases_forward_loop_cons.
  intros [Hhere|Hlater]%elem_of_app.
  - apply list_elem_of_filter in Hhere as [Hlife Hb].
    rewrite list_lookup_total_alt in Hb.
    destruct (Net.bottom_id_vecs_ n !! i) as [row|] eqn:Hrow; simpl in Hb.
    + exists i, row. split; [left|]. done.
    + by apply elem_of_nil in Hb.
  - destruct (IH Hlater) as (j & row & Hj & ? & ? & ?).
    exists j, row. split; [by right|]. done.
Qed.

Lemma ForwardFromTo_inv n start end_ calls :
  ForwardFromTo n start end_ = Ok calls →
  (0 ≤ start)%Z ∧
  (to_size_t end_ < Z.of_nat (length (Net.layers_ n)))%Z ∧
  calls = forward_loop n (seq (Z.to_nat start) (Z.to_nat (end_ - start + 1))).
Proof.
  unfold ForwardFromTo. case_bool_decide as Hs; [done|].
  case_bool_decide as He; [done|]. intros [= <-].
  split; [lia|]. split; [|done].
  by destruct (decide (to_size_t end_ < Z.of_nat (length (Net.layers_ n)))%Z).
Qed.

Lemma ForwardFromTo_in_range n start end_ :
  (0 ≤ start)%Z →
  (0 ≤ end_ < Z.of_nat (length (Net.layers_ n)))%Z →
  ForwardFromTo n start end_
  = Ok (forward_loop n (seq (Z.to_nat start) (Z.to_nat (end_ - start + 1)))).
Proof.
  intros Hs He. unfold ForwardFromTo.
  rewrite bool_decide_eq_false_2 by lia.
  rewrite bool_decide_eq_false_2; [done|].
  intros Hnot. apply Hnot. unfold to_size_t.
  pose proof (Z.mod_le end_ (2 ^ 64)). lia.
Qed.

(** X1. [ForwardFromTo] stops at its first check when [start] is
    negative and at its second when [end] is not below the number of
    layers; for a range within the layers it runs exactly the layers
    [start], ..., [end], in this order and each once: none when [start]
    is past [end]. *)
Theorem ForwardFromTo_runs (n : Net) (start end_ : Z) :
  ((start < 0)%Z → ForwardFromTo n start end_ = Fatal ForwardStartNegative) ∧
  ((0 ≤ start)%Z →
   (Z.of_nat (length (Net.layers_ n)) ≤ end_ < 2 ^ 64)%Z →
   ForwardFromTo n start end_ = Fatal ForwardEndPastLastLayer) ∧
  ((0 ≤ start)%Z →
   (0 ≤ end_ < Z.of_nat (length (Net.layers_ n)))%Z →
   ∃ calls,
     ForwardFromTo n start end_ = Ok calls ∧
     layer_runs calls = seq (Z.to_nat start) (Z.to_nat (end_ - start + 1)) ∧
     ((end_ < start)%Z → calls = [])).
Proof.
  split; [|split].
  - intros Hs. unfold ForwardFromTo. by rewrite bool_decide_eq_true_2.
  - intros Hs He. unfold ForwardFromTo.
    rewrite bool_decide_eq_false_2 by lia.
    rewrite bool_decide_eq_true_2; [done|].
    unfold to_size_t. rewrite Z.mod_small; lia.
  - intros Hs He. rewrite ForwardFromTo_in_range by done.
    eexists. split; [done|]. split; [apply layer_runs_forward_loop|].
    intros Hlt. by replace (Z.to_nat (end_ - start + 1)) with 0 by lia.
Qed.



(** X3. Two passes over adjoining ranges make the calls of one pass over
    the whole range. *)
Theorem ForwardFromTo_adjoining (n : Net) (start mid end_ : Z)
    (calls1 calls2 : list call) :
  (start ≤ mid + 1)%Z →
  (mid ≤ end_)%Z →
  ForwardFromTo n start mid = Ok calls1 →
  ForwardFromTo n (mid + 1) end_ = Ok calls2 →
  ForwardFromTo n start end_ = Ok (calls1 ++ calls2).
Proof.
  intros Hsm Hme H1 H2.
  apply ForwardFromTo_inv in H1 as (Hs & _ & ->).
  apply ForwardFromTo_inv in H2 as (_ & He & ->).
  unfold ForwardFromTo.
  rewrite bool_decide_eq_false_2 by lia.
  rewrite bool_decide_eq_false_2 by (intros Hnot; by apply Hnot).
  rewrite <- forward_loop_app. do 2 f_equal.
  replace (Z.to_nat (end_ - start + 1))
    with (Z.to_nat (mid - start + 1) + Z.to_nat (end_ - (mid + 1) + 1)) by lia.
  rewrite seq_app. do 2 f_equal. lia.
Qed.

Lemma ForwardFrom_last n start :
  (1 ≤ Z.of_nat (length (Net.layers_ n)) < 2 ^ 31)%Z →
  ForwardFrom n start
  = ForwardFromTo n start (Z.of_nat (length (Net.layers_ n)) - 1).
Proof.
  intros Hn. unfold ForwardFrom, to_int, to_size_t.
  rewrite (Z.mod_small (_ - 1)) by lia.
  rewrite Z.mod_small by lia. f_equal. lia.
Qed.

(** X4. On a net with at least one layer (and fewer than 2^31),
    [ForwardFrom start] is the pass from [start] to the last layer: for
    [start] within the layers it runs exactly the layers from [start]
    on; and [ForwardTo] of the last layer is [ForwardFrom 0]. *)
Theorem ForwardFrom_runs_to_the_end (n : Net) (start : Z) :
  (1 ≤ Z.of_nat (length (Net.layers_ n)) < 2 ^ 31)%Z →
  ForwardFrom n start
  = ForwardFromTo n start (Z.of_nat (length (Net.layers_ n)) - 1) ∧
  ForwardTo n (Z.of_nat (length (Net.layers_ n)) - 1) = ForwardFrom n 0 ∧
  ((0 ≤ start)%Z →
   ∃ calls,
     ForwardFrom n start = Ok calls ∧
     layer_runs calls
     = seq (Z.to_nat start) (length (Net.layers_ n) - Z.to_nat start)).
Proof.
  intros Hn. split; [by apply ForwardFrom_last|]. split.
  - unfold ForwardTo. by rewrite ForwardFrom_last.
  - intros Hs. rewrite ForwardFrom_last, ForwardFromTo_in_range by lia.
    eexists. split; [done|]. rewrite layer_runs_forward_loop.
    f_equal. lia.
Qed.

(** ** The life times kept by the wiring *)

Lemma outlives_readers_push bottom_id_vecs life life' j x b :
  outlives_readers bottom_id_vecs life b →
  b ≠ x →
  (∀ t, lives life b t → lives life' b t) →
  outlives_readers (push_back_at j x bottom_id_vecs) life' b.
Proof.
  intros Hout Hne Hmono i row Hrow Hb. apply Hmono.
  unfold push_back_at in Hrow. rewrite list_lookup_alter in Hrow.
  case_decide as Hij.
  - subst i. destruct (bottom_id_vecs !! j) as [row0|] eqn:Hrow0; [|done].
    injection Hrow as <-.
    apply elem_of_app in Hb as [Hb|Hb%list_elem_of_singleton]; [|done].
    by eapply Hout.
  - by eapply Hout.
Qed.

Lemma ends_at_reader_push bottom_id_vecs life life' j x b :
  ends_at_reader bottom_id_vecs life b →
  life' !! b = life !! b →
  ends_at_reader (push_back_at j x bottom_id_vecs) life' b.
Proof.
  intros (i & row & Hrow & Hb & Hlife) Hsame.
  destruct (decide (j = i)) as [->|Hne].
  - exists i, (row ++ [x]). split; [by apply push_back_at_row|].
    split; [apply elem_of_app; by left|]. by rewrite Hsame.
  - exists i, row. split; [by rewrite push_back_at_other|].
    split; [done|]. by rewrite Hsame.
Qed.

Lemma tracked_mono hi hi' w : hi ≤ hi' → tracked hi w → tracked hi' w.
Proof.
  intros Hle Ht. constructor; try apply Ht.
  intros b t Hb. pose proof (tracked_bound _ _ Ht b t Hb). lia.
Qed.

Lemma tracked_start param : tracked 0 (Init_start param).
Proof.
  constructor; simpl; try done.
  - intros i row Hrow. apply lookup_replicate in Hrow as [-> _].
    constructor.
Qed.

(** A state that differs from a tracked one only outside what the
    invariant reads. *)
Lemma tracked_same hi w w' :
  Net.blob_life_time_ (net w') = Net.blob_life_time_ (net w) →
  Net.bottom_id_vecs_ (net w') = Net.bottom_id_vecs_ (net w) →
  Net.net_output_blob_indices_ (net w') = Net.net_output_blob_indices_ (net w) →
  available_blobs w' = available_blobs w →
  blob_name_to_idx w' = blob_name_to_idx w →
  tracked hi w → tracked hi w'.
Proof.
  intros H1 H2 H3 H4 H5 Ht.
  constructor; rewrite ?H1, ?H2, ?H3, ?H4, ?H5; apply Ht.
Qed.

Lemma Init_params_outputs layer_id w :
  Net.net_output_blob_indices_ (net (Init_params layer_id w))
  = Net.net_output_blob_indices_ (net w).
Proof.
  unfold Init_params. simpl.
  generalize (seq 0 (length (Layer.blobs
                               (Net.layers_ (net w) !!! layer_id)))).
  intros ids. generalize (net w).
  induction ids as [|i ids IH]; intros n0; simpl; [done|].
  by rewrite IH.
Qed.

Section life_times.
Context {collaborators : Collaborators}.

Lemma tracked_push hi lp w : tracked hi w → tracked hi (push_layer lp w).
Proof. by apply tracked_same. Qed.

Lemma tracked_Init_params hi layer_id w :
  tracked hi w → tracked hi (Init_params layer_id w).
Proof.
  apply tracked_same; try done.
  - apply (Init_params_same layer_id w).
  - apply (Init_params_same layer_id w).
  - apply Init_params_outputs.
Qed.

(** The rows after the layer in progress are empty. *)
Lemma wired_reader_index total done cur w i row b :
  wired total (done ++ [cur]) w →
  Net.bottom_id_vecs_ (net w) !! i = Some row →
  b ∈ row →
  i ≤ length done.
Proof.
  intros Hw Hrow Hb.
  destruct (decide (i ≤ length done)) as [|Hgt]; [done|]. exfalso.
  apply lookup_lt_Some in Hrow as Hlt.
  rewrite (wired_bvecs _ _ _ Hw) in Hlt.
  destruct (wired_rest _ _ _ Hw i) as [Hempty _]; [|done|].
  - rewrite length_app. simpl. lia.
  - rewrite Hrow in Hempty. injection Hempty as ->.
    by apply elem_of_nil in Hb.
Qed.

Lemma wired_idx_injective total ls w name1 name2 b :
  wired total ls w →
  blob_name_to_idx w !! name1 = Some b →
  blob_name_to_idx w !! name2 = Some b →
  name1 = name2.
Proof.
  intros Hw H1 H2. apply (wired_idx _ _ _ Hw) in H1, H2. congruence.
Qed.

Lemma tracked_bottom total done lp k name w w' :
  wired total (done ++ [partial_layer lp k 0]) w →
  tracked (length done) w →
  LayerParameter.bottom lp !! k = Some name →
  AppendBottom lp (length done) k w = Ok w' →
  tracked (length done) w'.
Proof.
  intros Hw Ht Hname Hstep.
  destruct (wired_current_row _ _ _ _ Hw)
    as (brow & trow & Hb & _ & _ & _ & _).
  unfold AppendBottom in Hstep.
  rewrite (list_lookup_total_correct _ _ _ Hname) in Hstep.
  case_bool_decide as Hav; [done|].
  assert (name ∈ available_blobs w) as Hin.
  { destruct (decide (name ∈ available_blobs w)); [done | by exfalso]. }
  destruct (tracked_available _ _ Ht name Hin) as (b & Hidx & Hout).
  unfold map_subscript in Hstep. rewrite Hidx in Hstep. simpl in Hstep.
  injection Hstep as <-.
  assert (b < length (Net.blob_life_time_ (net w))) as Hrange
    by (by eapply wired_id_in_range).
  destruct (lookup_lt_is_Some_2 _ _ Hrange) as [t Hlife].
  pose proof (tracked_bound _ _ Ht b t Hlife) as Hbound.
  assert (b ∉ brow) as Hfresh.
  { intros Hbrow. destruct (Hout _ _ Hb Hbrow) as (t' & Ht' & Hle).
    rewrite Hlife in Ht'. injection Ht' as <-. lia. }
  constructor; simpl.
  - intros name0 Hin0. apply elem_of_difference in Hin0 as [Hin0 Hne].
    destruct (tracked_available _ _ Ht name0 Hin0) as (b0 & Hidx0 & Hout0).
    exists b0. split; [done|].
    apply (outlives_readers_push _ (Net.blob_life_time_ (net w))); [done| |].
    + intros ->. apply Hne. apply elem_of_singleton.
      by eapply wired_idx_injective.
    + intros t0. apply lives_alter_mono. lia.
  - intros name0 b0 Hidx0 Hnot.
    destruct (decide (name0 = name)) as [->|Hne].
    + assert (b0 = b) as -> by congruence.
      exists (length done), (brow ++ [b]).
      split; [by apply push_back_at_row|].
      split; [apply elem_of_app; right; by apply list_elem_of_singleton|].
      rewrite list_lookup_alter_eq, Hlife. simpl. f_equal. lia.
    + assert (name0 ∉ available_blobs w) as Hnot0.
      { intros Hin0. apply Hnot. apply elem_of_difference. split; [done|].
        by intros ?%elem_of_singleton. }
      apply (ends_at_reader_push _ (Net.blob_life_time_ (net w)));
        [by eapply tracked_taken|].
      apply list_lookup_alter_ne. intros ->. apply Hne.
      by eapply wired_idx_injective.
  - intros b0 t0 Hb0. rewrite list_lookup_alter in Hb0.
    case_decide as Heq.
    + subst b0. rewrite Hlife in Hb0. simpl in Hb0. injection Hb0 as <-. lia.
    + by eapply tracked_bound.
  - intros i row Hrow. unfold push_back_at in Hrow.
    rewrite list_lookup_alter in Hrow. case_decide as Heq.
    + subst i. rewrite Hb in Hrow. simpl in Hrow. injection Hrow as <-.
      apply NoDup_app. split; [by eapply tracked_NoDup|].
      split; [|apply NoDup_singleton].
      intros x Hx ->%list_elem_of_singleton. done.
    + by eapply tracked_NoDup.
  - apply Ht.
Qed.

Lemma tracked_AppendTop total done lp k name w w' :
  wired total
    (done ++ [partial_layer lp (length (LayerParameter.bottom lp)) k]) w →
  tracked (length done + 1) w →
  LayerParameter.top lp !! k = Some name →
  AppendTop lp (length done) k w = Ok w' →
  tracked (length done + 1) w'.
Proof.
  intros Hw Ht Hname Hstep.
  assert (∀ i row b, Net.bottom_id_vecs_ (net w) !! i = Some row → b ∈ row →
                     i + 1 ≤ length done + 1) as Hreader.
  { intros i row b Hrow Hb.
    pose proof (wired_reader_index _ _ _ _ _ _ _ Hw Hrow Hb). lia. }
  unfold AppendTop in Hstep.
  rewrite (top_blob_name_lookup _ _ _ Hname) in Hstep.
  destruct (in_place lp k) eqn:Hip.
  - unfold map_subscript in Hstep.
    destruct (blob_name_to_idx w !! name) as [b|] eqn:Hidx.
    + simpl in Hstep. injection Hstep as <-.
      assert (b < length (Net.blob_life_time_ (net w))) as Hrange
        by (by eapply wired_id_in_range).
      constructor; simpl.
      * intros name0 Hin0. apply elem_of_union in Hin0 as [Hin0|Hin0].
        -- apply elem_of_singleton in Hin0 as ->. exists b. split; [done|].
           intros i row Hrow Hb. apply lives_alter_at; [done|].
           intros x. specialize (Hreader _ _ _ Hrow Hb). lia.
        -- destruct (tracked_available _ _ Ht name0 Hin0)
             as (b0 & Hidx0 & Hout0).
           exists b0. split; [done|]. intros i row Hrow Hb.
           apply lives_alter_mono; [lia|]. by eapply Hout0.
      * intros name0 b0 Hidx0 Hnot.
        assert (name0 ≠ name) as Hne.
        { intros ->. apply Hnot. apply elem_of_union. left.
          by apply elem_of_singleton. }
        assert (name0 ∉ available_blobs w) as Hnot0.
        { intros Hin0. apply Hnot. apply elem_of_union. by right. }
        destruct (tracked_taken _ _ Ht name0 b0 Hidx0 Hnot0)
          as (i & row & Hrow & Hb & Hlife).
        exists i, row. split; [done|]. split; [done|].
        rewrite list_lookup_alter_ne; [done|].
        intros ->. apply Hne. by eapply wired_idx_injective.
      * intros b0 t0 Hb0. rewrite list_lookup_alter in Hb0.
        case_decide as Heq.
        -- subst b0. destruct (lookup_lt_is_Some_2 _ _ Hrange) as [t Hlife].
           rewrite Hlife in Hb0. simpl in Hb0. injection Hb0 as <-.
           pose proof (tracked_bound _ _ Ht b t Hlife). lia.
        -- by eapply tracked_bound.
      * apply Ht.
      * apply Ht.
    + exfalso. apply (in_place_iff _ _ _ Hname) in Hip.
      destruct (wired_current_row _ _ _ _ Hw)
        as (brow & trow & _ & _ & Hbr & _ & _).
      simpl in Hbr. rewrite firstn_all in Hbr.
      destruct (Forall2_lookup_r _ _ _ _ _ Hbr Hip) as (b & _ & Hb & _).
      congruence.
  - case_bool_decide as Hdup; [done|]. injection Hstep as <-.
    assert (blob_name_to_idx w !! name = None) as Hfresh.
    { destruct (blob_name_to_idx w !! name) eqn:E; [|done].
      exfalso. apply Hdup. eauto. }
    constructor; simpl.
    + intros name0 Hin0. apply elem_of_union in Hin0 as [Hin0|Hin0].
      * apply elem_of_singleton in Hin0 as ->.
        exists (length (Net.blobs_ (net w))).
        split; [by apply lookup_insert_eq|].
        intros i row Hrow Hb.
        rewrite (wired_blobs _ _ _ Hw), <- (wired_life _ _ _ Hw).
        apply lives_app_new. by eapply Hreader.
      * destruct (tracked_available _ _ Ht name0 Hin0)
          as (b0 & Hidx0 & Hout0).
        exists b0. split.
        -- rewrite lookup_insert_ne; [done|]. intros ->. congruence.
        -- intros i row Hrow Hb. apply lives_app. by eapply Hout0.
    + intros name0 b0 Hidx0 Hnot.
      assert (name0 ≠ name) as Hne.
      { intros ->. apply Hnot. apply elem_of_union. left.
        by apply elem_of_singleton. }
      assert (name0 ∉ available_blobs w) as Hnot0.
      { intros Hin0. apply Hnot. apply elem_of_union. by right. }
      rewrite lookup_insert_ne in Hidx0 by done.
      destruct (tracked_taken _ _ Ht name0 b0 Hidx0 Hnot0)
        as (i & row & Hrow & Hb & Hlife).
      exists i, row. split; [done|]. split; [done|].
      by apply lookup_app_l_Some.
    + intros b0 t0 Hb0. apply lookup_app_Some in Hb0 as [Hb0|[_ Hb0]].
      * by eapply tracked_bound.
      * apply list_lookup_singleton_Some in Hb0 as [_ <-]. lia.
    + apply Ht.
    + apply Ht.
Qed.

Lemma collect_input_outputs lp n :
  Net.net_output_blob_indices_ (collect_input lp n)
  = Net.net_output_blob_indices_ n.
Proof. unfold collect_input. by case_bool_decide. Qed.

Lemma tracked_top total done lp k name w w' :
  wired total
    (done ++ [partial_layer lp (length (LayerParameter.bottom lp)) k]) w →
  tracked (length done + 1) w →
  LayerParameter.top lp !! k = Some name →
  Init_top lp (length done) k w = Ok w' →
  tracked (length done + 1) w'.
Proof.
  intros Hw Ht Hname. unfold Init_top.
  destruct (AppendTop lp (length done) k w) as [w1|] eqn:Hstep; [|done].
  simpl. intros [= <-].
  pose proof (tracked_AppendTop _ _ _ _ _ _ _ Hw Ht Hname Hstep) as Ht1.
  pose proof (collect_input_same lp (net w1)) as Hsame.
  eapply tracked_same; [| | | | |exact Ht1]; simpl; try done.
  - apply Hsame.
  - apply Hsame.
  - apply collect_input_outputs.
Qed.

Lemma tracked_Init_layer total done lp w w' :
  wired total done w →
  length done < total →
  tracked (length done) w →
  Init_layer lp (length done) w = Ok w' →
  tracked (length done + 1) w'.
Proof.
  intros Hw Hlt Ht Hl.
  apply Init_layer_inv in Hl as (w1 & w2 & Hb & Htop & ->).
  apply tracked_Init_params.
  assert (wired total
            (done ++ [partial_layer lp (length (LayerParameter.bottom lp)) 0])
            w1 ∧ tracked (length done) w1) as [Hw1 Ht1].
  { revert Hb.
    apply (for_each_seq_invariant
             (λ k s, wired total (done ++ [partial_layer lp k 0]) s
                     ∧ tracked (length done) s)).
    - split; [by apply wired_push | by apply tracked_push].
    - intros k s s' Hk [Hs Hts] Hstep.
      destruct (lookup_lt_is_Some_2 _ _ Hk) as [name Hname].
      split; [by eapply wired_bottom | by eapply tracked_bottom]. }
  assert (wired total
            (done ++ [partial_layer lp (length (LayerParameter.bottom lp))
                        (length (LayerParameter.top lp))]) w2
          ∧ tracked (length done + 1) w2) as [_ Ht2]; [|done].
  revert Htop.
  apply (for_each_seq_invariant
           (λ k s, wired total
                     (done ++ [partial_layer lp
                                 (length (LayerParameter.bottom lp)) k]) s
                   ∧ tracked (length done + 1) s)).
  - split; [done|]. eapply tracked_mono; [|done]. lia.
  - intros k s s' Hk [Hs Hts] Hstep.
    destruct (lookup_lt_is_Some_2 _ _ Hk) as [name Hname].
    split; [by eapply wired_top | by eapply tracked_top].
Qed.

Lemma tracked_Init_layers total done ls w w' :
  wired total done w →
  length done + length ls ≤ total →
  tracked (length done) w →
  Init_layers (length done) ls w = Ok w' →
  tracked (length done + length ls) w'.
Proof.
  revert done w. induction ls as [|lp ls IH]; intros done w Hw Hlen Ht; simpl.
  - intros [= <-]. by rewrite Nat.add_0_r.
  - destruct (Init_layer lp (length done) w) as [w1|] eqn:Hl; [|done].
    simpl. intros Hrest. simpl in Hlen.
    assert (length done + S (length ls) = length (done ++ [lp]) + length ls)
      as -> by (rewrite length_app; simpl; lia).
    apply (IH (done ++ [lp]) w1).
    + eapply wired_Init_layer; [done | lia | done].
    + rewrite length_app. simpl. lia.
    + rewrite length_app. simpl.
      eapply tracked_Init_layer; [done | lia | done | done].
    + rewrite length_app. simpl.
      by replace (length done + 1) with (S (length done)) by lia.
Qed.

Lemma Init_wire_tracked param w :
  Init_wire param = Ok w →
  tracked (length (NetParameter.layer param)) w.
Proof.
  intros Hwire.
  apply (tracked_Init_layers (length (NetParameter.layer param)) []
           (NetParameter.layer param) (Init_start param));
    [apply wired_start | simpl; lia | apply tracked_start | done].
Qed.

End life_times.

(** ** The life times of the assembled net *)

Lemma hold_length (top : nat) (life : list nat) (ids : list nat) :
  length (foldl (λ life blob_id, <[blob_id := top]> life) life ids)
  = length life.
Proof.
  revert life. induction ids as [|b ids IH]; intros life; simpl; [done|].
  by rewrite IH, length_insert.
Qed.

Lemma hold_cases (top : nat) (life : list nat) (ids : list nat) b t :
  foldl (λ life blob_id, <[blob_id := top]> life) life ids !! b = Some t →
  t = top ∨ life !! b = Some t.
Proof.
  revert life. induction ids as [|b' ids IH]; intros life; simpl; [by right|].
  intros [->|Hb]%IH; [by left|].
  apply list_lookup_insert_Some in Hb as [(_ & <- & _)|[_ Hb]]; [by left | by right].
Qed.

Lemma hold_other (top : nat) (life : list nat) (ids : list nat) b :
  b ∉ ids →
  foldl (λ life blob_id, <[blob_id := top]> life) life ids !! b = life !! b.
Proof.
  revert life. induction ids as [|b' ids IH]; intros life Hb; simpl; [done|].
  apply not_elem_of_cons in Hb as [Hne Hb].
  rewrite IH by done. by apply list_lookup_insert_ne.
Qed.

Lemma hold_in (top : nat) (life : list nat) (ids : list nat) b :
  b ∈ ids → b < length life →
  foldl (λ life blob_id, <[blob_id := top]> life) life ids !! b = Some top.
Proof.
  revert life. induction ids as [|b' ids IH]; intros life Hb Hlt; simpl.
  - by apply elem_of_nil in Hb.
  - destruct (decide (b ∈ ids)) as [Hin|Hnot].
    + apply IH; [done|]. by rewrite length_insert.
    + apply elem_of_cons in Hb as [->|Hb]; [|done].
      rewrite hold_other by done. by apply list_lookup_insert_eq.
Qed.

(** The ids the loop over the available names collects. *)
Lemma collect_outputs_loop (index : gmap string nat) names ids :
  (∀ name, name ∈ names → is_Some (index !! name)) →
  foldl (λ acc blob_name,
           let ix := map_subscript acc.2 blob_name in
           (acc.1 ++ [ix.1], ix.2))
    (ids, index) names
  = (ids ++ ((λ name, default 0 (index !! name)) <$> names), index).
Proof.
  revert ids. induction names as [|name names IH]; intros ids Hin; simpl.
  - by rewrite app_nil_r.
  - destruct (Hin name) as [b Hb]; [apply elem_of_cons; by left|].
    assert (map_subscript index name = (b, index)) as ->
      by (unfold map_subscript; by rewrite Hb).
    simpl. rewrite IH.
    + by rewrite <- app_assoc, Hb.
    + intros name' Hin'. apply Hin. apply elem_of_cons. by right.
Qed.

Lemma elem_of_set_in_order (s : gset string) name :
  name ∈ set_in_order s ↔ name ∈ s.
Proof.
  unfold set_in_order. rewrite merge_sort_Permutation. apply elem_of_elements.
Qed.

Lemma collect_outputs_ids w b :
  available_blobs w ⊆ dom (blob_name_to_idx w) →
  Net.net_output_blob_indices_ (net w) = [] →
  b ∈ Net.net_output_blob_indices_ (collect_outputs w) ↔
  ∃ name, name ∈ available_blobs w ∧ blob_name_to_idx w !! name = Some b.
Proof.
  intros Hsub Hnone. unfold collect_outputs. simpl.
  rewrite Hnone, collect_outputs_loop; simpl.
  - rewrite list_elem_of_fmap. split.
    + intros (name & -> & Hin%elem_of_set_in_order). exists name.
      split; [done|].
      apply Hsub, elem_of_dom in Hin as Hsome. destruct Hsome as [b' ->].
      done.
    + intros (name & Hin & Hb). exists name.
      split; [by rewrite Hb | by apply elem_of_set_in_order].
  - intros name Hin%elem_of_set_in_order. by apply elem_of_dom, Hsub.
Qed.

Lemma settled_finish ls w n :
  wired (length ls) ls w →
  tracked (length ls) w →
  Init_finish w = Ok n →
  settled n.
Proof.
  intros Hw Ht. unfold Init_finish.
  destruct (Net.layers_ (net w)) as [|first_layer layers] eqn:Hlayers; [done|].
  case_bool_decide; [done|]. intros [= <-].
  pose proof (wired_layers _ _ _ Hw) as Hlen.
  set (top := length (Net.layers_ (net w))).
  assert (1 ≤ top) as Htop by (unfold top; rewrite Hlayers; simpl; lia).
  assert (top = length ls) as Htopls by done.
  pose proof (collect_outputs_ids w) as Houts.
  unfold collect_outputs in Houts. simpl in Houts.
  assert (∀ b, b ∈ Net.top_id_vecs_ (net w) !!! 0 →
            b < length (Net.blob_life_time_ (net w))) as Hfirst.
  { intros b Hb. destruct ls as [|lp ls']; [simpl in Htopls; lia|].
    destruct (wired_rows _ _ _ Hw 0 lp) as (brow & trow & _ & Htr & _ & Hr & _);
      [done|].
    rewrite (list_lookup_total_correct _ _ _ Htr) in Hb.
    apply list_elem_of_lookup in Hb as [k Hk].
    destruct (Forall2_lookup_l _ _ _ _ _ Hr Hk) as (name & _ & Hidx & _).
    by eapply wired_id_in_range. }
  constructor; simpl; fold top.
  - rewrite hold_length, (wired_life _ _ _ Hw). symmetry. apply Hw.
  - rewrite (wired_bvecs _ _ _ Hw). done.
  - intros b t [->|Hb]%hold_cases; [lia|].
    rewrite Htopls. by eapply tracked_bound.
  - intros b Hb. apply hold_in; [done | by apply Hfirst].
  - intros b Hb.
    apply Houts in Hb as (name & Hin & Hidx);
      [|apply Hw|apply Ht].
    split.
    + rewrite (wired_blobs _ _ _ Hw), <- (wired_life _ _ _ Hw).
      by eapply wired_id_in_range.
    + destruct (tracked_available _ _ Ht name Hin) as (b' & Hidx' & Hout).
      assert (b' = b) as -> by congruence.
      intros i row Hrow Hbrow. apply lives_hold; [by eapply Hout|].
      apply lookup_lt_Some in Hrow. rewrite (wired_bvecs _ _ _ Hw) in Hrow.
      lia.
  - intros b Hlt Hnot.
    destruct (decide (b ∈ Net.top_id_vecs_ (net w) !!! 0)) as [Hin|Hout].
    { left. apply hold_in; [done | by apply Hfirst]. }
    right.
    rewrite (wired_blobs _ _ _ Hw) in Hlt.
    destruct (lookup_lt_is_Some_2 _ _ Hlt) as [name Hname].
    apply (wired_idx _ _ _ Hw) in Hname as Hidx.
    assert (name ∉ available_blobs w) as Hnav.
    { intros Hav. apply Hnot. apply Houts; [apply Hw|apply Ht|]. eauto. }
    destruct (tracked_taken _ _ Ht name b Hidx Hnav)
      as (i & row & Hrow & Hb & Hlife).
    exists i, row. split; [done|]. split; [done|].
    by rewrite hold_other.
  - apply Ht.
Qed.

Lemma settled_MarkOutputs outs n n' :
  settled n →
  MarkOutputs outs n = Ok n' →
  settled n'.
Proof.
  revert n. induction outs as [|name outs IH]; intros n Hs; simpl.
  - by intros [= <-].
  - destruct (Net.blob_names_index_ n !! name) as [blob_id|]; [|done].
    apply IH.
    set (top := length (Net.layers_ n)).
    constructor; simpl; fold top; try apply Hs.
    + rewrite length_insert. apply Hs.
    + intros b t Hb.
      apply list_lookup_insert_Some in Hb as [(-> & <- & Hlt)|[_ Hb]].
      * destruct (lookup_lt_is_Some_2 _ _ Hlt) as [t Ht].
        pose proof (settled_bound _ Hs _ _ Ht). unfold top. lia.
      * by eapply settled_bound.
    + intros b Hb. pose proof (settled_inputs _ Hs b Hb) as Hlife.
      destruct (decide (blob_id = b)) as [->|Hne].
      * apply list_lookup_insert_eq. by eapply lookup_lt_Some.
      * by rewrite list_lookup_insert_ne.
    + intros b Hb. destruct (settled_outputs _ Hs b Hb) as [Hlt Hout].
      split; [done|]. intros i row Hrow Hbrow.
      apply lives_insert; [by eapply Hout|].
      apply lookup_lt_Some in Hrow. rewrite (settled_bvecs _ Hs) in Hrow.
      unfold top. lia.
    + intros b Hlt Hnot.
      destruct (decide (blob_id = b)) as [->|Hne].
      * left. apply list_lookup_insert_eq. by rewrite (settled_life _ Hs).
      * rewrite list_lookup_insert_ne by done.
        destruct (settled_others _ Hs b Hlt Hnot)
          as [Hl|(i & row & Hrow & Hb & Hlife)]; [by left|right].
        exists i, row. split; [done|]. split; [done|].
        by rewrite list_lookup_insert_ne.
Qed.

Lemma assembled_reader ls n i row b :
  assembled ls n →
  Net.bottom_id_vecs_ n !! i = Some row →
  b ∈ row →
  lives (Net.blob_life_time_ n) b i.
Proof.
  intros Ha Hrow Hb.
  apply lookup_lt_Some in Hrow as Hlt. rewrite (asm_bvecs _ _ Ha) in Hlt.
  destruct (lookup_lt_is_Some_2 _ _ Hlt) as [lp Hlp].
  destruct (asm_rows _ _ Ha i lp Hlp) as (brow & trow & Hb' & _ & Hbr & _).
  rewrite Hrow in Hb'. injection Hb' as <-.
  apply list_elem_of_lookup in Hb as [k Hk].
  by destruct (Forall2_lookup_l _ _ _ _ _ Hbr Hk) as (name & _ & _ & Hl & _).
Qed.

Section settled_net.
Context {collaborators : Collaborators}.

Lemma Init_settled in_param n :
  Init in_param = Ok n →
  ∃ ls, assembled ls n ∧ settled n.
Proof.
  intros Hinit.
  apply Init_inv in Hinit as (_ & filtered & w & _ & Hwire & Hfinish).
  exists (NetParameter.layer (InsertSplits filtered)).
  apply Init_wire_wired in Hwire as Hw.
  apply Init_wire_tracked in Hwire as Ht.
  split; [by eapply assembled_finish | by eapply settled_finish].
Qed.

Lemma Init_MarkOutputs_settled in_param outs n0 n :
  Init in_param = Ok n0 →
  MarkOutputs outs n0 = Ok n →
  ∃ ls, assembled ls n ∧ settled n.
Proof.
  intros (ls & Ha & Hs)%Init_settled Hmark. exists ls.
  split; [by eapply assembled_MarkOutputs | by eapply settled_MarkOutputs].
Qed.

End settled_net.

(** ** What a forward pass releases *)

Lemma releases_forward_loop_intro n ids i row b :
  i ∈ ids →
  Net.bottom_id_vecs_ n !! i = Some row →
  b ∈ row →
  Net.blob_life_time_ n !!! b ≤ i →
  b ∈ releases (forward_loop n ids).
Proof.
  intros Hi Hrow Hb Hlife.
  induction ids as [|j ids IH]; [by apply elem_of_nil in Hi|].
  rewrite releases_forward_loop_cons. apply elem_of_app.
  apply elem_of_cons in Hi as [<-|Hi]; [left|right; by apply IH].
  apply list_elem_of_filter. split; [done|].
  by rewrite (list_lookup_total_correct _ _ _ Hrow).
Qed.

Lemma lives_total life b t : lives life b t → t ≤ life !!! b.
Proof.
  intros (t' & Hb & Hle). by rewrite (list_lookup_total_correct _ _ _ Hb).
Qed.

(** In an assembled net whose life times are settled, a range of layers
    releases the blobs that are no net outputs and whose life time lies
    in the range. *)
Lemma released_in_range ls n start end_ calls b :
  assembled ls n →
  settled n →
  (end_ < 2 ^ 31)%Z →
  ForwardFromTo n start end_ = Ok calls →
  BlobRelease b ∈ calls ↔
  b < length (Net.blobs_ n) ∧
  (b ∉ Net.net_output_blob_indices_ n) ∧
  (start ≤ Z.of_nat (Net.blob_life_time_ n !!! b) ≤ end_)%Z.
Proof.
  intros Ha Hs Hint Hok.
  apply ForwardFromTo_inv in Hok as (Hstart & Hend & ->).
  rewrite <- elem_of_releases. split.
  - intros (i & row & Hi & Hrow & Hb & Hlife)%releases_forward_loop_inv.
    apply elem_of_seq in Hi.
    pose proof (assembled_reader _ _ _ _ _ Ha Hrow Hb) as Hlives.
    apply lives_total in Hlives as Hge.
    split; [|split].
    + destruct Hlives as (t & Ht%lookup_lt_Some & _).
      by rewrite <- (settled_life _ Hs).
    + intros Hout. destruct (settled_outputs _ Hs b Hout) as [_ Hlong].
      pose proof (lives_total _ _ _ (Hlong _ _ Hrow Hb)). lia.
    + lia.
  - intros (Hlt & Hnot & Hrange).
    assert (0 ≤ end_)%Z as Hpos by lia.
    assert (end_ < Z.of_nat (length (Net.layers_ n)))%Z as Hlast.
    { unfold to_size_t in Hend. rewrite Z.mod_small in Hend; lia. }
    destruct (settled_others _ Hs b Hlt Hnot)
      as [Hpin|(i & row & Hrow & Hb & Hlife)].
    + rewrite (list_lookup_total_correct _ _ _ Hpin) in Hrange. lia.
    + rewrite (list_lookup_total_correct _ _ _ Hlife) in Hrange.
      apply (releases_forward_loop_intro _ _ i row); [|done|done|].
      * apply elem_of_seq. lia.
      * by rewrite (list_lookup_total_correct _ _ _ Hlife).
Qed.

(** No blob is released twice by the layers [start, start + len). *)
Lemma releases_NoDup ls n start len :
  assembled ls n →
  settled n →
  NoDup (releases (forward_loop n (seq start len))).
Proof.
  intros Ha Hs. revert start.
  induction len as [|len IH]; intros start; [constructor|].
  change (seq start (S len)) with (start :: seq (S start) len).
  rewrite releases_forward_loop_cons. apply NoDup_app. split; [|split].
  - apply NoDup_filter. rewrite list_lookup_total_alt.
    destruct (Net.bottom_id_vecs_ n !! start) as [row|] eqn:Hrow; simpl.
    + by eapply settled_NoDup.
    + constructor.
  - intros b [Hlife _]%list_elem_of_filter
      (i & row & Hi & Hrow & Hb & _)%releases_forward_loop_inv.
    apply elem_of_seq in Hi.
    pose proof (assembled_reader _ _ _ _ _ Ha Hrow Hb) as Hl.
    apply lives_total in Hl. lia.
  - apply IH.
Qed.

(** The life times [MarkOutputs] leaves. *)
Lemma MarkOutputs_inv outs n n' :
  MarkOutputs outs n = Ok n' →
  (∀ name, name ∈ outs → is_Some (Net.blob_names_index_ n !! name)) ∧
  n' = Net.with_blob_life_time_
         (foldl (λ life blob_id, <[blob_id := length (Net.layers_ n)]> life)
            (Net.blob_life_time_ n)
            ((λ name, default 0 (Net.blob_names_index_ n !! name)) <$> outs))
         n.
Proof.
  revert n. induction outs as [|name outs IH]; intros n; simpl.
  - intros [= <-]. split; [by intros ? ?%elem_of_nil | by destruct n].
  - destruct (Net.blob_names_index_ n !! name) as [blob_id|] eqn:Hname;
      [|done].
    intros [Hall ->]%IH. simpl. split; [|done].
    intros name' [->|Hin]%elem_of_cons; [by rewrite Hname | by apply Hall].
Qed.

Lemma MarkOutputs_unknown_name known name rest n :
  (∀ name', name' ∈ known → is_Some (Net.blob_names_index_ n !! name')) →
  Net.blob_names_index_ n !! name = None →
  MarkOutputs (known ++ name :: rest) n = Fatal (BlobNotAvailable name).
Proof.
  revert n. induction known as [|name' known IH]; intros n Hknown Hname;
    simpl.
  - by rewrite Hname.
  - destruct (Hknown name') as [b ->]; [apply elem_of_cons; by left|].
    apply IH; [|done].
    intros name'' Hin. apply Hknown. apply elem_of_cons. by right.
Qed.

Lemma MarkOutputs_known outs n :
  (∀ name, name ∈ outs → is_Some (Net.blob_names_index_ n !! name)) →
  ∃ n', MarkOutputs outs n = Ok n'.
Proof.
  revert n. induction outs as [|name outs IH]; intros n Hall; simpl.
  - eauto.
  - destruct (Hall name) as [b ->]; [apply elem_of_cons; by left|].
    apply IH. intros name' Hin. apply Hall. apply elem_of_cons. by right.
Qed.

Section life_time_properties.
Context {collaborators : Collaborators}.

(** X5. The life times of a net that [Init] built and [MarkOutputs]
    marked: there is one per blob, each lies between 1 and the number of
    layers, and the outputs of layer 0 and the blobs of the marked names
    have the number of layers as their life time. *)
Theorem Init_life_times (in_param : NetParameter) (outs : list string)
    (n0 n : Net) :
  Init in_param = Ok n0 →
  MarkOutputs outs n0 = Ok n →
  length (Net.blob_life_time_ n) = length (Net.blobs_ n) ∧
  (∀ b t, Net.blob_life_time_ n !! b = Some t →
          1 ≤ t ≤ length (Net.layers_ n)) ∧
  (∀ b, b ∈ Net.top_id_vecs_ n !!! 0 →
        Net.blob_life_time_ n !! b = Some (length (Net.layers_ n))) ∧
  (∀ name b, name ∈ outs → Net.blob_names_index_ n !! name = Some b →
             Net.blob_life_time_ n !! b = Some (length (Net.layers_ n))).
Proof.
  intros Hinit Hmark.
  destruct (Init_MarkOutputs_settled _ _ _ _ Hinit Hmark) as (ls & Ha & Hs).
  split; [apply Hs|]. split; [apply Hs|]. split; [apply Hs|].
  intros name b Hin Hb.
  apply Init_settled in Hinit as (ls0 & Ha0 & Hs0).
  apply MarkOutputs_inv in Hmark as [_ ->]. simpl in *.
  apply hold_in.
  - apply list_elem_of_fmap. exists name. by rewrite Hb.
  - rewrite (settled_life _ Hs0), (asm_blobs _ _ Ha0).
    apply (asm_blob_index _ _ Ha0) in Hb. by eapply lookup_lt_Some.
Qed.

(** X6. On such a net, a pass over the layers from [start] to [end_]
    releases a blob exactly when the blob is no output of the net and
    its life time lies between [start] and [end_]. *)
Theorem ForwardFromTo_releases_iff (in_param : NetParameter)
    (outs : list string) (n0 n : Net) (start end_ : Z) (calls : list call)
    (b : nat) :
  Init in_param = Ok n0 →
  MarkOutputs outs n0 = Ok n →
  (end_ < 2 ^ 31)%Z →
  ForwardFromTo n start end_ = Ok calls →
  BlobRelease b ∈ calls ↔
  b < length (Net.blobs_ n) ∧
  (b ∉ Net.net_output_blob_indices_ n) ∧
  (start ≤ Z.of_nat (Net.blob_life_time_ n !!! b) ≤ end_)%Z.
Proof.
  intros Hinit Hmark Hint Hok.
  destruct (Init_MarkOutputs_settled _ _ _ _ Hinit Hmark) as (ls & Ha & Hs).
  by eapply released_in_range.
Qed.

(** X7. No pass releases a blob twice. *)
Theorem ForwardFromTo_releases_once (in_param : NetParameter)
    (outs : list string) (n0 n : Net) (start end_ : Z) (calls : list call) :
  Init in_param = Ok n0 →
  MarkOutputs outs n0 = Ok n →
  ForwardFromTo n start end_ = Ok calls →
  NoDup (releases calls).
Proof.
  intros Hinit Hmark Hok.
  destruct (Init_MarkOutputs_settled _ _ _ _ Hinit Hmark) as (ls & Ha & Hs).
  apply ForwardFromTo_inv in Hok as (_ & _ & ->).
  by eapply releases_NoDup.
Qed.

(** X8. No pass, over whatever range, releases an output of layer 0, a
    blob marked by [MarkOutputs], or an output of the net. *)
Theorem held_blobs_are_never_released (in_param : NetParameter)
    (outs : list string) (n0 n : Net) (start end_ : Z) (calls : list call)
    (b : nat) :
  Init in_param = Ok n0 →
  MarkOutputs outs n0 = Ok n →
  ForwardFromTo n start end_ = Ok calls →
  b ∈ Net.top_id_vecs_ n !!! 0 ∨
  (∃ name, name ∈ outs ∧ Net.blob_names_index_ n !! name = Some b) ∨
  b ∈ Net.net_output_blob_indices_ n →
  BlobRelease b ∉ calls.
Proof.
  intros Hinit Hmark Hok Hheld Hin.
  destruct (Init_MarkOutputs_settled _ _ _ _ Hinit Hmark) as (ls & Ha & Hs).
  apply ForwardFromTo_inv in Hok as (_ & _ & ->).
  apply elem_of_releases, releases_forward_loop_inv in Hin
    as (i & row & _ & Hrow & Hb & Hlife).
  apply lookup_lt_Some in Hrow as Hlt. rewrite (settled_bvecs _ Hs) in Hlt.
  assert (Net.blob_life_time_ n !! b = Some (length (Net.layers_ n)) →
          False) as Hpinned.
  { intros Hl. rewrite (list_lookup_total_correct _ _ _ Hl) in Hlife. lia. }
  destruct Hheld as [Hfirst|[(name & Hname & Hidx)|Hout]].
  - apply Hpinned. by apply Hs.
  - apply Hpinned.
    apply Init_settled in Hinit as (ls0 & Ha0 & Hs0).
    apply MarkOutputs_inv in Hmark as [_ ->]. simpl in *.
    apply hold_in.
    + apply list_elem_of_fmap. exists name. by rewrite Hidx.
    + rewrite (settled_life _ Hs0), (asm_blobs _ _ Ha0).
      apply (asm_blob_index _ _ Ha0) in Hidx. by eapply lookup_lt_Some.
  - destruct (settled_outputs _ Hs b Hout) as [_ Hlong].
    pose proof (lives_total _ _ _ (Hlong _ _ Hrow Hb)). lia.
Qed.

End life_time_properties.

(** X9. [MarkOutputs] succeeds exactly when every name is in the index
    of blob names; otherwise it stops at the first name that is not, with
    that name in the error. *)
Theorem MarkOutputs_succeeds_iff (outs : list string) (n : Net) :
  ((∃ n', MarkOutputs outs n = Ok n') ↔
   ∀ name, name ∈ outs → is_Some (Net.blob_names_index_ n !! name)) ∧
  (∀ known name rest,
     outs = known ++ name :: rest →
     (∀ name', name' ∈ known →
               is_Some (Net.blob_names_index_ n !! name')) →
     Net.blob_names_index_ n !! name = None →
     MarkOutputs outs n = Fatal (BlobNotAvailable name)).
Proof.
  split.
  - split.
    + intros [n' Hok]. by apply MarkOutputs_inv in Hok as [Hall _].
    + apply MarkOutputs_known.
  - intros known name rest -> Hknown Hname.
    by apply MarkOutputs_unknown_name.
Qed.

(** X10. [MarkOutputs] changes nothing but life times: the other fields
    of the net are as before, there are as many life times as before,
    and the life time of a blob that none of the names denotes is as
    before. *)
Theorem MarkOutputs_changes_life_times_only (outs : list string)
    (n n' : Net) :
  MarkOutputs outs n = Ok n' →
  Net.with_blob_life_time_ (Net.blob_life_time_ n) n' = n ∧
  length (Net.blob_life_time_ n') = length (Net.blob_life_time_ n) ∧
  ∀ b, (∀ name, name ∈ outs → Net.blob_names_index_ n !! name ≠ Some b) →
       Net.blob_life_time_ n' !! b = Net.blob_life_time_ n !! b.
Proof.
  intros [Hall ->]%MarkOutputs_inv. simpl.
  split; [by destruct n|]. split; [apply hold_length|].
  intros b Hb. apply hold_other.
  intros (name & -> & Hin)%list_elem_of_fmap.
  destruct (Hall name Hin) as [b' Hb']. apply (Hb name Hin).
  by rewrite Hb'.
Qed.

(** ** Marking in steps and marking twice *)

Lemma MarkOutputs_app outs1 outs2 n :
  MarkOutputs (outs1 ++ outs2) n
  = bind (MarkOutputs outs1 n) (MarkOutputs outs2).
Proof.
  revert n. induction outs1 as [|name outs1 IH]; intros n; simpl; [done|].
  destruct (Net.blob_names_index_ n !! name); [apply IH|done].
Qed.

Lemma hold_twice (top : nat) (life : list nat) (ids : list nat) :
  foldl (λ life blob_id, <[blob_id := top]> life)
    (foldl (λ life blob_id, <[blob_id := top]> life) life ids) ids
  = foldl (λ life blob_id, <[blob_id := top]> life) life ids.
Proof.
  apply list_eq. intros b.
  destruct (decide (b ∈ ids)) as [Hin|Hnot]; [|by rewrite hold_other].
  destruct (decide (b < length life)) as [Hlt|Hge].
  - rewrite !hold_in; [done..|]. by rewrite hold_length.
  - rewrite !lookup_ge_None_2; [done|rewrite ?hold_length; lia..].
Qed.

(** X11. Marking the names of two lists one after the other is marking
    the names of the joined list; and marking names that have been
    marked changes nothing. *)
Theorem MarkOutputs_composes (outs1 outs2 : list string) (n : Net) :
  MarkOutputs (outs1 ++ outs2) n
  = bind (MarkOutputs outs1 n) (MarkOutputs outs2) ∧
  ∀ n', MarkOutputs outs1 n = Ok n' → MarkOutputs outs1 n' = Ok n'.
Proof.
  split; [apply MarkOutputs_app|].
  intros n' Hmark. apply MarkOutputs_inv in Hmark as [Hall ->].
  destruct (MarkOutputs_known outs1
              (Net.with_blob_life_time_
                 (foldl (λ life blob_id,
                           <[blob_id := length (Net.layers_ n)]> life)
                    (Net.blob_life_time_ n)
                    ((λ name, default 0 (Net.blob_names_index_ n !! name))
                       <$> outs1)) n)) as [n'' Hagain]; [done|].
  rewrite Hagain. f_equal.
  apply MarkOutputs_inv in Hagain as [_ ->]. simpl.
  rewrite hold_twice. by destruct n.
Qed.

(** ** The indices by name *)

(** The id the indexing loop leaves for a name is the last position of
    that name. *)
Lemma index_names_Some start names index name id :
  index_names start names index !! name = Some id →
  (∃ k, id = start + k ∧ names !! k = Some name ∧
        ∀ j, k < j → names !! j ≠ Some name) ∨
  ((name ∉ names) ∧ index !! name = Some id).
Proof.
  revert start index.
  induction names as [|name' names IH]; intros start index; simpl.
  - intros Hid. right. split; [apply not_elem_of_nil | done].
  - intros [(k & -> & Hk & Hlast)|[Hnot Hid]]%IH.
    + left. exists (S k). split; [lia|]. split; [done|].
      intros [|j] Hj; [lia|]. simpl. apply Hlast. lia.
    + destruct (decide (name' = name)) as [->|Hne].
      * rewrite lookup_insert_eq in Hid. injection Hid as <-.
        left. exists 0. split; [lia|]. split; [done|].
        intros [|j] Hj; [lia|]. simpl. intros Hin. apply Hnot.
        by eapply list_elem_of_lookup_2.
      * rewrite lookup_insert_ne in Hid by done.
        right. split; [|done].
        intros [Heq|Hin]%elem_of_cons; [congruence|done].
Qed.

Lemma index_names_last names name id :
  index_names 0 names ∅ !! name = Some id ↔
  names !! id = Some name ∧ ∀ j, id < j → names !! j ≠ Some name.
Proof.
  split.
  - intros [(k & -> & Hk & Hlast)|[_ Hid]]%index_names_Some; [done|].
    by rewrite lookup_empty in Hid.
  - intros [Hid Hlast].
    assert (is_Some (index_names 0 names ∅ !! name)) as [id' Hid'].
    { apply elem_of_dom. rewrite index_names_dom.
      apply elem_of_union. right. apply elem_of_list_to_set.
      by eapply list_elem_of_lookup_2. }
    rewrite Hid'. f_equal.
    apply index_names_Some in Hid' as [(k & -> & Hk & Hlast')|[_ Hid']].
    + simpl. destruct (Nat.lt_trichotomy k id) as [Hlt|[->|Hgt]]; [|done|].
      * by destruct (Hlast' id Hlt).
      * by destruct (Hlast k Hgt).
    + by rewrite lookup_empty in Hid'.
Qed.

Lemma blob_by_name_Ok ls n name id :
  assembled ls n →
  blob_by_name n name = Ok id ↔ Net.blob_names_ n !! id = Some name.
Proof.
  intros Ha. rewrite <- (asm_blob_index _ _ Ha).
  unfold blob_by_name, has_blob.
  destruct (Net.blob_names_index_ n !! name) as [id'|] eqn:Hid.
  - rewrite bool_decide_eq_true_2 by eauto. simpl.
    split; intros [= <-]; done.
  - rewrite bool_decide_eq_false_2 by (by intros [? ?]). simpl.
    split; intros [=].
Qed.

Section lookups.
Context {collaborators : Collaborators}.

Lemma Init_layer_names_index in_param n :
  Init in_param = Ok n →
  Net.layer_names_index_ n = index_names 0 (Net.layer_names_ n) ∅.
Proof.
  intros Hinit.
  apply Init_inv in Hinit as (_ & filtered & w & _ & Hwire & Hfinish).
  apply Init_wire_wired in Hwire as Hw.
  destruct (wired_no_index _ _ _ Hw) as [_ Hnone].
  unfold Init_finish in Hfinish.
  destruct (Net.layers_ (net w)); [done|].
  case_bool_decide; [done|]. injection Hfinish as <-. simpl.
  by rewrite Hnone.
Qed.

(** X12. In a net that [Init] built, [has_blob] tells whether a name is
    the name of a blob, and [blob_by_name] and the list of blob names are
    inverse to each other: the blob it returns for a name is the one
    blob that bears that name. *)
Theorem blob_by_name_round_trip (in_param : NetParameter) (n : Net) :
  Init in_param = Ok n →
  (∀ name, has_blob n name = true ↔ name ∈ Net.blob_names_ n) ∧
  (∀ name id, blob_by_name n name = Ok id ↔
              Net.blob_names_ n !! id = Some name) ∧
  (∀ name id, blob_by_name n name = Ok id → id < length (Net.blobs_ n)).
Proof.
  intros Hinit.
  destruct (Init_inv _ _ Hinit) as (_ & filtered & w & Hfilter & _ & _).
  pose proof (Init_assembled _ _ _ Hfilter Hinit) as Ha.
  assert (∀ name id, blob_by_name n name = Ok id ↔
                     Net.blob_names_ n !! id = Some name) as Hround
    by (intros name id; by eapply blob_by_name_Ok).
  split; [|split; [done|]].
  - intros name. unfold has_blob. rewrite bool_decide_eq_true. split.
    + intros [id Hid]. apply (asm_blob_index _ _ Ha) in Hid.
      by eapply list_elem_of_lookup_2.
    + intros [id Hid]%list_elem_of_lookup.
      exists id. by apply (asm_blob_index _ _ Ha).
  - intros name id Hid%Hround. rewrite (asm_blobs _ _ Ha).
    by eapply lookup_lt_Some.
Qed.

(** X13. In a net that [Init] built, [has_layer] tells whether a name is
    the name of a layer, and [layer_by_name] returns the last layer that
    bears the name. *)
Theorem layer_by_name_is_last (in_param : NetParameter) (n : Net) :
  Init in_param = Ok n →
  (∀ name, has_layer n name = true ↔ name ∈ Net.layer_names_ n) ∧
  (∀ name id, layer_by_name n name = Ok id ↔
              Net.layer_names_ n !! id = Some name ∧
              ∀ j, id < j → Net.layer_names_ n !! j ≠ Some name) ∧
  (∀ name id, layer_by_name n name = Ok id → id < length (Net.layers_ n)).
Proof.
  intros Hinit.
  destruct (Init_inv _ _ Hinit) as (_ & filtered & w & Hfilter & _ & _).
  pose proof (Init_assembled _ _ _ Hfilter Hinit) as Ha.
  pose proof (Init_layer_names_index _ _ Hinit) as Hindex.
  assert (∀ name id, layer_by_name n name = Ok id ↔
                     Net.layer_names_ n !! id = Some name ∧
                     ∀ j, id < j → Net.layer_names_ n !! j ≠ Some name)
    as Hlast.
  { intros name id. rewrite <- index_names_last, <- Hindex.
    unfold layer_by_name, has_layer.
    destruct (Net.layer_names_index_ n !! name) as [id'|] eqn:Hid.
    - rewrite bool_decide_eq_true_2 by eauto. simpl.
      split; intros [= <-]; done.
    - rewrite bool_decide_eq_false_2 by (by intros [? ?]). simpl.
      split; intros [=]. }
  split; [|split; [done|]].
  - intros name. unfold has_layer. rewrite bool_decide_eq_true.
    apply (asm_layer_index _ _ Ha).
  - intros name id [Hid _]%Hlast.
    rewrite (asm_layers _ _ Ha).
    rewrite (asm_layer_names _ _ Ha) in Hid.
    apply lookup_lt_Some in Hid. by rewrite length_fmap in Hid.
Qed.

(** X14. In a net that [Init] built, the rows of [bottom_id_vecs_] and
    [top_id_vecs_] are the input and output names of the layers
    translated to blobs: row [i] has one id for each name of layer [i],
    in order, and the id is the blob [blob_by_name] returns for the
    name; and every input of a layer is an output of an earlier
    layer. *)
Theorem Init_wires_by_name (in_param filtered : NetParameter) (n : Net) :
  FilterNet in_param = Ok filtered →
  Init in_param = Ok n →
  ∀ i lp,
    NetParameter.layer (InsertSplits filtered) !! i = Some lp →
    ∃ brow trow,
      Net.bottom_id_vecs_ n !! i = Some brow ∧
      Net.top_id_vecs_ n !! i = Some trow ∧
      Forall2 (λ id name, blob_by_name n name = Ok id)
        brow (LayerParameter.bottom lp) ∧
      Forall2 (λ id name, blob_by_name n name = Ok id)
        trow (LayerParameter.top lp) ∧
      Forall (made_before (Net.top_id_vecs_ n) i) brow.
Proof.
  intros Hfilter Hinit i lp Hi.
  pose proof (Init_assembled _ _ _ Hfilter Hinit) as Ha.
  destruct (asm_rows _ _ Ha i lp Hi) as (brow & trow & Hb & Ht & Hbr & Htr).
  exists brow, trow. split; [done|]. split; [done|]. split; [|split].
  - eapply Forall2_impl; [exact Hbr|]. intros id name (Hname & _ & _).
    by eapply blob_by_name_Ok.
  - eapply Forall2_impl; [exact Htr|]. intros id name (Hname & _).
    by eapply blob_by_name_Ok.
  - apply Forall_forall. intros id Hid.
    apply list_elem_of_lookup in Hid as [k Hk].
    by destruct (Forall2_lookup_l _ _ _ _ _ Hbr Hk) as (name & _ & _ & _ & ?).
Qed.

End lookups.

(** ** The outputs of the net *)

Lemma left_over_snoc layers cur name :
  left_over (layers ++ [cur]) name ↔
  (left_over layers name ∧ name ∉ LayerParameter.bottom cur)
  ∨ name ∈ LayerParameter.top cur.
Proof.
  split.
  - intros (i & lp & Hi & Htop & Hlater).
    apply lookup_app_Some in Hi as [Hi|[Hge Hi]].
    + left. apply lookup_lt_Some in Hi as Hlt. split.
      * exists i, lp. split; [done|]. split; [done|].
        intros j lp' Hj Hlp'. apply (Hlater j lp' Hj).
        by apply lookup_app_l_Some.
      * apply (Hlater (length layers) cur Hlt). by apply list_lookup_middle.
    + apply list_lookup_singleton_Some in Hi as [_ <-]. by right.
  - intros [[(i & lp & Hi & Htop & Hlater) Hcur]|Htop].
    + exists i, lp. split; [by apply lookup_app_l_Some|]. split; [done|].
      intros j lp' Hj Hlp'.
      apply lookup_app_Some in Hlp' as [Hlp'|[_ Hlp']]; [by eapply Hlater|].
      by apply list_lookup_singleton_Some in Hlp' as [_ <-].
    + exists (length layers), cur. split; [by apply list_lookup_middle|].
      split; [done|]. intros j lp' Hj Hlp'.
      apply lookup_lt_Some in Hlp'. rewrite length_app in Hlp'. simpl in Hlp'.
      lia.
Qed.

Lemma AppendBottom_available lp layer_id k name w w' :
  LayerParameter.bottom lp !! k = Some name →
  AppendBottom lp layer_id k w = Ok w' →
  available_blobs w' = available_blobs w ∖ {[name]}.
Proof.
  intros Hname. unfold AppendBottom.
  rewrite (list_lookup_total_correct _ _ _ Hname).
  case_bool_decide; [done|]. by intros [= <-].
Qed.

Lemma Init_top_available lp layer_id k name w w' :
  LayerParameter.top lp !! k = Some name →
  Init_top lp layer_id k w = Ok w' →
  available_blobs w' = {[name]} ∪ available_blobs w.
Proof.
  intros Hname. unfold Init_top, AppendTop.
  rewrite (top_blob_name_lookup _ _ _ Hname).
  destruct (in_place lp k); simpl; [by intros [= <-]|].
  case_bool_decide; [done|]. simpl. by intros [= <-].
Qed.

Section net_outputs.
Context {collaborators : Collaborators}.

Lemma available_Init_layer done lp w w' :
  (∀ name, name ∈ available_blobs w ↔ left_over done name) →
  Init_layer lp (length done) w = Ok w' →
  ∀ name, name ∈ available_blobs w' ↔ left_over (done ++ [lp]) name.
Proof.
  intros Hav Hl.
  apply Init_layer_inv in Hl as (w1 & w2 & Hb & Ht & ->). simpl.
  rewrite <- (partial_layer_full lp).
  revert Ht.
  apply (for_each_seq_invariant
           (λ k s, ∀ name, name ∈ available_blobs s ↔
                     left_over
                       (done ++ [partial_layer lp
                                   (length (LayerParameter.bottom lp)) k])
                       name)).
  - revert Hb.
    apply (for_each_seq_invariant
             (λ k s, ∀ name, name ∈ available_blobs s ↔
                       left_over (done ++ [partial_layer lp k 0]) name)).
    + intros name. simpl. rewrite left_over_snoc, Hav. simpl.
      rewrite elem_of_nil. pose proof (not_elem_of_nil name). tauto.
    + intros k s s' Hk Hs Hstep name.
      destruct (lookup_lt_is_Some_2 _ _ Hk) as [name' Hname'].
      rewrite (AppendBottom_available _ _ _ _ _ _ Hname' Hstep).
      rewrite elem_of_difference, Hs, !left_over_snoc. simpl.
      rewrite (take_S_r _ _ _ Hname'), not_elem_of_app, elem_of_singleton.
      rewrite elem_of_nil, list_elem_of_singleton. tauto.
  - intros k s s' Hk Hs Hstep name.
    destruct (lookup_lt_is_Some_2 _ _ Hk) as [name' Hname'].
    rewrite (Init_top_available _ _ _ _ _ _ Hname' Hstep).
    rewrite elem_of_union, Hs, !left_over_snoc. simpl.
    rewrite (take_S_r _ _ _ Hname'), elem_of_app, elem_of_singleton.
    rewrite list_elem_of_singleton. tauto.
Qed.

Lemma available_Init_layers done ls w w' :
  (∀ name, name ∈ available_blobs w ↔ left_over done name) →
  Init_layers (length done) ls w = Ok w' →
  ∀ name, name ∈ available_blobs w' ↔ left_over (done ++ ls) name.
Proof.
  revert done w. induction ls as [|lp ls IH]; intros done w Hav; simpl.
  - intros [= <-]. by rewrite app_nil_r.
  - destruct (Init_layer lp (length done) w) as [w1|] eqn:Hl; [|done].
    simpl. intros Hrest.
    rewrite (assoc_L (++) done [lp] ls : done ++ lp :: ls = (done ++ [lp]) ++ ls).
    apply (IH (done ++ [lp]) w1).
    + by eapply available_Init_layer.
    + rewrite length_app. simpl.
      by replace (length done + 1) with (S (length done)) by lia.
Qed.

Lemma leb_is_total : Total (λ a b : string, Is_true (String.leb a b)).
Proof.
  intros a b. destruct (String.leb_total a b) as [->| ->]; [by left|by right].
Qed.

(** X15. The outputs of a net that [Init] built are the blobs of the
    names that are left over: produced by some layer and taken as an
    input by no later one.  They are recorded once each, in the order of
    their names. *)
Theorem Init_net_outputs (in_param filtered : NetParameter) (n : Net) :
  FilterNet in_param = Ok filtered →
  Init in_param = Ok n →
  ∃ names,
    Forall2 (λ b name, Net.blob_names_ n !! b = Some name)
      (Net.net_output_blob_indices_ n) names ∧
    Sorted (λ a b : string, Is_true (String.leb a b)) names ∧
    NoDup names ∧
    ∀ name, name ∈ names ↔
            left_over (NetParameter.layer (InsertSplits filtered)) name.
Proof.
  intros Hfilter Hinit.
  apply Init_inv in Hinit as (_ & filtered' & w & Hfilter' & Hwire & Hfinish).
  rewrite Hfilter in Hfilter'. injection Hfilter' as <-.
  apply Init_wire_wired in Hwire as Hw.
  apply Init_wire_tracked in Hwire as Ht.
  pose proof (available_Init_layers [] (NetParameter.layer (InsertSplits filtered))
                (Init_start (InsertSplits filtered)) w) as Hav.
  exists (set_in_order (available_blobs w)). split; [|split; [|split]].
  - unfold Init_finish in Hfinish.
    destruct (Net.layers_ (net w)); [done|].
    case_bool_decide; [done|]. injection Hfinish as <-. simpl.
    rewrite (tracked_no_outputs _ _ Ht). simpl.
    rewrite collect_outputs_loop; simpl.
    + apply Forall2_fmap_l, Forall_Forall2_diag, Forall_forall.
      intros name Hin%elem_of_set_in_order.
      apply (wired_avail _ _ _ Hw), elem_of_dom in Hin as [b Hb].
      unfold compose. rewrite Hb. simpl. by apply (wired_idx _ _ _ Hw).
    + intros name Hin%elem_of_set_in_order.
      by apply elem_of_dom, (wired_avail _ _ _ Hw).
  - apply (@Sorted_merge_sort _ _ _ leb_is_total).
  - unfold set_in_order. rewrite merge_sort_Permutation.
    apply NoDup_elements.
  - intros name. rewrite elem_of_set_in_order.
    apply Hav; [|exact Hwire].
    intros name'. simpl. split; [by intros ?%elem_of_empty|].
    by intros (i & lp & ? & _).
Qed.

End net_outputs.

(** ** The inputs of the net *)

Lemma input_tops_snoc layers lp top_id_vecs :
  input_tops (layers ++ [lp]) top_id_vecs
  = input_tops layers top_id_vecs
    ++ (if bool_decide (LayerParameter.type lp = "Input")
        then top_id_vecs !!! length layers else []).
Proof.
  unfold input_tops. rewrite imap_app, join_app. simpl.
  by rewrite Nat.add_0_r, app_nil_r.
Qed.

Lemma input_tops_push layers j b top_id_vecs :
  length layers ≤ j →
  input_tops layers (push_back_at j b top_id_vecs)
  = input_tops layers top_id_vecs.
Proof.
  intros Hj. unfold input_tops. f_equal. apply imap_ext.
  intros i lp Hi. simpl. case_bool_decide; [|done].
  apply lookup_lt_Some in Hi.
  rewrite !list_lookup_total_alt, push_back_at_other by lia. done.
Qed.

Lemma Init_params_inputs layer_id w :
  Net.net_input_blob_indices_ (net (Init_params layer_id w))
  = Net.net_input_blob_indices_ (net w).
Proof.
  unfold Init_params. simpl.
  generalize (seq 0 (length (Layer.blobs
                               (Net.layers_ (net w) !!! layer_id)))).
  intros ids. generalize (net w).
  induction ids as [|i ids IH]; intros n0; simpl; [done|].
  by rewrite IH.
Qed.

Lemma AppendBottom_inputs lp layer_id k w w' :
  AppendBottom lp layer_id k w = Ok w' →
  Net.net_input_blob_indices_ (net w') = Net.net_input_blob_indices_ (net w) ∧
  Net.top_id_vecs_ (net w') = Net.top_id_vecs_ (net w).
Proof.
  unfold AppendBottom. case_bool_decide; [done|]. by intros [= <-].
Qed.

Lemma Init_finish_inputs w n :
  Init_finish w = Ok n →
  Net.net_input_blob_indices_ n = Net.net_input_blob_indices_ (net w) ∧
  Net.top_id_vecs_ n = Net.top_id_vecs_ (net w).
Proof.
  unfold Init_finish. destruct (Net.layers_ (net w)); [done|].
  case_bool_decide; [done|]. by intros [= <-].
Qed.

Section net_inputs.
Context {collaborators : Collaborators}.

Lemma inputs_so_far_top total done lp k name w w' :
  wired total
    (done ++ [partial_layer lp (length (LayerParameter.bottom lp)) k]) w →
  LayerParameter.top lp !! k = Some name →
  (LayerParameter.type lp = "Input" →
   LayerParameter.bottom lp !! k ≠ Some name) →
  Init_top lp (length done) k w = Ok w' →
  inputs_so_far done lp w →
  inputs_so_far done lp w'.
Proof.
  intros Hw Hname Hfresh Htop Hsofar.
  destruct (wired_current_row _ _ _ _ Hw) as (brow & trow & _ & Ht & _).
  pose proof (list_lookup_total_correct _ _ _ Ht) as Hrow.
  unfold inputs_so_far in *.
  unfold Init_top, AppendTop, collect_input in Htop.
  destruct (in_place lp k) eqn:Hip; simpl in Htop.
  - apply (in_place_iff _ _ _ Hname) in Hip.
    case_bool_decide as Htype; [by destruct (Hfresh Htype)|].
    injection Htop as <-. simpl.
    by rewrite input_tops_push, Hsofar, !app_nil_r.
  - destruct (bool_decide (is_Some (blob_name_to_idx w !! top_blob_name lp k)));
      [done|].
    simpl in Htop. injection Htop as <-.
    case_bool_decide as Htype; simpl.
    + rewrite input_tops_push, Hsofar by done.
      rewrite (list_lookup_total_correct _ _ _
                 (push_back_at_row _ _ _ _ Ht)).
      rewrite Hrow, length_app, <- app_assoc. simpl.
      do 3 f_equal. lia.
    + by rewrite input_tops_push, Hsofar, !app_nil_r.
Qed.

Lemma inputs_Init_layer total done lp w w' :
  wired total done w →
  length done < total →
  (∀ k name, LayerParameter.type lp = "Input" →
     LayerParameter.top lp !! k = Some name →
     LayerParameter.bottom lp !! k ≠ Some name) →
  Net.net_input_blob_indices_ (net w)
  = input_tops done (Net.top_id_vecs_ (net w)) →
  Init_layer lp (length done) w = Ok w' →
  Net.net_input_blob_indices_ (net w')
  = input_tops (done ++ [lp]) (Net.top_id_vecs_ (net w')).
Proof.
  intros Hw Hlt Hfresh Hin Hl.
  apply Init_layer_inv in Hl as (w1 & w2 & Hb & Ht & ->).
  rewrite Init_params_inputs, input_tops_snoc.
  destruct (Init_params_same (length done) w2)
    as (_ & _ & _ & _ & _ & _ & -> & _).
  assert (wired total
            (done ++ [partial_layer lp (length (LayerParameter.bottom lp)) 0])
            w1 ∧ inputs_so_far done lp w1) as [Hw1 Hs1].
  { revert Hb.
    apply (for_each_seq_invariant
             (λ k s, wired total (done ++ [partial_layer lp k 0]) s
                     ∧ inputs_so_far done lp s)).
    - split; [by apply wired_push|].
      unfold inputs_so_far. simpl. rewrite Hin.
      destruct (wired_rest _ _ _ Hw (length done)) as [_ Hrow]; [done..|].
      rewrite (list_lookup_total_correct _ _ _ Hrow).
      case_bool_decide; by rewrite app_nil_r.
    - intros k s s' Hk [Hs Hsofar] Hstep.
      destruct (lookup_lt_is_Some_2 _ _ Hk) as [name Hname].
      split; [by eapply wired_bottom|].
      apply AppendBottom_inputs in Hstep as [Hi Htv].
      unfold inputs_so_far. by rewrite Hi, Htv. }
  assert (wired total
            (done ++ [partial_layer lp (length (LayerParameter.bottom lp))
                        (length (LayerParameter.top lp))]) w2
          ∧ inputs_so_far done lp w2) as [_ Hs2]; [|done].
  revert Ht.
  apply (for_each_seq_invariant
           (λ k s, wired total
                     (done ++ [partial_layer lp
                                 (length (LayerParameter.bottom lp)) k]) s
                   ∧ inputs_so_far done lp s)).
  - done.
  - intros k s s' Hk [Hs Hsofar] Hstep.
    destruct (lookup_lt_is_Some_2 _ _ Hk) as [name Hname].
    split; [by eapply wired_top|].
    eapply inputs_so_far_top; [done|done| |done|done].
    intros Htype. by eapply Hfresh.
Qed.

Lemma inputs_Init_layers total done ls w w' :
  wired total done w →
  length done + length ls ≤ total →
  (∀ lp k name, lp ∈ ls → LayerParameter.type lp = "Input" →
     LayerParameter.top lp !! k = Some name →
     LayerParameter.bottom lp !! k ≠ Some name) →
  Net.net_input_blob_indices_ (net w)
  = input_tops done (Net.top_id_vecs_ (net w)) →
  Init_layers (length done) ls w = Ok w' →
  Net.net_input_blob_indices_ (net w')
  = input_tops (done ++ ls) (Net.top_id_vecs_ (net w')).
Proof.
  revert done w. induction ls as [|lp ls IH]; intros done w Hw Hlen Hfresh Hin;
    simpl.
  - intros [= <-]. by rewrite app_nil_r.
  - destruct (Init_layer lp (length done) w) as [w1|] eqn:Hl; [|done].
    simpl. intros Hrest. simpl in Hlen.
    rewrite (assoc_L (++) done [lp] ls : done ++ lp :: ls = (done ++ [lp]) ++ ls).
    apply (IH (done ++ [lp]) w1).
    + eapply wired_Init_layer; [done | lia | done].
    + rewrite length_app. simpl. lia.
    + intros lp' k name Hin'. apply Hfresh. apply elem_of_cons. by right.
    + eapply inputs_Init_layer; [done|lia| |done|done].
      intros k name. apply Hfresh. apply elem_of_cons. by left.
    + rewrite length_app. simpl.
      by replace (length done + 1) with (S (length done)) by lia.
Qed.

(** X16. When no output of a layer of type Input is in place, the
    inputs recorded for a net that [Init] built are the outputs of the
    layers of type Input, layer by layer and in their order in the
    layer. *)
Theorem Init_net_inputs (in_param filtered : NetParameter) (n : Net) :
  FilterNet in_param = Ok filtered →
  Init in_param = Ok n →
  (∀ lp k name,
     lp ∈ NetParameter.layer (InsertSplits filtered) →
     LayerParameter.type lp = "Input" →
     LayerParameter.top lp !! k = Some name →
     LayerParameter.bottom lp !! k ≠ Some name) →
  Net.net_input_blob_indices_ n
  = input_tops (NetParameter.layer (InsertSplits filtered))
      (Net.top_id_vecs_ n).
Proof.
  intros Hfilter Hinit Hfresh.
  apply Init_inv in Hinit as (_ & filtered' & w & Hfilter' & Hwire & Hfinish).
  rewrite Hfilter in Hfilter'. injection Hfilter' as <-.
  apply Init_finish_inputs in Hfinish as [-> ->].
  apply (inputs_Init_layers (length (NetParameter.layer (InsertSplits filtered)))
           [] (NetParameter.layer (InsertSplits filtered))
           (Init_start (InsertSplits filtered)));
    [apply wired_start | simpl; lia | done | done | exact Hwire].
Qed.

End net_inputs.

(** ** The table of parameters *)

Lemma param_refs_snoc layers l :
  param_refs (layers ++ [l])
  = param_refs layers
    ++ (pair (length layers) <$> seq 0 (length (Layer.blobs l))).
Proof.
  unfold param_refs. rewrite imap_app, join_app. simpl.
  by rewrite Nat.add_0_r, app_nil_r.
Qed.

Lemma param_names_snoc layers l :
  param_names (layers ++ [l])
  = param_names layers
    ++ (param_display_name (Layer.layer_param l)
          <$> seq 0 (length (Layer.blobs l))).
Proof.
  unfold param_names. rewrite imap_app, join_app. simpl.
  by rewrite app_nil_r.
Qed.

(** The loop over the parameters of layer [layer_id]. *)
Lemma AppendParam_loop layer_id l n j :
  Net.layers_ n !! layer_id = Some l →
  let n' := foldl (λ n param_id, AppendParam layer_id param_id n) n (seq 0 j) in
  same_wiring n n' ∧
  Net.name_ n' = Net.name_ n ∧
  Net.net_input_blob_indices_ n' = Net.net_input_blob_indices_ n ∧
  Net.params_ n' = Net.params_ n ++ (pair layer_id <$> seq 0 j) ∧
  Net.param_display_names_ n'
  = Net.param_display_names_ n
    ++ (param_display_name (Layer.layer_param l) <$> seq 0 j) ∧
  Net.param_id_vecs_ n'
  = alter (λ row, row ++ seq (length (Net.params_ n)) j) layer_id
      (Net.param_id_vecs_ n).
Proof.
  intros Hl. cbv zeta. induction j as [|j IH].
  - simpl. split; [apply same_wiring_refl|]. rewrite !app_nil_r.
    split; [done|]. split; [done|]. split; [done|]. split; [done|].
    symmetry. apply list_alter_id. intros row. by rewrite app_nil_r.
  - rewrite seq_S, foldl_app. simpl.
    destruct IH as (Hsame & Hname & Hin & Hparams & Hnames & Hrows).
    set (n1 := foldl _ n (seq 0 j)) in *.
    assert (Net.layers_ n1 = Net.layers_ n) as Hlayers by apply Hsame.
    split; [eapply same_wiring_trans; [exact Hsame|apply AppendParam_same]|].
    unfold AppendParam. simpl.
    rewrite Hlayers, (list_lookup_total_correct _ _ _ Hl).
    split; [done|]. split; [done|].
    rewrite Hparams, Hnames, Hrows, !fmap_app, !app_assoc. simpl.
    split; [done|]. split; [done|].
    unfold push_back_at. rewrite list_alter_alter_eq.
    apply list_alter_ext; [|done]. intros row _. simpl.
    rewrite length_app, length_fmap, length_seq, <- app_assoc.
    f_equal. change (length (Net.params_ n)
                     :: seq (S (length (Net.params_ n))) j)
      with (seq (length (Net.params_ n)) (S j)).
    by rewrite seq_S.
Qed.

Lemma same_params_refl n : same_params n n.
Proof. by repeat split. Qed.

Lemma same_params_trans n1 n2 n3 :
  same_params n1 n2 → same_params n2 n3 → same_params n1 n3.
Proof.
  intros (? & ? & ? & ? & ?) (? & ? & ? & ? & ?).
  repeat split; congruence.
Qed.

Lemma AppendBottom_same_params lp layer_id k w w' :
  AppendBottom lp layer_id k w = Ok w' → same_params (net w) (net w').
Proof.
  unfold AppendBottom. case_bool_decide; [done|].
  intros [= <-]. by repeat split.
Qed.

Lemma Init_top_same_params lp layer_id k w w' :
  Init_top lp layer_id k w = Ok w' → same_params (net w) (net w').
Proof.
  unfold Init_top, AppendTop, collect_input.
  destruct (in_place lp k); simpl.
  - intros [= <-]. simpl. case_bool_decide; by repeat split.
  - case_bool_decide; [done|]. simpl.
    intros [= <-]. simpl. case_bool_decide; by repeat split.
Qed.

Lemma Init_finish_same_params w n :
  Init_finish w = Ok n → same_params (net w) n.
Proof.
  unfold Init_finish. destruct (Net.layers_ (net w)); [done|].
  case_bool_decide; [done|]. intros [= <-]. by repeat split.
Qed.

Section parameters.
Context {collaborators : Collaborators}.

Lemma registered_start param :
  registered (length (NetParameter.layer param)) (net (Init_start param)).
Proof.
  constructor; simpl; try done.
  intros i _ Hi. by apply lookup_replicate_2.
Qed.

Lemma registered_Init_layer total lp w w' :
  registered total (net w) →
  length (Net.layers_ (net w)) < total →
  Init_layer lp (length (Net.layers_ (net w))) w = Ok w' →
  registered total (net w') ∧
  Net.layers_ (net w') = Net.layers_ (net w) ++ [CreateLayer lp] ∧
  Net.name_ (net w') = Net.name_ (net w).
Proof.
  intros Hr Hlt Hl.
  apply Init_layer_inv in Hl as (w1 & w2 & Hb & Ht & ->).
  set (L := length (Net.layers_ (net w))) in *.
  assert (same_params (net (push_layer lp w)) (net w1)) as H1.
  { revert Hb.
    apply (for_each_invariant
             (λ s, same_params (net (push_layer lp w)) (net s)));
      [|apply same_params_refl].
    intros k s s' _ Hs Hstep. eapply same_params_trans; [exact Hs|].
    by eapply AppendBottom_same_params. }
  assert (same_params (net w1) (net w2)) as H2.
  { revert Ht.
    apply (for_each_invariant (λ s, same_params (net w1) (net s)));
      [|apply same_params_refl].
    intros k s s' _ Hs Hstep. eapply same_params_trans; [exact Hs|].
    by eapply Init_top_same_params. }
  destruct (same_params_trans _ _ _ H1 H2)
    as (Hname & Hlayers & Hparams & Hnames & Hrows).
  simpl in Hname, Hlayers, Hparams, Hnames, Hrows.
  assert (Net.layers_ (net w2) !! L = Some (CreateLayer lp)) as Hlast.
  { rewrite Hlayers. by apply list_lookup_middle. }
  unfold Init_params. simpl.
  rewrite (list_lookup_total_correct _ _ _ Hlast).
  destruct (AppendParam_loop L _ (net w2)
              (length (Layer.blobs (CreateLayer lp))) Hlast)
    as (Hsame & Hname' & _ & Hparams' & Hnames' & Hrows').
  cbv zeta in *.
  set (n' := foldl _ (net w2) _) in *.
  assert (Net.layers_ n' = Net.layers_ (net w) ++ [CreateLayer lp])
    as Hlayers' by (destruct Hsame as [-> _]; done).
  split; [|split; [done|congruence]].
  constructor.
  - rewrite Hparams', Hlayers', param_refs_snoc, Hparams.
    by rewrite (reg_params _ _ Hr).
  - rewrite Hnames', Hlayers', param_names_snoc, Hnames.
    by rewrite (reg_names _ _ Hr).
  - intros i l Hi. rewrite Hlayers' in Hi |- *. rewrite Hrows', Hrows.
    apply lookup_app_Some in Hi as [Hi|[Hge Hi]].
    + apply lookup_lt_Some in Hi as Hlt'.
      rewrite list_lookup_alter_ne by (fold L in Hlt'; lia).
      rewrite take_app_le by lia. by apply (reg_rows _ _ Hr).
    + apply list_lookup_singleton_Some in Hi as [Hi <-].
      assert (i = L) as -> by (unfold L; lia).
      rewrite list_lookup_alter_eq, (reg_rest _ _ Hr L) by (unfold L; lia).
      simpl. unfold L. rewrite take_app_length, Hparams.
      by rewrite (reg_params _ _ Hr).
  - intros i Hge Hi. rewrite Hlayers', length_app in Hge. simpl in Hge.
    rewrite Hrows', Hrows.
    rewrite list_lookup_alter_ne by (unfold L; lia).
    apply (reg_rest _ _ Hr); [lia|done].
Qed.

Lemma registered_Init_layers total ls w w' :
  registered total (net w) →
  length (Net.layers_ (net w)) + length ls ≤ total →
  Init_layers (length (Net.layers_ (net w))) ls w = Ok w' →
  registered total (net w') ∧
  Net.layers_ (net w') = Net.layers_ (net w) ++ (CreateLayer <$> ls) ∧
  Net.name_ (net w') = Net.name_ (net w).
Proof.
  revert w. induction ls as [|lp ls IH]; intros w Hr Hlen; simpl.
  - intros [= <-]. by rewrite app_nil_r.
  - destruct (Init_layer lp (length (Net.layers_ (net w))) w) as [w1|] eqn:Hl;
      [|done].
    simpl. intros Hrest. simpl in Hlen.
    destruct (registered_Init_layer total lp w w1) as (Hr1 & Hlayers & Hname);
      [done|lia|done|].
    destruct (IH w1) as (Hr' & Hlayers' & Hname'); [done| | |].
    + rewrite Hlayers, length_app. simpl. lia.
    + rewrite Hlayers, length_app. simpl.
      by replace (length (Net.layers_ (net w)) + 1)
        with (S (length (Net.layers_ (net w)))) by lia.
    + split; [done|]. split; [|congruence].
      by rewrite Hlayers', Hlayers, <- app_assoc.
Qed.

Lemma Init_registered in_param filtered n :
  FilterNet in_param = Ok filtered →
  Init in_param = Ok n →
  registered (length (NetParameter.layer (InsertSplits filtered))) n ∧
  Net.layers_ n = CreateLayer <$> NetParameter.layer (InsertSplits filtered) ∧
  Net.name_ n = NetParameter.name (InsertSplits filtered).
Proof.
  intros Hfilter Hinit.
  apply Init_inv in Hinit as (_ & filtered' & w & Hfilter' & Hwire & Hfinish).
  rewrite Hfilter in Hfilter'. injection Hfilter' as <-.
  destruct (registered_Init_layers _ _ _ _
              (registered_start (InsertSplits filtered)) (le_n _) Hwire)
    as (Hr & Hlayers & Hname).
  simpl in Hlayers, Hname.
  apply Init_finish_same_params in Hfinish
    as (Hname' & Hlayers' & Hparams & Hnames & Hrows).
  split; [|split; congruence].
  constructor; rewrite ?Hparams, ?Hnames, ?Hrows, ?Hlayers'; apply Hr.
Qed.

End parameters.

Lemma param_refs_middle pre l post k :
  k < length (Layer.blobs l) →
  param_refs (pre ++ l :: post) !! (length (param_refs pre) + k)
  = Some (length pre, k).
Proof.
  intros Hk. unfold param_refs at 2. rewrite imap_app, join_app. simpl.
  fold (param_refs pre).
  rewrite lookup_app_r by lia.
  replace (length (param_refs pre) + k - length (param_refs pre))
    with k by lia.
  rewrite lookup_app_l by (by rewrite length_fmap, length_seq).
  rewrite list_lookup_fmap, lookup_seq_lt by done. simpl.
  by rewrite Nat.add_0_r.
Qed.

Lemma param_names_middle pre l post k :
  k < length (Layer.blobs l) →
  param_names (pre ++ l :: post) !! (length (param_names pre) + k)
  = Some (param_display_name (Layer.layer_param l) k).
Proof.
  intros Hk. unfold param_names at 2. rewrite imap_app, join_app. simpl.
  fold (param_names pre).
  rewrite lookup_app_r by lia.
  replace (length (param_names pre) + k - length (param_names pre))
    with k by lia.
  rewrite lookup_app_l by (by rewrite length_fmap, length_seq).
  by rewrite list_lookup_fmap, lookup_seq_lt.
Qed.

Lemma param_names_length layers :
  length (param_names layers) = length (param_refs layers).
Proof.
  induction layers as [|l layers IH] using rev_ind; [done|].
  rewrite param_refs_snoc, param_names_snoc, !length_app, !length_fmap.
  by rewrite IH.
Qed.

Lemma param_refs_lookup layers i l k :
  layers !! i = Some l →
  k < length (Layer.blobs l) →
  param_refs layers !! (length (param_refs (take i layers)) + k) = Some (i, k) ∧
  param_names layers !! (length (param_refs (take i layers)) + k)
  = Some (param_display_name (Layer.layer_param l) k).
Proof.
  intros Hi Hk.
  pose proof (param_refs_middle (take i layers) l (drop (S i) layers) k Hk)
    as Hrefs.
  pose proof (param_names_middle (take i layers) l (drop (S i) layers) k Hk)
    as Hnames.
  rewrite take_drop_middle in Hrefs, Hnames by done.
  rewrite param_names_length in Hnames.
  apply lookup_lt_Some in Hi.
  rewrite length_take_le in Hrefs by lia. done.
Qed.

Section parameter_properties.
Context {collaborators : Collaborators}.

(** X17. The table of parameters of a net that [Init] built lists the
    parameter blobs of the layers, layer by layer and in their order in
    the layer, each with its display name; and the ids a layer has in
    [param_id_vecs_] lead to its own parameters: the [k]-th id of layer
    [i] is the place of the pair (i, k) in [params_]. *)
Theorem Init_registers_params (in_param : NetParameter) (n : Net) :
  Init in_param = Ok n →
  Net.params_ n = param_refs (Net.layers_ n) ∧
  Net.param_display_names_ n = param_names (Net.layers_ n) ∧
  ∀ i l k,
    Net.layers_ n !! i = Some l →
    k < length (Layer.blobs l) →
    ∃ id,
      (Net.param_id_vecs_ n !!! i) !! k = Some id ∧
      Net.params_ n !! id = Some (i, k) ∧
      Net.param_display_names_ n !! id
      = Some (param_display_name (Layer.layer_param l) k).
Proof.
  intros Hinit.
  destruct (Init_inv _ _ Hinit) as (_ & filtered & _ & Hfilter & _).
  destruct (Init_registered _ _ _ Hfilter Hinit) as (Hr & _ & _).
  split; [apply Hr|]. split; [apply Hr|].
  intros i l k Hi Hk.
  exists (length (param_refs (take i (Net.layers_ n))) + k).
  rewrite (list_lookup_total_correct _ _ _ (reg_rows _ _ Hr i l Hi)).
  split; [by apply lookup_seq_lt|].
  rewrite (reg_params _ _ Hr), (reg_names _ _ Hr).
  by apply param_refs_lookup.
Qed.

Lemma Init_finish_first w n :
  Init_finish w = Ok n →
  ∃ first, Net.layers_ (net w) !! 0 = Some first ∧ Layer.type first = "Input".
Proof.
  unfold Init_finish. destruct (Net.layers_ (net w)) as [|first ?]; [done|].
  case_bool_decide as Htype; [done|]. intros _. exists first.
  split; [done|].
  by destruct (decide (Layer.type first = "Input")).
Qed.

(** X18. The layers of a net that [Init] built are the layers
    [CreateLayer] made of the filtered description with its splits, in
    order, under their names, and the net has the name of that
    description; the first of them has type Input.  When the wiring of
    the layers succeeds and the first layer made is no Input layer,
    [Init] stops with the error of that check. *)
Theorem Init_creates_layers (in_param : NetParameter) :
  (∀ n, Init in_param = Ok n →
     ∃ filtered,
       FilterNet in_param = Ok filtered ∧
       Net.layers_ n
       = CreateLayer <$> NetParameter.layer (InsertSplits filtered) ∧
       Net.layer_names_ n
       = LayerParameter.name <$> NetParameter.layer (InsertSplits filtered) ∧
       Net.name_ n = NetParameter.name (InsertSplits filtered) ∧
       ∃ first, Net.layers_ n !! 0 = Some first ∧ Layer.type first = "Input") ∧
  (∀ filtered w first rest,
     NetState.phase (NetParameter.state in_param) = TEST →
     FilterNet in_param = Ok filtered →
     Init_wire (InsertSplits filtered) = Ok w →
     NetParameter.layer (InsertSplits filtered) = first :: rest →
     Layer.type (CreateLayer first) ≠ "Input" →
     Init in_param = Fatal FirstLayerIsNotInput).
Proof.
  split.
  - intros n Hinit.
    destruct (Init_inv _ _ Hinit) as (_ & filtered & w & Hfilter & _ & Hfinish).
    destruct (Init_registered _ _ _ Hfilter Hinit) as (_ & Hlayers & Hname).
    pose proof (Init_assembled _ _ _ Hfilter Hinit) as Ha.
    exists filtered. split; [done|]. split; [done|].
    split; [apply Ha|]. split; [done|].
    destruct (Init_finish_first _ _ Hfinish) as (first & Hfirst & Htype).
    exists first. split; [|done].
    apply Init_finish_same_params in Hfinish as (_ & -> & _). done.
  - intros filtered w first rest Hphase Hfilter Hwire Hls Htype.
    destruct (registered_Init_layers _ _ _ _
                (registered_start (InsertSplits filtered)) (le_n _) Hwire)
      as (_ & Hlayers & _).
    simpl in Hlayers. rewrite Hls in Hlayers. simpl in Hlayers.
    unfold Init. rewrite bool_decide_eq_false_2 by (by intros ?).
    rewrite Hfilter. simpl. rewrite Hwire. simpl.
    unfold Init_finish. rewrite Hlayers.
    by rewrite bool_decide_eq_true_2.
Qed.

End parameter_properties.

(** ** Filtering twice *)

Lemma filter_all {A} (P : A → Prop) `{∀ x, Decision (P x)} (l : list A) :
  Forall P l → filter P l = l.
Proof.
  induction 1 as [|x l Hx _ IH]; [done|].
  by rewrite filter_cons_True, IH.
Qed.

Lemma FilterNet_Ok param filtered :
  FilterNet param = Ok filtered →
  Forall (λ lp, ¬ both_rule_lists lp) (NetParameter.layer param) ∧
  filtered
  = {| NetParameter.name := NetParameter.name param;
       NetParameter.state := NetParameter.state param;
       NetParameter.layer :=
         filter (spec_active (NetParameter.state param))
           (NetParameter.layer param) |}.
Proof.
  unfold FilterNet. intros Hok.
  destruct (decide (Exists both_rule_lists (NetParameter.layer param)))
    as [Hex|Hnone].
  - destruct (FilterNet_loop_both (NetParameter.state param) _
                (NetParameter.clear_layer param) Hex) as (lp & _ & _ & Hfatal).
    congruence.
  - apply not_Exists_Forall in Hnone; [|apply _].
    split; [done|].
    rewrite (FilterNet_loop_kept _ _ _ Hnone) in Hok. by injection Hok as <-.
Qed.

(** X19. Filtering is idempotent: the description [FilterNet] returns
    passes the filter again unchanged; every layer of it is one the
    rules include, and its layers are layers of the description that
    was filtered, in the same order. *)
Theorem FilterNet_idempotent (param filtered : NetParameter) :
  FilterNet param = Ok filtered →
  FilterNet filtered = Ok filtered ∧
  (∀ lp, lp ∈ NetParameter.layer filtered →
         layer_included (NetParameter.state param) lp = true) ∧
  sublist (NetParameter.layer filtered) (NetParameter.layer param).
Proof.
  intros [Hnone ->]%FilterNet_Ok.
  set (state := NetParameter.state param) in *.
  assert (Forall (λ lp, ¬ both_rule_lists lp)
            (filter (spec_active state) (NetParameter.layer param))) as Hnone'.
  { apply Forall_forall. intros lp [_ Hin]%list_elem_of_filter.
    by eapply Forall_forall in Hnone. }
  split; [|split].
  - unfold FilterNet. simpl.
    rewrite (FilterNet_loop_kept _ _ _ Hnone'). simpl.
    rewrite filter_all; [done|].
    apply Forall_forall. by intros lp [? _]%list_elem_of_filter.
  - simpl. intros lp [Hactive Hin]%list_elem_of_filter.
    apply layer_included_spec; [|done].
    by eapply Forall_forall in Hnone.
  - simpl. apply sublist_filter.
Qed.

(** ** The errors of Init *)

Lemma for_each_Fatal {St} (body : nat → St → result St) ids s e :
  for_each body ids s = Fatal e →
  ∃ i s0, i ∈ ids ∧ body i s0 = Fatal e.
Proof.
  revert s. induction ids as [|i ids IH]; intros s; simpl; [done|].
  destruct (body i s) as [s'|e'] eqn:Hbody; simpl.
  - intros (j & s0 & Hj & Hfail)%IH. exists j, s0.
    split; [apply elem_of_cons; by right | done].
  - intros [= <-]. exists i, s. split; [apply elem_of_cons; by left | done].
Qed.

Lemma FilterNet_loop_Fatal net_state layers param_filtered e :
  FilterNet_loop net_state layers param_filtered = Fatal e →
  ∃ lp, lp ∈ layers ∧ both_rule_lists lp ∧
    e = IncludeAndExclude (LayerParameter.name lp).
Proof.
  revert param_filtered.
  induction layers as [|lp layers IH]; intros param_filtered; simpl; [done|].
  destruct (negb _) eqn:Hboth.
  - intros [= <-]. exists lp. split; [apply elem_of_cons; by left|].
    split; [|done].
    apply negb_true_iff, orb_false_iff in Hboth as [Hi He].
    apply bool_decide_eq_false in Hi, He. done.
  - intros (lp' & Hin & Hb & ->)%IH. exists lp'.
    split; [apply elem_of_cons; by right | done].
Qed.

Lemma AppendBottom_Fatal lp layer_id k w e :
  k < length (LayerParameter.bottom lp) →
  AppendBottom lp layer_id k w = Fatal e →
  ∃ name, LayerParameter.bottom lp !! k = Some name ∧
    e = UnknownBottomBlob name (LayerParameter.name lp) k.
Proof.
  intros Hk. destruct (lookup_lt_is_Some_2 _ _ Hk) as [name Hname].
  unfold AppendBottom. rewrite (list_lookup_total_correct _ _ _ Hname).
  case_bool_decide; [|done]. intros [= <-]. by exists name.
Qed.

Lemma Init_top_Fatal lp layer_id k w e :
  k < length (LayerParameter.top lp) →
  Init_top lp layer_id k w = Fatal e →
  ∃ name, LayerParameter.top lp !! k = Some name ∧
    LayerParameter.bottom lp !! k ≠ Some name ∧
    e = TopProducedByMultipleSources name.
Proof.
  intros Hk. destruct (lookup_lt_is_Some_2 _ _ Hk) as [name Hname].
  unfold Init_top, AppendTop. rewrite (top_blob_name_lookup _ _ _ Hname).
  destruct (in_place lp k) eqn:Hip; [done|].
  case_bool_decide; [|done]. simpl. intros [= <-]. exists name.
  split; [done|]. split; [|done].
  intros Hb. apply (in_place_iff _ _ _ Hname) in Hb. congruence.
Qed.

Section errors.
Context {collaborators : Collaborators}.

Lemma Init_layer_Fatal lp layer_id w e :
  Init_layer lp layer_id w = Fatal e →
  ∃ k name,
    (LayerParameter.bottom lp !! k = Some name ∧
     e = UnknownBottomBlob name (LayerParameter.name lp) k) ∨
    (LayerParameter.top lp !! k = Some name ∧
     LayerParameter.bottom lp !! k ≠ Some name ∧
     e = TopProducedByMultipleSources name).
Proof.
  unfold Init_layer.
  destruct (for_each (AppendBottom lp layer_id) _ _) as [w1|e1] eqn:Hb; simpl.
  - destruct (for_each (Init_top lp layer_id) _ w1) as [w2|e2] eqn:Ht; simpl;
      [done|].
    intros [= <-].
    apply for_each_Fatal in Ht as (k & s0 & Hk%elem_of_seq & Hfail).
    apply Init_top_Fatal in Hfail as (name & ? & ? & ?); [|lia].
    exists k, name. by right.
  - intros [= <-].
    apply for_each_Fatal in Hb as (k & s0 & Hk%elem_of_seq & Hfail).
    apply AppendBottom_Fatal in Hfail as (name & ? & ?); [|lia].
    exists k, name. by left.
Qed.

Lemma Init_layers_Fatal layer_id ls w e :
  Init_layers layer_id ls w = Fatal e →
  ∃ lp k name, lp ∈ ls ∧
    ((LayerParameter.bottom lp !! k = Some name ∧
      e = UnknownBottomBlob name (LayerParameter.name lp) k) ∨
     (LayerParameter.top lp !! k = Some name ∧
      LayerParameter.bottom lp !! k ≠ Some name ∧
      e = TopProducedByMultipleSources name)).
Proof.
  revert layer_id w. induction ls as [|lp ls IH]; intros layer_id w; simpl;
    [done|].
  destruct (Init_layer lp layer_id w) as [w1|e1] eqn:Hl; simpl.
  - intros (lp' & k & name & Hin & Hcase)%IH. exists lp', k, name.
    split; [apply elem_of_cons; by right | done].
  - intros [= <-]. apply Init_layer_Fatal in Hl as (k & name & Hcase).
    exists lp, k, name. split; [apply elem_of_cons; by left | done].
Qed.

(** X20. [Init] stops with no other errors than these: the phase check;
    a layer of the description with both kinds of rules; an input name
    or an output name of a layer of the filtered description with its
    splits, as the unknown input or the output produced twice; the check
    of the first layer. *)
Theorem Init_fails_only_with (in_param : NetParameter) (e : FatalError) :
  Init in_param = Fatal e →
  (e = PhaseIsNotTest ∧ NetState.phase (NetParameter.state in_param) ≠ TEST) ∨
  (∃ lp, lp ∈ NetParameter.layer in_param ∧ both_rule_lists lp ∧
     e = IncludeAndExclude (LayerParameter.name lp)) ∨
  (∃ filtered lp k name,
     FilterNet in_param = Ok filtered ∧
     lp ∈ NetParameter.layer (InsertSplits filtered) ∧
     ((LayerParameter.bottom lp !! k = Some name ∧
       e = UnknownBottomBlob name (LayerParameter.name lp) k) ∨
      (LayerParameter.top lp !! k = Some name ∧
       LayerParameter.bottom lp !! k ≠ Some name ∧
       e = TopProducedByMultipleSources name))) ∨
  e = FirstLayerIsNotInput ∨
  e = SubscriptOfEmptyVector.
Proof.
  unfold Init. case_bool_decide as Hphase.
  { intros [= <-]. by left. }
  destruct (FilterNet in_param) as [filtered|e1] eqn:Hfilter; simpl.
  - destruct (Init_wire (InsertSplits filtered)) as [w|e2] eqn:Hwire; simpl.
    + unfold Init_finish. destruct (Net.layers_ (net w)).
      * intros [= <-]. by do 4 right.
      * case_bool_decide; [|done]. intros [= <-]. do 3 right. by left.
    + intros [= <-]. right. right. left.
      apply Init_layers_Fatal in Hwire as (lp & k & name & Hin & Hcase).
      by exists filtered, lp, k, name.
  - intros [= <-]. right. left. by apply FilterNet_loop_Fatal in Hfilter.
Qed.

End errors.

(** ** What the weight load keeps *)

Lemma copy_blobs_shapes source_layer js target_blobs :
  Blob.shape_ <$> (copy_blobs source_layer js target_blobs).2
  = Blob.shape_ <$> target_blobs.
Proof.
  revert target_blobs.
  induction js as [|j js IH]; intros target_blobs; simpl; [done|].
  destruct (Blob.ShapeEquals _ _); simpl; [|done].
  rewrite IH, list_fmap_insert. simpl.
  destruct (decide (j < length target_blobs)) as [Hlt|Hge].
  - apply list_insert_id. rewrite list_lookup_fmap.
    by rewrite (list_lookup_lookup_total_lt _ _ Hlt).
  - apply list_insert_ge. rewrite length_fmap. lia.
Qed.

Lemma copy_layer_keeps source_layer n :
  Net.with_layers_ (Net.layers_ n) (copy_layer source_layer n).2 = n ∧
  layer_shapes <$> Net.layers_ (copy_layer source_layer n).2
  = layer_shapes <$> Net.layers_ n.
Proof.
  unfold copy_layer. repeat case_bool_decide; simpl;
    [by destruct n | by destruct n | split; [by destruct n|]].
  rewrite list_fmap_insert. unfold layer_shapes at 1. simpl.
  rewrite copy_blobs_shapes.
  set (t := find_target_layer _ _ _).
  destruct (decide (t < length (Net.layers_ n))) as [Hlt|Hge].
  - apply list_insert_id. rewrite list_lookup_fmap.
    by rewrite (list_lookup_lookup_total_lt _ _ Hlt).
  - apply list_insert_ge. rewrite length_fmap. lia.
Qed.

Lemma CopyTrainedLayersFrom_loop_keeps sources n :
  Net.with_layers_ (Net.layers_ n) (CopyTrainedLayersFrom_loop sources n).2
  = n ∧
  layer_shapes <$> Net.layers_ (CopyTrainedLayersFrom_loop sources n).2
  = layer_shapes <$> Net.layers_ n.
Proof.
  revert n. induction sources as [|s sources IH]; intros n; simpl.
  - split; [by destruct n | done].
  - destruct (copy_layer_keeps s n) as [Hframe Hshapes].
    destruct (copy_layer s n) as [[|e] n1]; simpl in *; [|done].
    destruct (IH n1) as [Hframe1 Hshapes1].
    split; [|congruence].
    rewrite <- Hframe at 2. rewrite <- Hframe1 at 2. by destruct n, n1.
Qed.

Lemma layer_shapes_total (ls ls' : list Layer) t :
  layer_shapes <$> ls' = layer_shapes <$> ls →
  layer_shapes (ls' !!! t) = layer_shapes (ls !!! t).
Proof.
  intros Heq.
  assert (length ls' = length ls) as Hlen
    by (by rewrite <- (length_fmap layer_shapes ls'), Heq, length_fmap).
  destruct (decide (t < length ls)) as [Hlt|Hge].
  - destruct (lookup_lt_is_Some_2 ls t Hlt) as [l Hl].
    destruct (lookup_lt_is_Some_2 ls' t) as [l' Hl']; [lia|].
    rewrite (list_lookup_total_correct _ _ _ Hl).
    rewrite (list_lookup_total_correct _ _ _ Hl').
    assert ((layer_shapes <$> ls') !! t = (layer_shapes <$> ls) !! t) as Ht
      by (by rewrite Heq).
    rewrite !list_lookup_fmap, Hl, Hl' in Ht. simpl in Ht. congruence.
  - rewrite !list_lookup_total_alt, !lookup_ge_None_2 by lia. done.
Qed.

Lemma fits_same n n' source_layer :
  Net.layer_names_ n' = Net.layer_names_ n →
  layer_shapes <$> Net.layers_ n' = layer_shapes <$> Net.layers_ n →
  fits n source_layer → fits n' source_layer.
Proof.
  intros Hnames Hshapes Hfits t Ht Hfirst.
  rewrite Hnames in Ht, Hfirst.
  pose proof (layer_shapes_total _ _ t Hshapes) as Heq.
  unfold layer_shapes in Heq. injection Heq as _ ->. by apply Hfits.
Qed.

Lemma copy_blobs_completes_iff source_layer target_blobs :
  length target_blobs = length (LayerParameter.blobs source_layer) →
  (copy_blobs source_layer (seq 0 (length target_blobs)) target_blobs).1
  = Completed ↔
  Blob.shape_ <$> target_blobs
  = BlobProto.shape <$> LayerParameter.blobs source_layer.
Proof.
  intros Hlen.
  assert (Blob.shape_ <$> target_blobs
          = BlobProto.shape <$> LayerParameter.blobs source_layer ↔
          Forall2 (λ target source,
                     Blob.shape_ target = BlobProto.shape source)
            target_blobs (LayerParameter.blobs source_layer)) as ->.
  { rewrite list_eq_Forall2, Forall2_fmap. done. }
  split.
  - intros Hdone. apply Forall2_same_length_lookup. split; [done|].
    intros j target source Htarget Hsource.
    destruct (decide (Blob.shape_ target = BlobProto.shape source))
      as [|Hne]; [done|].
    exfalso.
    destruct (first_mismatch _ _ _ _ _ Htarget Hsource Hne)
      as (j0 & target0 & source0 & _ & Ht0 & Hs0 & Hne0 & Hbefore).
    rewrite (copy_blobs_mismatch _ _ j0 _ _ _ (lookup_lt_Some _ _ _ Ht0)
               Ht0 Hs0 Hne0 Hbefore) in Hdone.
    done.
  - intros Hall. by rewrite (copy_blobs_all _ _ Hall).
Qed.

Lemma find_target_layer_before names name start j :
  start + j < find_target_layer names name start →
  names !! j ≠ Some name.
Proof.
  revert start j. induction names as [|name' names IH]; intros start j;
    simpl; [done|].
  destruct (String.eqb name' name) eqn:Heq; simpl; [lia|].
  apply String.eqb_neq in Heq.
  destruct j as [|j]; simpl; [congruence|].
  intros Hlt. apply (IH (S start)). lia.
Qed.

Lemma copy_layer_completes_iff source_layer n :
  (copy_layer source_layer n).1 = Completed ↔ fits n source_layer.
Proof.
  unfold copy_layer, fits.
  set (name := LayerParameter.name source_layer).
  destruct (find_target_layer_range (Net.layer_names_ n) name 0)
    as [Hle Hfound].
  pose proof (find_target_layer_before (Net.layer_names_ n) name 0)
    as Hbefore.
  simpl in Hle, Hfound, Hbefore. rewrite Nat.sub_0_r in Hfound.
  case_bool_decide as Hend.
  - split; [|done]. intros _ t Ht Hfirst. exfalso.
    rewrite (find_target_layer_first _ _ 0 t Ht Hfirst) in Hend.
    apply lookup_lt_Some in Ht. simpl in Hend. lia.
  - set (t0 := find_target_layer (Net.layer_names_ n) name 0) in *.
    assert (Net.layer_names_ n !! t0 = Some name) as Ht0
      by (apply Hfound; lia).
    assert (Blob.shape_ <$> Layer.blobs (Net.layers_ n !!! t0)
            = BlobProto.shape <$> LayerParameter.blobs source_layer ↔
            ∀ t, Net.layer_names_ n !! t = Some name →
                 (∀ j, j < t → Net.layer_names_ n !! j ≠ Some name) →
                 Blob.shape_ <$> Layer.blobs (Net.layers_ n !!! t)
                 = BlobProto.shape <$> LayerParameter.blobs source_layer)
      as <-.
    { split.
      - intros Hshape t Ht Hfirst.
        pose proof (find_target_layer_first _ _ 0 t Ht Hfirst) as Heq.
        simpl in Heq. fold t0 in Heq. by subst t.
      - intros Hall. apply Hall; [done|]. intros j Hj. by apply Hbefore. }
    case_bool_decide as Hcount; simpl.
    + split; [done|]. intros Hshape. exfalso. apply Hcount.
      by rewrite <- (length_fmap Blob.shape_), Hshape, length_fmap.
    + apply copy_blobs_completes_iff.
      by destruct (decide (length (Layer.blobs (Net.layers_ n !!! t0))
                           = length (LayerParameter.blobs source_layer))).
Qed.

Lemma CopyTrainedLayersFrom_loop_completes_iff sources n :
  (CopyTrainedLayersFrom_loop sources n).1 = Completed ↔
  Forall (fits n) sources.
Proof.
  revert n. induction sources as [|s sources IH]; intros n; simpl.
  - split; [constructor | done].
  - rewrite Forall_cons, <- copy_layer_completes_iff.
    destruct (copy_layer_keeps s n) as [_ Hshapes].
    pose proof (copy_layer_names s n) as Hnames.
    destruct (copy_layer s n) as [[|e] n1]; simpl in *.
    + rewrite IH. split.
      * intros Hall. split; [done|].
        eapply Forall_impl; [exact Hall|]. intros x. by apply fits_same.
      * intros [_ Hall].
        eapply Forall_impl; [exact Hall|]. intros x. by apply fits_same.
    + split; [done | by intros [? _]].
Qed.

(** X21. The weight load, whether it completes or stops, writes nothing
    but the blobs of layers, and of those only the data: every other
    field of the net is as before, and every layer has its description
    and the shapes of its blobs as before. *)
Theorem CopyTrainedLayersFrom_keeps_shapes (n : Net) (param : NetParameter) :
  Net.with_layers_ (Net.layers_ n) (CopyTrainedLayersFrom n param).2 = n ∧
  layer_shapes <$> Net.layers_ (CopyTrainedLayersFrom n param).2
  = layer_shapes <$> Net.layers_ n.
Proof. apply CopyTrainedLayersFrom_loop_keeps. Qed.

(** X22. The weight load completes exactly when every foreign layer
    fits the net as it was before the load: for the first layer of the
    net that bears the name of the foreign layer, if there is one, the
    shapes of its blobs are the shapes of the foreign blobs, one by
    one. *)
Theorem CopyTrainedLayersFrom_completes_iff (n : Net) (param : NetParameter) :
  (CopyTrainedLayersFrom n param).1 = Completed ↔
  Forall (fits n) (NetParameter.layer param).
Proof. apply CopyTrainedLayersFrom_loop_completes_iff. Qed.

(** ** Loading twice *)

Lemma zip_with_loaded_shapes (targets targets' : list Blob)
    (sources : list BlobProto) :
  Blob.shape_ <$> targets' = Blob.shape_ <$> targets →
  zip_with loaded targets' sources = zip_with loaded targets sources.
Proof.
  revert targets' sources.
  induction targets as [|t targets IH]; intros [|t' targets'] sources Heq;
    try done.
  destruct sources as [|s sources]; [done|]. simpl in *.
  injection Heq as Hshape Hrest. rewrite (IH _ _ Hrest).
  unfold loaded. by rewrite Hshape.
Qed.

(** On two nets that differ in the data of blobs only, a foreign layer
    that loads into the one loads into the other, and leaves the same
    layer in both at the place it writes. *)
Lemma copy_layer_twice source_layer n m n1 :
  Net.layer_names_ m = Net.layer_names_ n →
  layer_shapes <$> Net.layers_ m = layer_shapes <$> Net.layers_ n →
  copy_layer source_layer n = (Completed, n1) →
  ∃ m1, copy_layer source_layer m = (Completed, m1) ∧
    ∀ i,
      (find_target_layer (Net.layer_names_ n)
         (LayerParameter.name source_layer) 0 = i
       ∧ i < length (Net.layer_names_ n))
      ∨ Net.layers_ m !! i = Net.layers_ n !! i →
      Net.layers_ m1 !! i = Net.layers_ n1 !! i.
Proof.
  intros Hnames Hshapes Hcopy.
  assert (length (Net.layers_ m) = length (Net.layers_ n)) as Hlen.
  { by rewrite <- (length_fmap layer_shapes (Net.layers_ m)), Hshapes,
      length_fmap. }
  unfold copy_layer in Hcopy |- *. rewrite Hnames.
  set (t := find_target_layer (Net.layer_names_ n)
              (LayerParameter.name source_layer) 0) in *.
  pose proof (layer_shapes_total _ _ t Hshapes) as Hsame.
  unfold layer_shapes in Hsame. injection Hsame as Hparam Hsh.
  assert (length (Layer.blobs (Net.layers_ m !!! t))
          = length (Layer.blobs (Net.layers_ n !!! t))) as Hcount.
  { by rewrite <- (length_fmap Blob.shape_), Hsh, length_fmap. }
  case_bool_decide as Hend.
  - injection Hcopy as <-. exists m. split; [done|].
    intros i [[Heq Hlt]|Hagree]; [lia|done].
  - case_bool_decide as Hne; [done|].
    assert (length (Layer.blobs (Net.layers_ n !!! t))
            = length (LayerParameter.blobs source_layer)) as Hfull
      by (by destruct (decide (length (Layer.blobs (Net.layers_ n !!! t))
                               = length (LayerParameter.blobs source_layer)))).
    injection Hcopy as Hdone <-.
    apply copy_blobs_completes_iff in Hdone as Hfit; [|done].
    assert (Forall2 (λ target source,
                       Blob.shape_ target = BlobProto.shape source)
              (Layer.blobs (Net.layers_ n !!! t))
              (LayerParameter.blobs source_layer)) as Hall
      by (by rewrite <- Forall2_fmap, <- list_eq_Forall2).
    assert (Forall2 (λ target source,
                       Blob.shape_ target = BlobProto.shape source)
              (Layer.blobs (Net.layers_ m !!! t))
              (LayerParameter.blobs source_layer)) as Hall'
      by (by rewrite <- Forall2_fmap, <- list_eq_Forall2, Hsh).
    rewrite bool_decide_eq_false_2 by (rewrite Hcount; by intros ?).
    rewrite (copy_blobs_all _ _ Hall), (copy_blobs_all _ _ Hall').
    eexists. split; [done|]. simpl.
    rewrite (zip_with_loaded_shapes _ _ _ Hsh).
    intros i Hi.
    destruct (decide (t = i)) as [<-|Hother].
    + rewrite !list_lookup_insert. rewrite Hlen.
      case_decide as Hin.
      * unfold Layer.with_blobs. by rewrite Hparam.
      * rewrite !lookup_ge_None_2; [done|lia..].
    + rewrite !list_lookup_insert_ne by done.
      destruct Hi as [[? _]|?]; [done|done].
Qed.

Lemma CopyTrainedLayersFrom_loop_twice sources n m n1 :
  Net.layer_names_ m = Net.layer_names_ n →
  layer_shapes <$> Net.layers_ m = layer_shapes <$> Net.layers_ n →
  CopyTrainedLayersFrom_loop sources n = (Completed, n1) →
  ∃ m1, CopyTrainedLayersFrom_loop sources m = (Completed, m1) ∧
    ∀ i,
      (∃ s, s ∈ sources ∧
         find_target_layer (Net.layer_names_ n) (LayerParameter.name s) 0 = i
         ∧ i < length (Net.layer_names_ n))
      ∨ Net.layers_ m !! i = Net.layers_ n !! i →
      Net.layers_ m1 !! i = Net.layers_ n1 !! i.
Proof.
  revert n m. induction sources as [|s sources IH]; intros n m Hnames Hshapes;
    simpl.
  - intros [= <-]. exists m. split; [done|].
    intros i [(s & Hs%elem_of_nil & _)|Hagree]; done.
  - destruct (copy_layer s n) as [[|e] n'] eqn:Hcopy; [|done].
    intros Hrest.
    destruct (copy_layer_twice _ _ _ _ Hnames Hshapes Hcopy)
      as (m' & Hcopy' & Hagree).
    rewrite Hcopy'.
    pose proof (copy_layer_names s n) as Hn.
    pose proof (copy_layer_names s m) as Hm.
    destruct (copy_layer_keeps s n) as [_ Hsn].
    destruct (copy_layer_keeps s m) as [_ Hsm].
    rewrite Hcopy in Hn, Hsn. rewrite Hcopy' in Hm, Hsm. simpl in *.
    destruct (IH n' m') as (m1 & Hloop & Hfinal); [congruence..|done|].
    exists m1. split; [done|].
    intros i Hi. apply Hfinal. rewrite Hn.
    destruct Hi as [(s' & [->|Hin]%elem_of_cons & Ht & Hlt)|Hsame].
    + right. apply Hagree. by left.
    + left. by exists s'.
    + right. apply Hagree. by right.
Qed.

(** What a load does not target it leaves alone. *)
Lemma CopyTrainedLayersFrom_loop_untouched sources n i :
  (∃ s, s ∈ sources ∧
     find_target_layer (Net.layer_names_ n) (LayerParameter.name s) 0 = i
     ∧ i < length (Net.layer_names_ n))
  ∨ Net.layers_ (CopyTrainedLayersFrom_loop sources n).2 !! i
    = Net.layers_ n !! i.
Proof.
  revert n. induction sources as [|s sources IH]; intros n; simpl;
    [by right|].
  pose proof (copy_layer_names s n) as Hn.
  assert (find_target_layer (Net.layer_names_ n) (LayerParameter.name s) 0 = i
          ∧ i < length (Net.layer_names_ n)
          ∨ Net.layers_ (copy_layer s n).2 !! i = Net.layers_ n !! i)
    as Hstep.
  { unfold copy_layer.
    set (t := find_target_layer (Net.layer_names_ n)
                (LayerParameter.name s) 0).
    pose proof (find_target_layer_range (Net.layer_names_ n)
                  (LayerParameter.name s) 0) as [Hle _]. fold t in Hle.
    simpl in Hle.
    repeat case_bool_decide; simpl; [by right..|].
    destruct (decide (t = i)) as [<-|Hne].
    - left. split; [done|lia].
    - right. by apply list_lookup_insert_ne. }
  destruct Hstep as [Hhere|Hstep].
  { left. exists s. split; [apply elem_of_cons; by left | done]. }
  destruct (copy_layer s n) as [[|e] n'] eqn:Hcopy; simpl in *; [|by right].
  destruct (IH n') as [(s' & Hin & Ht & Hlt)|Hrest].
  - left. exists s'. rewrite <- Hn. split; [|done].
    apply elem_of_cons. by right.
  - right. congruence.
Qed.

(** X23. A load that has completed can be repeated: the same
    description loads again without error and leaves the net as the
    first load left it. *)
Theorem CopyTrainedLayersFrom_twice (n n1 : Net) (param : NetParameter) :
  CopyTrainedLayersFrom n param = (Completed, n1) →
  CopyTrainedLayersFrom n1 param = (Completed, n1).
Proof.
  unfold CopyTrainedLayersFrom. intros Hload.
  destruct (CopyTrainedLayersFrom_loop_keeps (NetParameter.layer param) n)
    as [Hframe Hshapes].
  destruct (CopyTrainedLayersFrom_loop_frame (NetParameter.layer param) n)
    as (Hnames & _).
  rewrite Hload in Hframe, Hshapes, Hnames. simpl in *.
  destruct (CopyTrainedLayersFrom_loop_twice _ _ _ _ Hnames Hshapes Hload)
    as (n2 & Hagain & Hagree).
  rewrite Hagain. f_equal.
  destruct (CopyTrainedLayersFrom_loop_keeps (NetParameter.layer param) n1)
    as [Hframe2 _].
  rewrite Hagain in Hframe2. simpl in Hframe2.
  assert (Net.layers_ n2 = Net.layers_ n1) as Hlayers.
  { apply list_eq. intros i. apply Hagree.
    pose proof (CopyTrainedLayersFrom_loop_untouched
                  (NetParameter.layer param) n i) as Hi.
    by rewrite Hload in Hi. }
  clear -Hframe2 Hlayers. destruct n1, n2. simpl in *.
  unfold Net.with_layers_ in Hframe2. simpl in Hframe2.
  injection Hframe2 as <- <- <- <- <- <- <- <- <- <- <- <- <- <-.
  by rewrite Hlayers.
Qed.

(** ** Where the load stops *)

Lemma copy_blobs_Aborted source_layer js target_blobs e :
  (copy_blobs source_layer js target_blobs).1 = Aborted e →
  ∃ j source_shape target_shape,
    e = ShapeMismatch j (LayerParameter.name source_layer)
          source_shape target_shape.
Proof.
  revert target_blobs. induction js as [|j js IH]; intros target_blobs; simpl.
  - done.
  - destruct (Blob.ShapeEquals _ _); simpl; [apply IH|].
    intros [= <-]. eauto.
Qed.

Lemma copy_layer_Aborted source_layer n e :
  (copy_layer source_layer n).1 = Aborted e →
  e = IncompatibleNumberOfBlobs (LayerParameter.name source_layer) ∨
  ∃ j source_shape target_shape,
    e = ShapeMismatch j (LayerParameter.name source_layer)
          source_shape target_shape.
Proof.
  unfold copy_layer. repeat case_bool_decide; simpl; [done | | ].
  - intros [= <-]. by left.
  - intros He. right. by eapply copy_blobs_Aborted.
Qed.

Lemma CopyTrainedLayersFrom_loop_Aborted sources n e n' :
  CopyTrainedLayersFrom_loop sources n = (Aborted e, n') →
  ∃ pre s post,
    sources = pre ++ s :: post ∧
    Forall (fits n) pre ∧
    ¬ fits n s ∧
    (e = IncompatibleNumberOfBlobs (LayerParameter.name s) ∨
     ∃ j source_shape target_shape,
       e = ShapeMismatch j (LayerParameter.name s) source_shape target_shape).
Proof.
  revert n. induction sources as [|s sources IH]; intros n; simpl; [done|].
  pose proof (copy_layer_completes_iff s n) as Hfit.
  pose proof (copy_layer_Aborted s n) as Herr.
  destruct (copy_layer_keeps s n) as [_ Hshapes].
  pose proof (copy_layer_names s n) as Hnames.
  destruct (copy_layer s n) as [[|e1] n1]; simpl in *.
  - intros (pre & s' & post & -> & Hpre & Hnot & He)%IH.
    exists (s :: pre), s', post. split; [done|]. split; [|split; [|done]].
    + constructor; [by apply Hfit|].
      eapply Forall_impl; [exact Hpre|]. intros x. by apply fits_same.
    + intros Hs'. apply Hnot. revert Hs'. by apply fits_same.
  - intros [= <- <-]. exists [], s, sources. split; [done|].
    split; [constructor|]. split; [|by apply Herr].
    intros Hs. by apply Hfit in Hs.
Qed.

(** X24. A load that stops has stopped at the first foreign layer that
    does not fit the net as it was before the load, and the error bears
    the name of that layer. *)
Theorem CopyTrainedLayersFrom_stops_at_first_misfit (n n' : Net)
    (param : NetParameter) (e : FatalError) :
  CopyTrainedLayersFrom n param = (Aborted e, n') →
  ∃ pre s post,
    NetParameter.layer param = pre ++ s :: post ∧
    Forall (fits n) pre ∧
    ¬ fits n s ∧
    (e = IncompatibleNumberOfBlobs (LayerParameter.name s) ∨
     ∃ j source_shape target_shape,
       e = ShapeMismatch j (LayerParameter.name s) source_shape target_shape).
Proof. apply CopyTrainedLayersFrom_loop_Aborted. Qed.

(** ** A pass after a load *)

Lemma forward_loop_same n n' ids :
  Net.bottom_id_vecs_ n' = Net.bottom_id_vecs_ n →
  Net.blob_life_time_ n' = Net.blob_life_time_ n →
  forward_loop n' ids = forward_loop n ids.
Proof.
  intros Hb Hl. induction ids as [|i ids IH]; simpl; [done|].
  rewrite IH, Hb. do 2 f_equal.
  induction (Net.bottom_id_vecs_ n !!! i) as [|b row IHrow]; simpl; [done|].
  by rewrite IHrow, Hl.
Qed.

(** X25. Loading weights changes nothing of what a pass does: after
    a load, completed or not, a pass over any range stops with the same
    error or makes the same calls as before the load. *)
Theorem ForwardFromTo_after_load (n : Net) (param : NetParameter)
    (start end_ : Z) :
  ForwardFromTo (CopyTrainedLayersFrom n param).2 start end_
  = ForwardFromTo n start end_.
Proof.
  destruct (CopyTrainedLayersFrom_loop_keeps (NetParameter.layer param) n)
    as [Hframe Hshapes].
  fold (CopyTrainedLayersFrom n param) in Hframe, Hshapes.
  set (n' := (CopyTrainedLayersFrom n param).2) in *.
  assert (length (Net.layers_ n') = length (Net.layers_ n)) as Hlen.
  { by rewrite <- (length_fmap layer_shapes (Net.layers_ n')), Hshapes,
      length_fmap. }
  assert (Net.bottom_id_vecs_ n' = Net.bottom_id_vecs_ n) as Hb
    by (by rewrite <- Hframe).
  assert (Net.blob_life_time_ n' = Net.blob_life_time_ n) as Hl
    by (by rewrite <- Hframe).
  unfold ForwardFromTo. by rewrite Hlen, (forward_loop_same n n').
Qed.

(** ** The further properties on the sample nets *)

Lemma ForwardFromTo_runs_witness :
  ForwardFromTo sample_net (-1) 0 = Fatal ForwardStartNegative ∧
  ForwardFromTo sample_net 0 4 = Fatal ForwardEndPastLastLayer ∧
  ∃ calls,
    ForwardFromTo sample_net 1 2 = Ok calls ∧
    layer_runs calls = seq (Z.to_nat 1) (Z.to_nat (2 - 1 + 1)) ∧
    ((2 < 1)%Z → calls = []).
Proof.
  destruct (ForwardFromTo_runs sample_net (-1) 0) as (Hneg & _ & _).
  destruct (ForwardFromTo_runs sample_net 0 4) as (_ & Hpast & _).
  destruct (ForwardFromTo_runs sample_net 1 2) as (_ & _ & Hruns).
  split; [apply Hneg; lia|]. split.
  - apply Hpast; [lia|]. vm_compute. split; [discriminate|reflexivity].
  - apply Hruns; [lia|]. vm_compute. split; [discriminate|reflexivity].
Defined.


Lemma ForwardFromTo_adjoining_witness :
  ForwardFromTo sample_net 0 3
  = Ok (value_of [] (ForwardFromTo sample_net 0 1)
        ++ value_of [] (ForwardFromTo sample_net (1 + 1) 3)).
Proof.
  apply (ForwardFromTo_adjoining sample_net 0 1 3).
  - lia.
  - lia.
  - vm_compute. reflexivity.
  - vm_compute. reflexivity.
Defined.

Lemma ForwardFrom_runs_to_the_end_witness :
  ForwardFrom sample_net 1
  = ForwardFromTo sample_net 1
      (Z.of_nat (length (Net.layers_ sample_net)) - 1) ∧
  ForwardTo sample_net (Z.of_nat (length (Net.layers_ sample_net)) - 1)
  = ForwardFrom sample_net 0.
Proof.
  destruct (ForwardFrom_runs_to_the_end sample_net 1) as (Hfrom & Hto & _).
  - vm_compute. split; [discriminate|reflexivity].
  - split; [exact Hfrom | exact Hto].
Defined.

Lemma Init_life_times_witness :
  length (Net.blob_life_time_ marked_net) = length (Net.blobs_ marked_net) ∧
  Net.blob_life_time_ marked_net !! 1
  = Some (length (Net.layers_ marked_net)).
Proof.
  destruct (@Init_life_times plain (sample_param TEST sample_layers) ["x"]
              sample_net marked_net) as (Hlen & _ & _ & Hmarked).
  - vm_compute. reflexivity.
  - vm_compute. reflexivity.
  - split; [exact Hlen|]. apply (Hmarked "x" 1).
    + apply list_elem_of_here.
    + vm_compute. reflexivity.
Defined.

Lemma ForwardFromTo_releases_iff_witness :
  BlobRelease 1 ∈ value_of [] (ForwardFromTo sample_net 0 3).
Proof.
  apply (@ForwardFromTo_releases_iff plain (sample_param TEST sample_layers) []
           sample_net sample_net 0 3).
  - vm_compute. reflexivity.
  - reflexivity.
  - lia.
  - vm_compute. reflexivity.
  - split; [vm_compute; lia|]. split.
    + apply (bool_decide_unpack _). vm_compute. exact I.
    + vm_compute. split; discriminate.
Defined.

Lemma ForwardFromTo_releases_once_witness :
  NoDup (releases (value_of [] (ForwardFromTo marked_net 0 3))).
Proof.
  apply (@ForwardFromTo_releases_once plain (sample_param TEST sample_layers)
           ["x"] sample_net marked_net 0 3).
  - vm_compute. reflexivity.
  - vm_compute. reflexivity.
  - vm_compute. reflexivity.
Defined.

Lemma held_blobs_are_never_released_witness :
  (BlobRelease 1 ∉ value_of [] (ForwardFromTo marked_net 0 3)) ∧
  (BlobRelease 0 ∉ value_of [] (ForwardFromTo marked_net 0 3)).
Proof.
  split.
  - apply (@held_blobs_are_never_released plain
             (sample_param TEST sample_layers) ["x"] sample_net marked_net
             0 3).
    + vm_compute. reflexivity.
    + vm_compute. reflexivity.
    + vm_compute. reflexivity.
    + right. left. exists "x". split; [apply list_elem_of_here|].
      vm_compute. reflexivity.
  - apply (bool_decide_unpack _). vm_compute. exact I.
Defined.

Lemma MarkOutputs_succeeds_iff_witness :
  (∃ n', MarkOutputs ["x"; "out"] sample_net = Ok n') ∧
  MarkOutputs ["x"; "nowhere"; "out"] sample_net
  = Fatal (BlobNotAvailable "nowhere").
Proof.
  split.
  - apply (MarkOutputs_succeeds_iff ["x"; "out"] sample_net).
    intros name Hname. apply (bool_decide_unpack _).
    apply elem_of_cons in Hname as [->|Hname]; [vm_compute; exact I|].
    apply list_elem_of_singleton in Hname as ->. vm_compute. exact I.
  - destruct (MarkOutputs_succeeds_iff ["x"; "nowhere"; "out"] sample_net)
      as [_ Hfirst].
    apply (Hfirst ["x"] "nowhere" ["out"]).
    + reflexivity.
    + intros name Hname. apply list_elem_of_singleton in Hname as ->.
      apply (bool_decide_unpack _). vm_compute. exact I.
    + vm_compute. reflexivity.
Defined.

Lemma MarkOutputs_changes_life_times_only_witness :
  Net.with_blob_life_time_ (Net.blob_life_time_ sample_net) marked_net
  = sample_net ∧
  length (Net.blob_life_time_ marked_net)
  = length (Net.blob_life_time_ sample_net).
Proof.
  destruct (MarkOutputs_changes_life_times_only ["x"] sample_net marked_net)
    as (Hframe & Hlen & _).
  - vm_compute. reflexivity.
  - split; [exact Hframe | exact Hlen].
Defined.

Lemma blob_by_name_round_trip_witness :
  has_blob sample_net "x" = true ∧ blob_by_name sample_net "x" = Ok 1.
Proof.
  destruct (@blob_by_name_round_trip plain (sample_param TEST sample_layers)
              sample_net) as (Hhas & Hby & _).
  - vm_compute. reflexivity.
  - split.
    + apply Hhas. apply (bool_decide_unpack _). vm_compute. exact I.
    + apply Hby. vm_compute. reflexivity.
Defined.

Lemma layer_by_name_is_last_witness :
  has_layer twin_net "fc" = true ∧ layer_by_name twin_net "fc" = Ok 2.
Proof.
  destruct (@layer_by_name_is_last plain (sample_param TEST twin_layers)
              twin_net) as (Hhas & Hby & _).
  - vm_compute. reflexivity.
  - split.
    + apply Hhas. apply (bool_decide_unpack _). vm_compute. exact I.
    + apply Hby. split; [vm_compute; reflexivity|].
      intros j Hj. destruct j as [|[|[|j]]]; [lia|lia|lia|].
      vm_compute. discriminate.
Defined.

Lemma CopyTrainedLayersFrom_completes_iff_witness :
  Forall (fits sample_net)
    (NetParameter.layer (sample_param TEST [unknown_layer; fitting_fc])).
Proof.
  apply CopyTrainedLayersFrom_completes_iff. vm_compute. reflexivity.
Defined.

Lemma CopyTrainedLayersFrom_twice_witness :
  CopyTrainedLayersFrom
    (CopyTrainedLayersFrom sample_net (sample_param TEST [fitting_fc])).2
    (sample_param TEST [fitting_fc])
  = (Completed,
     (CopyTrainedLayersFrom sample_net (sample_param TEST [fitting_fc])).2).
Proof.
  apply (CopyTrainedLayersFrom_twice sample_net).
  vm_compute. reflexivity.
Defined.

Lemma CopyTrainedLayersFrom_stops_at_first_misfit_witness :
  ∃ pre s post,
    NetParameter.layer (sample_param TEST [fitting_fc; misshapen_fc; unknown_layer])
    = pre ++ s :: post ∧
    Forall (fits sample_net) pre ∧
    ¬ fits sample_net s ∧
    (ShapeMismatch 1 "fc" [3%Z] [1%Z]
     = IncompatibleNumberOfBlobs (LayerParameter.name s) ∨
     ∃ j source_shape target_shape,
       ShapeMismatch 1 "fc" [3%Z] [1%Z]
       = ShapeMismatch j (LayerParameter.name s) source_shape target_shape).
Proof.
  apply (CopyTrainedLayersFrom_stops_at_first_misfit sample_net
           (CopyTrainedLayersFrom sample_net
              (sample_param TEST [fitting_fc; misshapen_fc; unknown_layer])).2).
  vm_compute. reflexivity.
Defined.

Lemma Init_registers_params_witness :
  ∃ id,
    (Net.param_id_vecs_ sample_net !!! 3) !! 1 = Some id ∧
    Net.params_ sample_net !! id = Some (3, 1) ∧
    Net.param_display_names_ sample_net !! id
    = Some (param_display_name
              (Layer.layer_param (Net.layers_ sample_net !!! 3)) 1).
Proof.
  destruct (@Init_registers_params plain (sample_param TEST sample_layers)
              sample_net) as (_ & _ & Hids).
  - vm_compute. reflexivity.
  - apply (Hids 3 (Net.layers_ sample_net !!! 3) 1).
    + vm_compute. reflexivity.
    + vm_compute. lia.
Defined.

Lemma Init_creates_layers_witness :
  ∃ filtered,
    @FilterNet (sample_param TEST sample_layers) = Ok filtered ∧
    Net.layers_ sample_net
    = @CreateLayer plain <$> NetParameter.layer (@InsertSplits plain filtered) ∧
    Net.layer_names_ sample_net
    = LayerParameter.name
        <$> NetParameter.layer (@InsertSplits plain filtered) ∧
    Net.name_ sample_net = NetParameter.name (@InsertSplits plain filtered) ∧
    ∃ first,
      Net.layers_ sample_net !! 0 = Some first ∧ Layer.type first = "Input".
Proof.
  destruct (@Init_creates_layers plain (sample_param TEST sample_layers))
    as [Hok _].
  apply (Hok sample_net). vm_compute. reflexivity.
Defined.

Lemma FilterNet_idempotent_witness :
  FilterNet (value_of (sample_param TEST [])
               (FilterNet (sample_param TEST ruled_layers)))
  = Ok (value_of (sample_param TEST [])
          (FilterNet (sample_param TEST ruled_layers))).
Proof.
  destruct (FilterNet_idempotent (sample_param TEST ruled_layers)
              (value_of (sample_param TEST [])
                 (FilterNet (sample_param TEST ruled_layers))))
    as (Hagain & _).
  - vm_compute. reflexivity.
  - exact Hagain.
Defined.

Lemma Init_net_inputs_witness :
  Net.net_input_blob_indices_ sample_net
  = input_tops
      (NetParameter.layer (@InsertSplits plain (sample_param TEST sample_layers)))
      (Net.top_id_vecs_ sample_net).
Proof.
  apply (@Init_net_inputs plain (sample_param TEST sample_layers)
           (sample_param TEST sample_layers) sample_net).
  - vm_compute. reflexivity.
  - vm_compute. reflexivity.
  - intros lp k name Hlp Htype Htop.
    assert (lp = sample_layer "in" "Input" [] ["data"] []) as ->.
    { simpl in Hlp. unfold sample_layers in Hlp.
      repeat (apply elem_of_cons in Hlp as [->|Hlp]; [try done|]);
        by apply elem_of_nil in Hlp. }
    simpl. by rewrite lookup_nil.
Defined.

Lemma Init_wires_by_name_witness :
  ∃ brow trow,
    Net.bottom_id_vecs_ sample_net !! 3 = Some brow ∧
    Net.top_id_vecs_ sample_net !! 3 = Some trow ∧
    Forall2 (λ id name, blob_by_name sample_net name = Ok id)
      brow (LayerParameter.bottom (sample_layer "fc" "InnerProduct" ["x"] ["out"]
                                     [BlobProto.mk [1%Z] [5%Z];
                                      BlobProto.mk [1%Z] [6%Z]])) ∧
    Forall2 (λ id name, blob_by_name sample_net name = Ok id)
      trow (LayerParameter.top (sample_layer "fc" "InnerProduct" ["x"] ["out"]
                                     [BlobProto.mk [1%Z] [5%Z];
                                      BlobProto.mk [1%Z] [6%Z]])) ∧
    Forall (made_before (Net.top_id_vecs_ sample_net) 3) brow.
Proof.
  apply (@Init_wires_by_name plain (sample_param TEST sample_layers)
           (sample_param TEST sample_layers) sample_net).
  - vm_compute. reflexivity.
  - vm_compute. reflexivity.
  - reflexivity.
Defined.

Lemma Init_fails_only_with_witness :
  (UnknownBottomBlob "x" "b" 0 = PhaseIsNotTest ∧
   NetState.phase (NetParameter.state (sample_param TEST twice_consumed_layers))
   ≠ TEST) ∨
  (∃ lp, lp ∈ NetParameter.layer (sample_param TEST twice_consumed_layers) ∧
     both_rule_lists lp ∧
     UnknownBottomBlob "x" "b" 0 = IncludeAndExclude (LayerParameter.name lp)) ∨
  (∃ filtered lp k name,
     FilterNet (sample_param TEST twice_consumed_layers) = Ok filtered ∧
     lp ∈ NetParameter.layer (@InsertSplits plain filtered) ∧
     ((LayerParameter.bottom lp !! k = Some name ∧
       UnknownBottomBlob "x" "b" 0
       = UnknownBottomBlob name (LayerParameter.name lp) k) ∨
      (LayerParameter.top lp !! k = Some name ∧
       LayerParameter.bottom lp !! k ≠ Some name ∧
       UnknownBottomBlob "x" "b" 0 = TopProducedByMultipleSources name))) ∨
  UnknownBottomBlob "x" "b" 0 = FirstLayerIsNotInput ∨
  UnknownBottomBlob "x" "b" 0 = SubscriptOfEmptyVector.
Proof.
  apply (@Init_fails_only_with plain (sample_param TEST twice_consumed_layers)).
  vm_compute. reflexivity.
Defined.

Lemma Init_net_outputs_witness :
  ∃ names,
    Forall2 (λ b name, Net.blob_names_ sample_net !! b = Some name)
      (Net.net_output_blob_indices_ sample_net) names ∧
    Sorted (λ a b : string, Is_true (String.leb a b)) names ∧
    NoDup names ∧
    ∀ name, name ∈ names ↔
            left_over
              (NetParameter.layer
                 (@InsertSplits plain (sample_param TEST sample_layers)))
              name.
Proof.
  apply (@Init_net_outputs plain (sample_param TEST sample_layers)
           (sample_param TEST sample_layers) sample_net).
  - vm_compute. reflexivity.
  - vm_compute. reflexivity.
Defined.

Lemma MarkOutputs_composes_witness :
  MarkOutputs (["x"] ++ ["out"]) sample_net
  = bind (MarkOutputs ["x"] sample_net) (MarkOutputs ["out"]) ∧
  MarkOutputs ["x"] marked_net = Ok marked_net.
Proof.
  destruct (MarkOutputs_composes ["x"] ["out"] sample_net) as [Happ Htwice].
  split; [exact Happ|]. apply Htwice. vm_compute. reflexivity.
Defined.
